(** * Category-label substitution engine of [alex/components/slu/base.py]

    A shallow embedding of [CategoryLabelDatabase] and [SLUPreprocessing]
    and the properties of the specification checked against it.

    Conventions of the embedding.
    - Python exceptions are the constructors of [Py.exn]; a call that can
      raise returns a [Py.res].
    - A Python [dict] is an association list without duplicate keys whose
      order is the iteration order of the dict; the embedding takes it to be
      insertion order.  Theorems that must not depend on this choice
      quantify over the order explicitly.
    - Local variables that the source rebinds ([utterance_cp = ...]) are
      passed as values; the object store of section [Obj] is used where
      object identity matters (in-place mutation against copying). *)

From Stdlib Require Import Lia Ascii String List.
From stdpp Require Import base list strings pretty sorting.

Set Warnings "-register-all".

Open Scope string_scope.
Open Scope list_scope.

(** ** Python values, exceptions and dicts *)

Module Py.

Inductive exn : Type :=
| SLUException
| AssertionError
| TypeError
| AttributeError
| IndexError
| KeyError
| StopIteration
| NotImplementedError.

Inductive res (A : Type) : Type :=
| Ok (a : A)
| Raise (e : exn).
Arguments Ok {A} a.
Arguments Raise {A} e.

Definition bind {A B} (m : res A) (k : A → res B) : res B :=
  match m with
  | Ok a => k a
  | Raise e => Raise e
  end.

(** [for x in l: body] over an accumulator, with exceptions. *)
Fixpoint for_each {A S} (l : list A) (body : A → S → res S) (s : S) : res S :=
  match l with
  | [] => Ok s
  | x :: l' => bind (body x s) (for_each l' body)
  end.

(** [for x in l: body] whose body may [break]. *)
Inductive flow (S : Type) : Type :=
| Continue (s : S)
| Break (s : S).
Arguments Continue {S} s.
Arguments Break {S} s.

Fixpoint for_break {A S} (l : list A) (body : A → S → res (flow S)) (s : S)
  : res S :=
  match l with
  | [] => Ok s
  | x :: l' =>
      match body x s with
      | Ok (Continue s') => for_break l' body s'
      | Ok (Break s') => Ok s'
      | Raise e => Raise e
      end
  end.

(** The state with which an iteration of the body ends. *)
Definition flow_state {S} (f : flow S) : S :=
  match f with Continue s | Break s => s end.

(** [map(f, l)] where [f] may raise. *)
Fixpoint map_res {A B} (f : A → res B) (l : list A) : res (list B) :=
  match l with
  | [] => Ok []
  | x :: l' => bind (f x) (λ y, bind (map_res f l') (λ ys, Ok (y :: ys)))
  end.

(** The values a database module can bind to a name.  Dict keys are
    strings, as in the database sources. *)
Inductive value : Type :=
| VNone
| VInt (z : Z)
| VStr (s : string)
| VList (l : list value)
| VDict (d : list (string * value)).

(** [dict]: association list in iteration order. *)
Definition dict (K V : Type) : Type := list (K * V).

Section Dict.
Context {K V : Type} `{EqDecision K}.

(** [d.get(k)] *)
Fixpoint get (k : K) (d : dict K V) : option V :=
  match d with
  | [] => None
  | (k', v) :: d' => if decide (k = k') then Some v else get k d'
  end.

(** [k in d] *)
Definition mem (k : K) (d : dict K V) : bool :=
  match get k d with Some _ => true | None => false end.

(** [d[k] = v] *)
Fixpoint set (k : K) (v : V) (d : dict K V) : dict K V :=
  match d with
  | [] => [(k, v)]
  | (k', v') :: d' =>
      if decide (k = k') then (k', v) :: d' else (k', v') :: set k v d'
  end.

(** [d[k] = f(d[k])] on a [defaultdict] with default [dflt]. *)
Definition update (k : K) (f : V → V) (dflt : V) (d : dict K V) : dict K V :=
  set k (f (default dflt (get k d))) d.

Definition keys (d : dict K V) : list K := d.*1.
End Dict.

(** [s.upper()] on a byte string: ASCII letters only. *)
Definition upper_ascii (c : ascii) : ascii :=
  let n := nat_of_ascii c in
  if (97 <=? n)%nat && (n <=? 122)%nat then ascii_of_nat (n - 32) else c.

Fixpoint upper (s : string) : string :=
  match s with
  | EmptyString => EmptyString
  | String c s' => String (upper_ascii c) (upper s')
  end.

(** [s.lower()] on a byte string. *)
Definition lower_ascii (c : ascii) : ascii :=
  let n := nat_of_ascii c in
  if (65 <=? n)%nat && (n <=? 90)%nat then ascii_of_nat (n + 32) else c.

Fixpoint lower (s : string) : string :=
  match s with
  | EmptyString => EmptyString
  | String c s' => String (lower_ascii c) (lower s')
  end.

(** [s.split()]: split on runs of white space, no empty words. *)
Definition is_space (c : ascii) : bool :=
  let n := nat_of_ascii c in
  (n =? 32)%nat || ((9 <=? n)%nat && (n <=? 13)%nat).

Fixpoint split_go (s cur : string) : list string :=
  match s with
  | EmptyString => match cur with EmptyString => [] | _ => [cur] end
  | String c s' =>
      if is_space c
      then match cur with
           | EmptyString => split_go s' EmptyString
           | _ => cur :: split_go s' EmptyString
           end
      else split_go s' (cur +:+ String c EmptyString)
  end.

Definition split (s : string) : list string := split_go s EmptyString.

(** Iterating over a string yields its characters as strings. *)
Fixpoint chars (s : string) : list string :=
  match s with
  | EmptyString => []
  | String c s' => String c EmptyString :: chars s'
  end.

(** [l.sort(key=..., reverse=True)] and [sorted(l, key=lambda x: -key(x))]:
    a stable sort by descending key. *)
Fixpoint insert_desc {A} (key : A → nat) (x : A) (l : list A) : list A :=
  match l with
  | [] => [x]
  | y :: l' =>
      if (key x <? key y)%nat then y :: insert_desc key x l' else x :: y :: l'
  end.

Fixpoint sort_desc {A} (key : A → nat) (l : list A) : list A :=
  match l with
  | [] => []
  | x :: l' => insert_desc key x (sort_desc key l')
  end.

(** The order of the keys in a list sorted by [sort_desc]. *)
Definition desc {A} (key : A → nat) : relation A := λ a b, (key b ≤ key a)%nat.

End Py.

(** [Py.res] is used through stdpp's monad notations [x ← m; k]. *)
#[global] Instance res_ret : MRet Py.res := λ A a, Py.Ok a.
#[global] Instance res_bind : MBind Py.res := λ A B k m, Py.bind m k.
#[global] Arguments res_ret {A} a / : assert.
#[global] Arguments res_bind {A B} k !m / : assert.
#[global] Arguments Py.bind {A B} !m k / : assert.

(** ** Utterances *)

Module Utterance.

(** A token is a word, a string. *)
Abbreviation token := string (only parsing).
(** A phrase is a sequence of tokens. *)
Abbreviation phrase := (list string) (only parsing).

(** Modelled from the spec: the [Utterance] / [AbstractedUtterance]
    classes of [alex.components.asr.utterance] are not part of the
    sources at hand.  An utterance is its sequence of tokens, with the
    capabilities of section 6 of the specification: a token-sequence
    containment test, a token-sequence replace of the first occurrence
    (the source agrees: "replace all instead of just the first one" is a
    pending FIXME at each call), and a relabelling operation.  The
    abstraction mark that relabelling leaves on the result is not
    observable through these capabilities and is not modelled. *)
Abbreviation t := (list string) (only parsing).

(** [p] starts the token sequence [u]. *)
Fixpoint starts_with (p : phrase) (u : t) : bool :=
  match p, u with
  | [], _ => true
  | _ :: _, [] => false
  | x :: p', y :: u' => bool_decide (x = y) && starts_with p' u'
  end.

(** Modelled from the spec: [phrase in utterance], the containment test. *)
Fixpoint contains (p : phrase) (u : t) : bool :=
  starts_with p u ||
  match u with
  | [] => false
  | _ :: u' => contains p u'
  end.

(** Modelled from the spec: [utterance.replace(orig, replacement)], which
    rewrites the first occurrence of [orig] and returns the utterance as it
    is when there is none. *)
Fixpoint replace (orig replacement : phrase) (u : t) : t :=
  if starts_with orig u then replacement ++ drop (length orig) u
  else match u with
       | [] => []
       | x :: u' => x :: replace orig replacement u'
       end.

(** Modelled from the spec: [utterance.phrase2category_label(phrase,
    catlab)], the replace that marks its result as an abstraction. *)
Definition phrase2category_label (p catlab : phrase) (u : t) : t :=
  replace p catlab u.

(** Modelled from the spec: the words of [utterance.lower()]. *)
Definition lower (u : t) : t := Py.lower <$> u.

(** [len(utterance)] *)
Definition len (u : t) : nat := length u.

End Utterance.

(** ** The label database *)

Module CategoryLabelDatabase.
Import Utterance.

(** What [load_as_module(file_name, force=True)] returns: the global names
    of the configuration module and the values bound to them.
    [load_as_module] is part of [alex.utils.config]; the embedding takes
    its result in place of the file name. *)
Definition module : Type := Py.dict string Py.value.

(** [hasattr(db_mod, 'database')] and [db_mod.database]. *)
Definition getattr (db_mod : module) (name : string) : option Py.value :=
  Py.get name db_mod.

(** The database after [normalise_database]:
    slot name -> value -> surface forms, each a tuple of words. *)
Definition normalised : Type := Py.dict string (Py.dict string (list phrase)).

(** [self.database] holds what the module gave until it is normalised. *)
Inductive database_t : Type :=
| Raw (v : Py.value)
| Normalised (d : normalised).

(** A synonym record [(form, value, category)]. *)
Definition triple : Type := phrase * string * string.

(** An entry [(form, {NAME: [values]})] of the grouped index. *)
Definition upnames_vals_t : Type := Py.dict string (list string).
Definition index : Type := list (phrase * upnames_vals_t).

Record t : Type := mk {
  database : database_t;
  synonym_value_category : list triple;
  _form_val_upname : option (list triple);
  _form_upnames_vals : option index;
}.

Definition set_database (d : database_t) (self : t) : t :=
  mk d (synonym_value_category self) (_form_val_upname self) (_form_upnames_vals self).
Definition set_synonym_value_category (l : list triple) (self : t) : t :=
  mk (database self) l (_form_val_upname self) (_form_upnames_vals self).
Definition set_form_val_upname (c : option (list triple)) (self : t) : t :=
  mk (database self) (synonym_value_category self) c (_form_upnames_vals self).
Definition set_form_upnames_vals (c : option index) (self : t) : t :=
  mk (database self) (synonym_value_category self) (_form_val_upname self) c.

(** *** Python's dynamic operations on module values *)

(** [for x in v] *)
Definition iter (v : Py.value) : Py.res (list Py.value) :=
  match v with
  | Py.VDict d => Py.Ok (Py.VStr <$> Py.keys d)
  | Py.VList l => Py.Ok l
  | Py.VStr s => Py.Ok (Py.VStr <$> Py.chars s)
  | Py.VNone | Py.VInt _ => Py.Raise Py.TypeError
  end.

(** [l[i]] for an integer [i], negative indices counting from the end. *)
Definition index_list {A} (l : list A) (i : Z) : Py.res A :=
  let j := if (i <? 0)%Z then (i + Z.of_nat (length l))%Z else i in
  if (j <? 0)%Z then Py.Raise Py.IndexError
  else match l !! Z.to_nat j with
       | Some x => Py.Ok x
       | None => Py.Raise Py.IndexError
       end.

(** [v[k]] *)
Definition getitem (v k : Py.value) : Py.res Py.value :=
  match v, k with
  | Py.VDict d, Py.VStr s =>
      match Py.get s d with
      | Some x => Py.Ok x
      | None => Py.Raise Py.KeyError
      end
  | Py.VDict d, (Py.VNone | Py.VInt _) => Py.Raise Py.KeyError
  | Py.VDict d, (Py.VList _ | Py.VDict _) => Py.Raise Py.TypeError
  | Py.VList l, Py.VInt i => index_list l i
  | Py.VStr s, Py.VInt i => c ← index_list (Py.chars s) i; Py.Ok (Py.VStr c)
  | _, _ => Py.Raise Py.TypeError
  end.

(** [d[k] = ...] needs a hashable key. *)
Definition hashable (k : Py.value) : Py.res unit :=
  match k with
  | Py.VList _ | Py.VDict _ => Py.Raise Py.TypeError
  | _ => Py.Ok ()
  end.

(** [tuple(phrase.split())] *)
Definition split_phrase (p : Py.value) : Py.res phrase :=
  match p with
  | Py.VStr s => Py.Ok (Py.split s)
  | _ => Py.Raise Py.AttributeError
  end.

(** A key of the normalised database.  A key that is no string is not
    entered: no run that meets one ends without an exception (lemma
    [normalise_value_names]). *)
Definition enter {V} (k : Py.value) (v : V) (d : Py.dict string V) : Py.dict string V :=
  match k with
  | Py.VStr s => Py.set s v d
  | _ => d
  end.

(** The body of the outer loop of [normalise_database]. *)
Definition normalise_name (db name : Py.value) (new_db : normalised)
  : Py.res normalised :=
  _ ← hashable name;
  inner ← getitem db name;
  values ← iter inner;
  entries ← Py.for_each values
    (λ value entries,
       forms_src ← getitem inner value;
       phrases ← iter forms_src;
       forms ← Py.map_res split_phrase phrases;
       _ ← hashable value;
       Py.Ok (enter value forms entries)) [];
  Py.Ok (enter name entries new_db).

Definition normalise_value (db : Py.value) : Py.res normalised :=
  names ← iter db;
  Py.for_each names (normalise_name db) [].

(** *** Methods

    A method returns its result, or the exception it raises, together with
    the object as the call leaves it. *)
Definition method (A : Type) : Type := t → Py.res A * t.

Definition and_then {A B} (m : method A) (k : A → method B) : method B :=
  λ self,
    match m self with
    | (Py.Ok a, self') => k a self'
    | (Py.Raise e, self') => (Py.Raise e, self')
    end.

(** [normalise_database]: split the phrases into sequences of words.  On a
    database that is normalised already the forms are tuples, which have
    no [split]. *)
Definition normalise_database : method unit :=
  λ self,
    match database self with
    | Raw v =>
        match normalise_value v with
        | Py.Ok new_db => (Py.Ok (), set_database (Normalised new_db) self)
        | Py.Raise e => (Py.Raise e, self)
        end
    | Normalised d =>
        if forallb (λ by_value, forallb (λ forms, bool_decide (forms.2 = []))
                                  by_value.2) d
        then (Py.Ok (), self)
        else (Py.Raise Py.AttributeError, self)
    end.

(** The triples that the three nested loops of
    [gen_synonym_value_category] append, in order. *)
Definition triples_of (d : normalised) : list triple :=
  name_vals ← d;
  val_forms ← name_vals.2;
  form ← val_forms.2;
  [(form, val_forms.1, name_vals.1)].

(** [gen_synonym_value_category]: append the triples of the database to
    [self.synonym_value_category] and sort it from the forms with most
    words to those with fewer.  [load], its only caller, normalises the
    database first; on a database that is not normalised the forms would
    be no word tuples, and the embedding raises in place of recording
    them. *)
Definition gen_synonym_value_category : method unit :=
  λ self,
    match database self with
    | Normalised d =>
        (Py.Ok (),
         set_synonym_value_category
           (Py.sort_desc (λ svc : triple, length svc.1.1)
              (synonym_value_category self ++ triples_of d)) self)
    | Raw _ => (Py.Raise Py.TypeError, self)
    end.

(** [load] *)
Definition load (db_mod : module) : method unit :=
  λ self,
    match getattr db_mod "database" with
    | None => (Py.Raise Py.SLUException, self)
    | Some v =>
        and_then normalise_database (λ _,
        and_then gen_synonym_value_category (λ _ self,
          (Py.Ok (), set_form_upnames_vals None (set_form_val_upname None self))))
          (set_database (Raw v) self)
    end.

(** [__init__]; [file_name] is [None] when no file is given. *)
Definition __init__ (file_name : option module) : Py.res t :=
  let self := mk (Raw (Py.VDict [])) [] None None in
  match file_name with
  | Some db_mod =>
      match load db_mod self with
      | (Py.Ok _, self) =>
          Py.Ok (set_form_upnames_vals None (set_form_val_upname None self))
      | (Py.Raise e, _) => Py.Raise e
      end
  | None => Py.Ok self
  end.

(** [__iter__] *)
Definition __iter__ (self : t) : list triple := synonym_value_category self.

(** Property [form_val_upname], computed at first use and kept. *)
Definition form_val_upname (self : t) : list triple * t :=
  match _form_val_upname self with
  | Some cached => (cached, self)
  | None =>
      let l := (λ '(form, val, name), (form, val, Py.upper name)) <$> __iter__ self in
      (l, set_form_val_upname (Some l) self)
  end.

(** [upnames_vals4form[form][upname].append(val)] for the triples in order. *)
Definition group (l : list triple) : Py.dict phrase upnames_vals_t :=
  fold_left
    (λ upnames_vals4form '(form, val, upname),
       Py.update form (Py.update upname (λ vals, vals ++ [val]) []) []
         upnames_vals4form)
    l [].

(** Property [form_upnames_vals], computed at first use and kept. *)
Definition form_upnames_vals (self : t) : index * t :=
  match _form_upnames_vals self with
  | Some cached => (cached, self)
  | None =>
      let '(fvu, self) := form_val_upname self in
      let l := Py.sort_desc (λ item : phrase * upnames_vals_t, length item.1) (group fvu) in
      (l, set_form_upnames_vals (Some l) self)
  end.

(** *** Shape of a database source and states of a database object *)

(** The two-level mapping [{slot name: {value: [surface phrase, ...]}}]. *)
Definition phrase_list (v : Py.value) : bool :=
  match v with
  | Py.VList l => forallb (λ p, match p with Py.VStr _ => true | _ => false end) l
  | _ => false
  end.

Definition value_mapping (v : Py.value) : bool :=
  match v with
  | Py.VDict d => forallb (λ kv, phrase_list kv.2) d
  | _ => false
  end.

Definition two_level_mapping (v : Py.value) : bool :=
  match v with
  | Py.VDict d => forallb (λ kv, value_mapping kv.2) d
  | _ => false
  end.

(** The states that a database object goes through: built by [__init__],
    then reloaded and read any number of times. *)
Inductive reachable : t → Prop :=
| reachable_init file_name self :
    __init__ file_name = Py.Ok self → reachable self
| reachable_load db_mod self :
    reachable self → reachable (load db_mod self).2
| reachable_form_val_upname self :
    reachable self → reachable (form_val_upname self).2
| reachable_form_upnames_vals self :
    reachable self → reachable (form_upnames_vals self).2.

End CategoryLabelDatabase.

(** ** The substitution engine *)

Module SLUPreprocessing.
Import Utterance.

Record t : Type := mk {
  cldb : CategoryLabelDatabase.t;
  text_normalization_mapping : list (phrase * phrase);
}.

(** [__init__]: an empty or missing [text_normalization] selects the
    built-in rules. *)
Definition __init__ (cldb : CategoryLabelDatabase.t)
    (text_normalization : option (list (phrase * phrase))) : t :=
  match text_normalization with
  | Some (rule :: rules) => mk cldb (rule :: rules)
  | _ =>
      mk cldb [(["erm"], []); (["uhm"], []); (["um"], []);
               (["i'm"], ["i"; "am"]); (["(sil)"], []);
               (["(%hesitation)"], []); (["(hesitation)"], [])]
  end.

(** [self.cldb.form_upnames_vals], as the scans read it. *)
Definition form_upnames_vals (self : t) : CategoryLabelDatabase.index :=
  (CategoryLabelDatabase.form_upnames_vals (cldb self)).1.

(** [self.cldb.form_val_upname] *)
Definition form_val_upname (self : t) : list CategoryLabelDatabase.triple :=
  (CategoryLabelDatabase.form_val_upname (cldb self)).1.

(** The words of the utterance that [text_normalisation] returns. *)
Definition text_normalisation (self : t) (utterance : Utterance.t) : Utterance.t :=
  fold_left (λ utterance mapping, replace mapping.1 mapping.2 utterance)
    (text_normalization_mapping self) (lower utterance).

(** The substitution record [valform_for_cl]:
    category label -> (value, surface form). *)
Definition record : Type := Py.dict string (string * phrase).

(** [defaultdict(int)] *)
Definition counter : Type := Py.dict string nat.

(** [upnames_vals.iteritems().next()] followed by [vals[0]]. *)
Definition choose (upnames_vals : CategoryLabelDatabase.upnames_vals_t)
  : Py.res (string * string) :=
  match upnames_vals with
  | [] => Py.Raise Py.StopIteration
  | (slot_upper, vals) :: _ =>
      match vals with
      | [] => Py.Raise Py.IndexError
      | value :: _ => Py.Ok (slot_upper, value)
      end
  end.

(** *** Forward pass over one utterance *)

(** The variables of the scanning loop. *)
Record locals : Type := Locals {
  utterance_cp : Utterance.t;
  category_label_counter : counter;
  valform_for_cl : record;
  substituted_len : nat;
}.

(** Modelled from the spec: [AbstractedUtterance.from_utterance], the
    copy of the utterance on which the scan works. *)
Definition from_utterance (utterance : Utterance.t) : Utterance.t := utterance.

(** The body of the [for] loop of [values2category_labels_in_utterance].
    With [all_options] the first match calls [append] on
    [matched_phrases], which is a dict. *)
Definition utterance_step (all_options : bool) (utt_len : nat)
    (item : phrase * CategoryLabelDatabase.upnames_vals_t) (st : locals)
  : Py.res (Py.flow locals) :=
  let '(surface, upnames_vals) := item in
  if contains surface (utterance_cp st) then
    let substituted_len := substituted_len st + length surface in
    st ← (if all_options then Py.Raise Py.AttributeError
          else
            '(slot_upper, value) ← choose upnames_vals;
            let category_label := slot_upper in
            let category_label_counter :=
              Py.update slot_upper S 0 (category_label_counter st) in
            let valform_for_cl :=
              Py.set category_label (value, surface) (valform_for_cl st) in
            let utterance_cp := replace surface [value] (utterance_cp st) in
            let utterance_cp :=
              phrase2category_label [value] [category_label] utterance_cp in
            Py.Ok (Locals utterance_cp category_label_counter valform_for_cl
                     substituted_len));
    if (utt_len <=? substituted_len)%nat then
      if (substituted_len =? utt_len)%nat then Py.Ok (Py.Break st)
      else Py.Raise Py.AssertionError
    else Py.Ok (Py.Continue st)
  else Py.Ok (Py.Continue st).

(** The loop of [values2category_labels_in_utterance] over an index. *)
Definition scan_utterance (all_options : bool)
    (index : CategoryLabelDatabase.index) (utterance : Utterance.t)
  : Py.res locals :=
  Py.for_break index (utterance_step all_options (len utterance))
    (Locals (from_utterance utterance) [] [] 0).

(** [values2category_labels_in_utterance]; after the loop [all_options]
    ends in [NotImplementedError]. *)
Definition values2category_labels_in_utterance (self : t)
    (utterance : Utterance.t) (all_options : bool)
  : Py.res (Utterance.t * record) :=
  st ← scan_utterance all_options (form_upnames_vals self) utterance;
  if all_options then Py.Raise Py.NotImplementedError
  else Py.Ok (utterance_cp st, valform_for_cl st).

(** *** Forward pass over an n-best list *)

Section NBList.
(** The probability of a hypothesis is carried along untouched. *)
Context {P : Type}.

(** Modelled from the spec: [UtteranceNBList], an ordered list of
    hypotheses [[prob, utterance]]. *)
Definition nblist : Type := list (P * Utterance.t).

Record nb_locals : Type := NBLocals {
  nblist_cp : nblist;
  nb_category_label_counter : counter;
  nb_valform_for_cl : record;
  nb_substituted_len : nat;
}.

(** [sum(len(hyp[1]) for hyp in nblist_cp)] *)
Definition tot_len (nb : nblist) : nat := sum_list ((λ hyp, len hyp.2) <$> nb).

(** [[hyp_idx for (hyp_idx, hyp) in enumerate(nblist_cp)
      if surface in hyp[1]]] *)
Definition hyps_with_surface (surface : phrase) (nb : nblist) : list nat :=
  (filter (λ ih : nat * (P * Utterance.t), contains surface ih.2.2)
     (imap pair nb)).*1.

(** [for hyp_idx in hyps_with_surface: nblist_cp[hyp_idx][1] = ...];
    the indices come from [enumerate], so each names a hypothesis. *)
Definition relabel_hyps (surface : phrase) (value category_label : string)
    (idxs : list nat) (nb : nblist) : nblist :=
  fold_left
    (λ nb hyp_idx,
       match nb !! hyp_idx with
       | Some (prob, utt) =>
           let new_utt := replace surface [value] utt in
           <[hyp_idx := (prob, phrase2category_label [value] [category_label] new_utt)]> nb
       | None => nb
       end)
    idxs nb.

(** ['{cat}-{idx}'.format(cat=slot_upper, idx=...)] *)
Definition indexed_label (slot_upper : string) (idx : nat) : string :=
  slot_upper +:+ "-" +:+ pretty idx.

(** The body of the [for] loop of [values2category_labels_in_uttnblist]. *)
Definition uttnblist_step (tot_len : nat)
    (item : phrase * CategoryLabelDatabase.upnames_vals_t) (st : nb_locals)
  : Py.res (Py.flow nb_locals) :=
  let '(surface, upnames_vals) := item in
  let hyps := hyps_with_surface surface (nblist_cp st) in
  match hyps with
  | [] => Py.Ok (Py.Continue st)
  | _ :: _ =>
      let substituted_len :=
        nb_substituted_len st + length surface * length hyps in
      '(slot_upper, value) ← choose upnames_vals;
      let category_label :=
        indexed_label slot_upper
          (default 0 (Py.get slot_upper (nb_category_label_counter st))) in
      let category_label_counter :=
        Py.update slot_upper S 0 (nb_category_label_counter st) in
      let valform_for_cl :=
        Py.set category_label (value, surface) (nb_valform_for_cl st) in
      let nblist_cp :=
        relabel_hyps surface value category_label hyps (nblist_cp st) in
      let st := NBLocals nblist_cp category_label_counter valform_for_cl
                  substituted_len in
      if (tot_len <=? substituted_len)%nat then
        if (substituted_len =? tot_len)%nat then Py.Ok (Py.Break st)
        else Py.Raise Py.AssertionError
      else Py.Ok (Py.Continue st)
  end.

Definition scan_uttnblist (index : CategoryLabelDatabase.index)
    (utt_nblist : nblist) : Py.res nb_locals :=
  Py.for_break index (uttnblist_step (tot_len utt_nblist))
    (NBLocals utt_nblist [] [] 0).

(** [values2category_labels_in_uttnblist] *)
Definition values2category_labels_in_uttnblist (self : t)
    (utt_nblist : nblist) : Py.res (nblist * record) :=
  st ← scan_uttnblist (form_upnames_vals self) utt_nblist;
  Py.Ok (nblist_cp st, nb_valform_for_cl st).

End NBList.
Arguments nblist P : clear implicits.
Arguments nb_locals P : clear implicits.

(** *** Forward pass over a confusion network *)

(** [print "(EE) " + ex], the handler of
    [values2category_labels_in_confnet]: the sum of a [str] and an
    exception object is a [TypeError], raised before anything is
    printed. *)
Definition print_ee (ex : Py.exn) : Py.res unit := Py.Raise Py.TypeError.

Section Confnet.
(** [UtteranceConfusionNetwork] is not part of the sources at hand; the
    capabilities that the scan uses are parameters.  The rewriting
    operations may raise. *)
Context {CN : Type}.
Variable cn_contains : phrase → CN → bool.
Variable cn_replace : phrase → phrase → CN → Py.res CN.
Variable cn_phrase2category_label : phrase → phrase → CN → Py.res CN.

(** The body of the [for] loop of [values2category_labels_in_confnet]. *)
Definition confnet_step
    (item : phrase * CategoryLabelDatabase.upnames_vals_t)
    (st : CN * record) : Py.res (CN * record) :=
  let '(surface, upnames_vals) := item in
  let '(confnet_cp, valform_for_cl) := st in
  if cn_contains surface confnet_cp then
    '(slot_upper, value) ← choose upnames_vals;
    let valform_for_cl := Py.set slot_upper (value, surface) valform_for_cl in
    match cn_replace surface [value] confnet_cp with
    | Py.Ok confnet_cp =>
        match cn_phrase2category_label [value] [slot_upper] confnet_cp with
        | Py.Ok confnet_cp => Py.Ok (confnet_cp, valform_for_cl)
        | Py.Raise ex => _ ← print_ee ex; Py.Ok (confnet_cp, valform_for_cl)
        end
    | Py.Raise ex => _ ← print_ee ex; Py.Ok (confnet_cp, valform_for_cl)
    end
  else Py.Ok st.

(** [values2category_labels_in_confnet] *)
Definition values2category_labels_in_confnet (self : t) (confnet : CN)
  : Py.res (CN * record) :=
  Py.for_each (form_upnames_vals self) confnet_step (confnet, []).

End Confnet.

(** *** Forward pass over an utterance and its dialogue act *)

(** Modelled from the spec: [DialogueActItem], a semantic item with its
    dialogue act type, slot name and value; [value2category_label]
    replaces the value with the label. *)
Record DialogueActItem : Type := DAI {
  dat : string;
  name : string;
  value : string;
}.

Definition value2category_label (label : string) (dai : DialogueActItem)
  : DialogueActItem :=
  DAI (dat dai) (name dai) label.

Definition DialogueAct : Type := list DialogueActItem.

(** What [values2category_labels_in_da] can be given as [utt_hyp]. *)
Inductive utt_hyp_t (P : Type) : Type :=
| AnUtterance (u : Utterance.t)
| AnUtteranceNBList (l : nblist P)
| AnotherObject.
Arguments AnUtterance {P} u.
Arguments AnUtteranceNBList {P} l.
Arguments AnotherObject {P}.

(** [{item[1][0]: item[0] for item in valform_for_cl.iteritems()}] *)
Definition invert (valform_for_cl : record) : Py.dict string string :=
  fold_left (λ cl_for_value item, Py.set item.2.1 item.1 cl_for_value)
    valform_for_cl [].

(** The body of the loop over the items of the dialogue act. *)
Definition da_step (form_val_upname : list CategoryLabelDatabase.triple)
    (cl_for_value : Py.dict string string) (dai : DialogueActItem)
  : DialogueActItem :=
  match Py.get (value dai) cl_for_value with
  | Some label => value2category_label label dai
  | None =>
      let matching_triples :=
        filter (λ tup : CategoryLabelDatabase.triple,
                  tup.1.2 = value dai ∧ tup.2 = Py.upper (name dai))
          form_val_upname in
      match matching_triples with
      | tup :: _ => value2category_label tup.2 dai
      | [] => dai
      end
  end.

(** The substitution in the utterance hypothesis with which
    [values2category_labels_in_da] starts: [isinstance] selects the variant,
    and anything but an utterance or an n-best list fails the assertion. *)
Definition substitute_utt_hyp {P} (self : t) (utt_hyp : utt_hyp_t P)
  : Py.res (utt_hyp_t P * record) :=
  match utt_hyp with
  | AnUtterance u =>
      '(u, valform_for_cl) ← values2category_labels_in_utterance self u false;
      Py.Ok (AnUtterance u, valform_for_cl)
  | AnUtteranceNBList l =>
      '(l, valform_for_cl) ← values2category_labels_in_uttnblist self l;
      Py.Ok (AnUtteranceNBList l, valform_for_cl)
  | AnotherObject => Py.Raise Py.AssertionError
  end.

(** [values2category_labels_in_da] *)
Definition values2category_labels_in_da {P} (self : t)
    (utt_hyp : utt_hyp_t P) (da : DialogueAct)
  : Py.res (utt_hyp_t P * DialogueAct * record) :=
  '(utt_hyp, valform_for_cl) ← substitute_utt_hyp self utt_hyp;
  let cl_for_value := invert valform_for_cl in
  let da := da_step (form_val_upname self) cl_for_value <$> da in
  Py.Ok (utt_hyp, da, valform_for_cl).

(** The alignment of one semantic item with a substitution record, in the
    words of the specification: a value that the record knows is replaced
    by a label that the record associates with it; otherwise a database
    triple with the value and the slot name of the item gives the slot
    label; otherwise the item keeps its literal value. *)
Definition in_record (rec : record) (v : string) : Prop :=
  ∃ cl surface, (cl, (v, surface)) ∈ rec.

Definition in_database (self : t) (slot v : string) : Prop :=
  ∃ form, (form, v, Py.upper slot) ∈ form_val_upname self.

Definition aligned_item (self : t) (rec : record) (dai dai' : DialogueActItem)
  : Prop :=
  dat dai' = dat dai ∧ name dai' = name dai ∧
  (in_record rec (value dai) →
     ∃ surface, (value dai', (value dai, surface)) ∈ rec) ∧
  (¬ in_record rec (value dai) → in_database self (name dai) (value dai) →
     value dai' = Py.upper (name dai)) ∧
  (¬ in_record rec (value dai) → ¬ in_database self (name dai) (value dai) →
     value dai' = value dai).

(** *** Backward pass *)

(** [category_labels2values_in_utterance]: [for cl in category_labels],
    with [category_labels[cl][1]] the surface form. *)
Definition category_labels2values_in_utterance (self : t)
    (utterance : Utterance.t) (category_labels : record) : Utterance.t :=
  fold_left
    (λ utterance cl,
       match Py.get cl category_labels with
       | Some valform => phrase2category_label [cl] valform.2 utterance
       | None => utterance
       end)
    (Py.keys category_labels) utterance.

(** [category_labels2values_in_uttnblist]: the loop variable is a
    hypothesis [[prob, utterance]] (the forward pass reads [hyp[1]]), a
    list, which has no [phrase2category_label]; the copy itself is never
    written to. *)
Definition category_labels2values_in_uttnblist {P} (self : t)
    (utt_nblist : nblist P) (category_labels : record)
  : Py.res (nblist P) :=
  let nblist_cp := utt_nblist in
  _ ← Py.for_each nblist_cp
        (λ utterance (_ : unit),
           Py.for_each (Py.keys category_labels)
             (λ cl (_ : unit), Py.Raise Py.AttributeError) ()) ();
  Py.Ok nblist_cp.

(** *** Conditions on an index and an utterance *)

(** The slot and the value that a scan takes for an entry of the index. *)
Definition chosen (item : phrase * CategoryLabelDatabase.upnames_vals_t)
  : option (string * string) :=
  match choose item.2 with
  | Py.Ok slot_value => Some slot_value
  | Py.Raise _ => None
  end.

(** The category labels that a scan over the utterance variant can
    insert: the slot names taken for the entries of the index. *)
Definition labels (index : CategoryLabelDatabase.index) : list string :=
  omap (λ item, fst <$> chosen item) index.

(** The entries of the index whose surface form occurs in the utterance. *)
Definition occurring (index : CategoryLabelDatabase.index) (utterance : Utterance.t)
  : CategoryLabelDatabase.index :=
  filter (λ item, contains item.1 utterance) index.

(** The positions at which a phrase occurs in an utterance. *)
Fixpoint occurrences_from (i : nat) (p : phrase) (u : Utterance.t) : list nat :=
  (if starts_with p u then [i] else []) ++
  match u with
  | [] => []
  | _ :: u' => occurrences_from (S i) p u'
  end.

Definition occurrences (p : phrase) (u : Utterance.t) : list nat :=
  occurrences_from 0 p u.

(** Two phrases overlap in an utterance when an occurrence of one shares a
    position with an occurrence of the other. *)
Definition overlap (p q : phrase) (u : Utterance.t) : bool :=
  existsb (λ i, existsb (λ j, (i <? j + length q)%nat && (j <? i + length p)%nat)
                  (occurrences q u))
    (occurrences p u).

(** No two different surface forms of the index overlap in the utterance. *)
Definition no_overlap (index : CategoryLabelDatabase.index) (u : Utterance.t) : bool :=
  forallb (λ p, forallb (λ q, bool_decide (p = q) || negb (overlap p q u)) index.*1)
    index.*1.

(** The conditions under which a forward pass over an utterance can be
    undone: every entry of the index has a slot and a value to choose; no
    category label occurs in the utterance or in a surface form; the
    surface forms that occur in the utterance get different labels; and the
    value chosen for a surface form that occurs in the utterance is the
    form itself, or occurs neither in the utterance nor among the
    labels. *)
Definition reversible (index : CategoryLabelDatabase.index) (utterance : Utterance.t)
  : Prop :=
  Forall (λ item, is_Some (chosen item)) index ∧
  Forall (λ label, (label ∉ utterance) ∧ Forall (λ item, label ∉ item.1) index)
    (labels index) ∧
  NoDup (labels (occurring index utterance)) ∧
  Forall (λ item, ∀ slot value, chosen item = Some (slot, value) →
                    item.1 = [value] ∨ ((value ∉ utterance) ∧ value ∉ labels index))
    (occurring index utterance).

(** The restoration as one pass from left to right over the tokens: a
    token that is a label of the record and has not been met before becomes
    the surface form recorded for it, every other token stays.  [pending]
    holds the labels not met yet. *)
Fixpoint restore_first (category_labels : record) (pending : list string)
    (utterance : Utterance.t) : Utterance.t :=
  match utterance with
  | [] => []
  | tok :: rest =>
      match (if bool_decide (tok ∈ pending) then Py.get tok category_labels
             else None) with
      | Some valform =>
          valform.2 ++
          restore_first category_labels (filter (λ cl, cl ≠ tok) pending) rest
      | None => tok :: restore_first category_labels pending rest
      end
  end.

(** The restoration of every occurrence of every label of the record. *)
Definition restore_all (category_labels : record) (utterance : Utterance.t)
  : Utterance.t :=
  tok ← utterance;
  match Py.get tok category_labels with
  | Some valform => valform.2
  | None => [tok]
  end.

End SLUPreprocessing.

(** ** Objects

    The engine again, on objects in a store: what a call does to the object
    it is given, and which objects it creates. *)

Module Obj.
Import Utterance.

(** A reference is a position in the store; a new object goes to its end. *)
Abbreviation ref := nat (only parsing).

Section Store.
(** The probability of a hypothesis is carried along untouched. *)
Context {P : Type}.

(** The objects of the engine: utterances, and n-best lists of
    [[prob, utterance]] hypotheses that refer to their utterances. *)
Inductive object : Type :=
| UtteranceObj (words : list string)
| NBListObj (hyps : list (P * ref)).

Definition store : Type := list object.

(** A computation on the store: its result, or the exception raised, and
    the store as it leaves it. *)
Definition M (A : Type) : Type := store → Py.res A * store.

Definition ret {A} (a : A) : M A := λ h, (Py.Ok a, h).

Definition bind {A B} (m : M A) (k : A → M B) : M B :=
  λ h, match m h with
       | (Py.Ok a, h') => k a h'
       | (Py.Raise e, h') => (Py.Raise e, h')
       end.

Definition raise {A} (e : Py.exn) : M A := λ h, (Py.Raise e, h).

#[global] Instance M_ret : MRet M := @ret.
#[global] Instance M_bind : MBind M := λ A B k m, bind m k.

(** A new object. *)
Definition alloc (o : object) : M ref := λ h, (Py.Ok (length h), h ++ [o]).

(** The object behind a reference. *)
Definition get (r : ref) : M object :=
  λ h, match h !! r with
       | Some o => (Py.Ok o, h)
       | None => (Py.Raise Py.AttributeError, h)
       end.

(** An update of an object in place. *)
Definition put (r : ref) (o : object) : M unit := λ h, (Py.Ok (), <[r := o]> h).

(** The words of an utterance; another object has none of the methods of
    an utterance. *)
Definition words_of (r : ref) : M (list string) :=
  o ← get r;
  match o with
  | UtteranceObj words => ret words
  | NBListObj _ => raise Py.AttributeError
  end.

(** The hypotheses of an n-best list. *)
Definition hyps_of (r : ref) : M (list (P * ref)) :=
  o ← get r;
  match o with
  | NBListObj hyps => ret hyps
  | UtteranceObj _ => raise Py.TypeError
  end.

(** [for x in l: body] over an accumulator. *)
Fixpoint for_each {A S} (l : list A) (body : A → S → M S) (s : S) : M S :=
  match l with
  | [] => ret s
  | x :: l' => s' ← body x s; for_each l' body s'
  end.

(** [for x in l: body] whose body may [break]. *)
Fixpoint for_break {A S} (l : list A) (body : A → S → M (Py.flow S)) (s : S) : M S :=
  match l with
  | [] => ret s
  | x :: l' =>
      f ← body x s;
      match f with
      | Py.Continue s' => for_break l' body s'
      | Py.Break s' => ret s'
      end
  end.

(** *** The methods of an utterance *)

(** Modelled from the spec: [utterance.lower()].  [text_normalisation]
    drops what the call returns and goes on with the object it called it
    on, which the specification has lower-cased by then: the method
    lower-cases the words of the object itself. *)
Definition lower (r : ref) : M ref :=
  words ← words_of r;
  _ ← put r (UtteranceObj (Utterance.lower words));
  ret r.

(** Modelled from the spec: [utterance.replace(orig, replacement)]; the
    callers go on with the utterance that the call returns. *)
Definition replace (r : ref) (orig replacement : phrase) : M ref :=
  words ← words_of r;
  alloc (UtteranceObj (Utterance.replace orig replacement words)).

(** Modelled from the spec: [utterance.phrase2category_label(phrase,
    catlab)]. *)
Definition phrase2category_label (r : ref) (p catlab : phrase) : M ref :=
  words ← words_of r;
  alloc (UtteranceObj (Utterance.phrase2category_label p catlab words)).

(** Modelled from the spec: [phrase in utterance]. *)
Definition contains (p : phrase) (r : ref) : M bool :=
  words ← words_of r; ret (Utterance.contains p words).

(** [len(utterance)] *)
Definition len (r : ref) : M nat :=
  words ← words_of r; ret (Utterance.len words).

(** Modelled from the spec: [AbstractedUtterance.from_utterance], a new
    utterance with the words of the given one. *)
Definition from_utterance (r : ref) : M ref :=
  words ← words_of r; alloc (UtteranceObj words).

(** Modelled from the spec: [copy.deepcopy], an independent, structurally
    equal clone: the utterances of an n-best list are cloned with it. *)
Definition deepcopy (r : ref) : M ref :=
  o ← get r;
  match o with
  | UtteranceObj words => alloc (UtteranceObj words)
  | NBListObj hyps =>
      hyps' ← for_each hyps
                (λ hyp hyps',
                   words ← words_of hyp.2;
                   utt ← alloc (UtteranceObj words);
                   ret (hyps' ++ [(hyp.1, utt)])) [];
      alloc (NBListObj hyps')
  end.

(** *** The engine *)

(** [text_normalisation] *)
Definition text_normalisation (self : SLUPreprocessing.t) (utterance : ref) : M ref :=
  _ ← lower utterance;
  for_each (SLUPreprocessing.text_normalization_mapping self)
    (λ mapping utterance, replace utterance mapping.1 mapping.2) utterance.

(** The variables of the scanning loop, [utterance_cp] being a reference. *)
Record locals : Type := Locals {
  utterance_cp : ref;
  category_label_counter : SLUPreprocessing.counter;
  valform_for_cl : SLUPreprocessing.record;
  substituted_len : nat;
}.

(** The body of the loop of [values2category_labels_in_utterance]. *)
Definition utterance_step (all_options : bool) (utt_len : nat)
    (item : phrase * CategoryLabelDatabase.upnames_vals_t) (st : locals)
  : M (Py.flow locals) :=
  let '(surface, upnames_vals) := item in
  present ← contains surface (utterance_cp st);
  if present : bool then
    let substituted_len := substituted_len st + length surface in
    st ← (if all_options then raise Py.AttributeError
          else
            match SLUPreprocessing.choose upnames_vals with
            | Py.Raise e => raise e
            | Py.Ok (slot_upper, value) =>
                let category_label := slot_upper in
                let category_label_counter :=
                  Py.update slot_upper S 0 (category_label_counter st) in
                let valform_for_cl :=
                  Py.set category_label (value, surface) (valform_for_cl st) in
                utterance_cp ← replace (utterance_cp st) surface [value];
                utterance_cp ←
                  phrase2category_label utterance_cp [value] [category_label];
                ret (Locals utterance_cp category_label_counter valform_for_cl
                       substituted_len)
            end);
    if (utt_len <=? substituted_len)%nat then
      if (substituted_len =? utt_len)%nat then ret (Py.Break st)
      else raise Py.AssertionError
    else ret (Py.Continue st)
  else ret (Py.Continue st).

(** [values2category_labels_in_utterance] *)
Definition values2category_labels_in_utterance (self : SLUPreprocessing.t)
    (utterance : ref) (all_options : bool) : M (ref * SLUPreprocessing.record) :=
  copy ← from_utterance utterance;
  utt_len ← len utterance;
  st ← for_break (SLUPreprocessing.form_upnames_vals self)
         (utterance_step all_options utt_len) (Locals copy [] [] 0);
  if all_options then raise Py.NotImplementedError
  else ret (utterance_cp st, valform_for_cl st).

(** [category_labels2values_in_utterance] *)
Definition category_labels2values_in_utterance (self : SLUPreprocessing.t)
    (utterance : ref) (category_labels : SLUPreprocessing.record) : M ref :=
  utterance ← deepcopy utterance;
  for_each (Py.keys category_labels)
    (λ cl utterance,
       match Py.get cl category_labels with
       | Some valform => phrase2category_label utterance [cl] valform.2
       | None => ret utterance
       end) utterance.

(** The variables of the loop of [values2category_labels_in_uttnblist];
    the n-best list itself is the object [nblist_cp]. *)
Record nb_locals : Type := NBLocals {
  nb_category_label_counter : SLUPreprocessing.counter;
  nb_valform_for_cl : SLUPreprocessing.record;
  nb_substituted_len : nat;
}.

(** [[hyp_idx for (hyp_idx, hyp) in enumerate(nblist_cp)
      if surface in hyp[1]]] *)
Definition hyps_with_surface (surface : phrase) (nblist_cp : ref) : M (list nat) :=
  hyps ← hyps_of nblist_cp;
  for_each (imap pair hyps)
    (λ ih idxs,
       present ← contains surface ih.2.2;
       ret (if present : bool then idxs ++ [ih.1] else idxs)) [].

(** [nblist_cp[hyp_idx][1] = new_utt.phrase2category_label(...)], an update
    of the n-best list in place. *)
Definition relabel_hyp (nblist_cp : ref) (surface : phrase)
    (value category_label : string) (hyp_idx : nat) : M unit :=
  hyps ← hyps_of nblist_cp;
  match hyps !! hyp_idx with
  | None => raise Py.IndexError
  | Some (prob, utt) =>
      new_utt ← replace utt surface [value];
      new_utt ← phrase2category_label new_utt [value] [category_label];
      put nblist_cp (NBListObj (<[hyp_idx := (prob, new_utt)]> hyps))
  end.

(** The body of the loop of [values2category_labels_in_uttnblist]. *)
Definition uttnblist_step (nblist_cp : ref) (tot_len : nat)
    (item : phrase * CategoryLabelDatabase.upnames_vals_t) (st : nb_locals)
  : M (Py.flow nb_locals) :=
  let '(surface, upnames_vals) := item in
  hyps ← hyps_with_surface surface nblist_cp;
  match hyps with
  | [] => ret (Py.Continue st)
  | _ :: _ =>
      let substituted_len :=
        nb_substituted_len st + length surface * length hyps in
      match SLUPreprocessing.choose upnames_vals with
      | Py.Raise e => raise e
      | Py.Ok (slot_upper, value) =>
          let category_label :=
            SLUPreprocessing.indexed_label slot_upper
              (default 0 (Py.get slot_upper (nb_category_label_counter st))) in
          let category_label_counter :=
            Py.update slot_upper S 0 (nb_category_label_counter st) in
          let valform_for_cl :=
            Py.set category_label (value, surface) (nb_valform_for_cl st) in
          _ ← for_each hyps
                (λ hyp_idx _, relabel_hyp nblist_cp surface value category_label hyp_idx)
                ();
          let st := NBLocals category_label_counter valform_for_cl substituted_len in
          if (tot_len <=? substituted_len)%nat then
            if (substituted_len =? tot_len)%nat then ret (Py.Break st)
            else raise Py.AssertionError
          else ret (Py.Continue st)
      end
  end.

(** [values2category_labels_in_uttnblist] *)
Definition values2category_labels_in_uttnblist (self : SLUPreprocessing.t)
    (utt_nblist : ref) : M (ref * SLUPreprocessing.record) :=
  nblist_cp ← deepcopy utt_nblist;
  hyps ← hyps_of nblist_cp;
  tot_len ← for_each hyps (λ hyp n, l ← len hyp.2; ret (n + l)) 0;
  st ← for_break (SLUPreprocessing.form_upnames_vals self)
         (uttnblist_step nblist_cp tot_len) (NBLocals [] [] 0);
  ret (nblist_cp, nb_valform_for_cl st).

(** [category_labels2values_in_uttnblist]: the loop variable is a
    hypothesis, a list, which has no [phrase2category_label]. *)
Definition category_labels2values_in_uttnblist (self : SLUPreprocessing.t)
    (utt_nblist : ref) (category_labels : SLUPreprocessing.record) : M ref :=
  nblist_cp ← deepcopy utt_nblist;
  hyps ← hyps_of nblist_cp;
  _ ← for_each hyps
        (λ utterance _,
           for_each (Py.keys category_labels)
             (λ cl _, raise Py.AttributeError) ()) ();
  ret nblist_cp.

(** *** What a call leaves of the store *)

(** A computation keeps the objects of [h0] when, started in any store
    that extends [h0], it ends in a store that extends [h0]; [Q] holds of
    what it returns. *)
Definition keeps (h0 : store) {A} (m : M A) (Q : A → Prop) : Prop :=
  ∀ ext, ∃ ext',
    (m (h0 ++ ext)).2 = h0 ++ ext' ∧
    ∀ a, (m (h0 ++ ext)).1 = Py.Ok a → Q a.

(** A reference to an object created after [h0]. *)
Definition created (h0 : store) (r : ref) : Prop := (length h0 ≤ r)%nat.

End Store.
Arguments object P : clear implicits.
Arguments store P : clear implicits.
Arguments M P A : clear implicits.

End Obj.

(** ** Sources and inputs of the examples *)

Module Examples.
Import Py.

(** Slot [city], value [Prague], surfaces "Prague" and "Praha". *)
Definition src_praha : CategoryLabelDatabase.module :=
  [("database",
    VDict [("city", VDict [("Prague", VList [VStr "Prague"; VStr "Praha"])])])].

Definition src_brno : CategoryLabelDatabase.module :=
  [("database", VDict [("city", VDict [("Brno", VList [VStr "Brno"])])])].

(** Slot [city] with the surfaces "Karlovy Vary" and "Vary". *)
Definition src_vary : CategoryLabelDatabase.module :=
  [("database",
    VDict [("city", VDict [("Karlovy Vary", VList [VStr "Karlovy Vary"]);
                           ("Vary", VList [VStr "Vary"])])])].


(** Slot [city] with the values Prague and Brno. *)
Definition src_cities : CategoryLabelDatabase.module :=
  [("database",
    VDict [("city", VDict [("Prague", VList [VStr "Prague"; VStr "Praha"]);
                           ("Brno", VList [VStr "Brno"])])])].

(** A city, and a stop whose surface form starts with the token "CITY". *)
Definition src_cascade : CategoryLabelDatabase.module :=
  [("database",
    VDict [("city", VDict [("Brno", VList [VStr "mesto brno stred"])]);
           ("stop", VDict [("Centrum", VList [VStr "CITY centrum"])])])].

(** A value bound to a phrase in place of a list of phrases. *)
Definition src_flat : CategoryLabelDatabase.module :=
  [("database", VDict [("city", VDict [("Prague", VStr "Praha")])])].

(** A module that does not define [database]. *)
Definition src_other : CategoryLabelDatabase.module :=
  [("db", VDict [("city", VDict [("Prague", VList [VStr "Praha"])])])].

(** A network of one path whose [replace] and [phrase2category_label]
    handle single words only and raise on longer phrases. *)
Definition one_best_contains : Utterance.phrase → Utterance.t → bool :=
  Utterance.contains.

Definition one_best_replace (orig replacement : Utterance.phrase)
    (cn : Utterance.t) : Py.res Utterance.t :=
  match orig with
  | [_] => Ok (Utterance.replace orig replacement cn)
  | _ => Raise NotImplementedError
  end.

(** The object before any file is loaded. *)
Definition fresh : CategoryLabelDatabase.t :=
  CategoryLabelDatabase.mk (CategoryLabelDatabase.Raw (VDict [])) [] None None.

(** The engine with the built-in normalisation rules over the database
    loaded from a source. *)
Definition cldb_of (db_mod : CategoryLabelDatabase.module) : CategoryLabelDatabase.t :=
  match CategoryLabelDatabase.__init__ (Some db_mod) with
  | Ok cldb => cldb
  | Raise _ => fresh
  end.

Definition slu_of (db_mod : CategoryLabelDatabase.module) : SLUPreprocessing.t :=
  SLUPreprocessing.__init__ (cldb_of db_mod) None.

End Examples.

(** ** The parser interface *)

Module SLUInterface.

(** The classes against which [parse] tests its input.  They are not part
    of the sources at hand, and neither is the way they inherit from each
    other: the test [isinstance] is a parameter. *)
Inductive class : Type :=
| Utterance
| UtteranceHyp
| UtteranceNBList
| UtteranceConfusionNetwork.

(** What a call raises: [DAILRException] beside the exceptions of
    [Py.exn]. *)
Inductive exn : Type :=
| DAILRException
| Exn (e : Py.exn).

Inductive res (A : Type) : Type :=
| Ok (a : A)
| Raise (e : exn).
Arguments Ok {A} a.
Arguments Raise {A} e.

(** The extra arguments [*args] and [**kw] of a call. *)
Definition args_t : Type := list Py.value.
Definition kw_t : Type := Py.dict string Py.value.

Section Interface.
Context {Input SLUHypothesis : Type}.
Variable isinstance : Input → class → bool.

(** The methods that a parser can override, as [parse] calls them:
    [self.parse_...(utterance, *args, **kw)]. *)
Record t : Type := mk {
  parse_1_best : Input → args_t → kw_t → res SLUHypothesis;
  parse_nblist : Input → args_t → kw_t → res SLUHypothesis;
  parse_confnet : Input → args_t → kw_t → res SLUHypothesis;
}.

(** A call [f(x, *args, **kw)] of a method [def f(self, x)]: any further
    argument is a [TypeError]. *)
Definition call_unary {A} (body : res A) (args : args_t) (kw : kw_t) : res A :=
  match args, kw with
  | [], [] => body
  | _, _ => Raise (Exn Py.TypeError)
  end.

(** The methods of [SLUInterface] itself. *)
Definition base : t := {|
  parse_1_best := λ utterance args kwargs, Raise (Exn Py.SLUException);
  parse_nblist := λ utterance_list, call_unary (Raise (Exn Py.SLUException));
  parse_confnet := λ confnet, call_unary (Raise (Exn Py.SLUException));
|}.

(** [parse] *)
Definition parse (self : t) (utterance : Input) (args : args_t) (kw : kw_t)
  : res SLUHypothesis :=
  if isinstance utterance Utterance then parse_1_best self utterance args kw
  else if isinstance utterance UtteranceHyp then parse_1_best self utterance args kw
  else if isinstance utterance UtteranceNBList then parse_nblist self utterance args kw
  else if isinstance utterance UtteranceConfusionNetwork
       then parse_confnet self utterance args kw
  else Raise DAILRException.

End Interface.
Arguments t Input SLUHypothesis : clear implicits.

End SLUInterface.

(** ** Notions used in the statements about the database and the scans *)

Module Derived.
Import Utterance.

(** The values of the synonym records with a given surface form whose slot
    name upper-cases to a given name, in the order of the records. *)
Definition values_of (form : phrase) (upname : string)
    (l : list CategoryLabelDatabase.triple) : list string :=
  (filter (λ t : CategoryLabelDatabase.triple, t.1.1 = form ∧ Py.upper t.2 = upname) l).*1.*2.

(** A database object with both caches emptied. *)
Definition invalidate (self : CategoryLabelDatabase.t) : CategoryLabelDatabase.t :=
  CategoryLabelDatabase.set_form_upnames_vals None
    (CategoryLabelDatabase.set_form_val_upname None self).

(** A database source of the documented shape
    [{slot name: {value: [surface phrase, ...]}}], as a typed value. *)
Definition source : Type := Py.dict string (Py.dict string (list string)).

(** The object that a configuration module binds to [database] for it. *)
Definition to_value (src : source) : Py.value :=
  Py.VDict ((λ name_vals : string * Py.dict string (list string),
               (name_vals.1,
                Py.VDict ((λ val_forms : string * list string,
                             (val_forms.1, Py.VList (Py.VStr <$> val_forms.2)))
                          <$> name_vals.2)))
            <$> src).

(** The source with every phrase split into its words. *)
Definition tokenised (src : source) : CategoryLabelDatabase.normalised :=
  (λ name_vals : string * Py.dict string (list string),
     (name_vals.1,
      (λ val_forms : string * list string, (val_forms.1, Py.split <$> val_forms.2))
      <$> name_vals.2))
  <$> src.

(** What a two-level dict binds to a value of a slot; the order in which
    the dict holds its slots and values plays no part in it. *)
Definition bound {V} (d : Py.dict string (Py.dict string V)) (name value : string)
  : option V :=
  by_value ← Py.get name d; Py.get value by_value.

(** No slot name and, within a slot, no value is bound twice: the source is
    a dict of dicts. *)
Definition well_keyed (src : source) : Prop :=
  NoDup (Py.keys src) ∧ Forall (λ name_vals, NoDup (Py.keys name_vals.2)) src.

(** What a step of the scan over an n-best list makes of a hypothesis. *)
Definition rewritten {P} (surface : phrase) (value category_label : string)
    (hyp : P * Utterance.t) : P * Utterance.t :=
  if contains surface hyp.2
  then (hyp.1, phrase2category_label [value] [category_label]
                 (replace surface [value] hyp.2))
  else hyp.





End Derived.

(** * Properties *)

(** ** Python lists and dicts *)

Section PyFacts.
Context {A : Type}.
Implicit Types (key : A → nat) (l : list A).

Lemma insert_desc_perm key x l : Py.insert_desc key x l ≡ₚ x :: l.
Proof.
  induction l as [|y l IH]; simpl; [done|].
  destruct (key x <? key y)%nat; [|done].
  rewrite IH. apply Permutation_swap.
Qed.

Lemma sort_desc_perm key l : Py.sort_desc key l ≡ₚ l.
Proof.
  induction l as [|x l IH]; simpl; [done|].
  by rewrite insert_desc_perm, IH.
Qed.

Lemma sort_desc_elem key l x : x ∈ Py.sort_desc key l ↔ x ∈ l.
Proof. by rewrite sort_desc_perm. Qed.

Lemma insert_desc_sorted key x l :
  StronglySorted (Py.desc key) l → StronglySorted (Py.desc key) (Py.insert_desc key x l).
Proof.
  induction 1 as [|y l Hl IH Hy]; simpl.
  - repeat constructor.
  - destruct (key x <? key y)%nat eqn:E.
    + apply Nat.ltb_lt in E. constructor; [done|].
      rewrite insert_desc_perm. constructor; [unfold Py.desc; lia|done].
    + apply Nat.ltb_ge in E. constructor; [by constructor|].
      constructor; [done|].
      eapply Forall_impl; [exact Hy|]. unfold Py.desc. intros; simpl in *; lia.
Qed.

Lemma sort_desc_sorted key l : StronglySorted (Py.desc key) (Py.sort_desc key l).
Proof.
  induction l; simpl; [constructor|]. by apply insert_desc_sorted.
Qed.
End PyFacts.

Section ResFacts.
Context {A S : Type}.

Lemma for_each_ok (l : list A) (body : A → S → Py.res S) (s : S) :
  (∀ x s, x ∈ l → ∃ s', body x s = Py.Ok s') →
  ∃ s', Py.for_each l body s = Py.Ok s'.
Proof.
  revert s. induction l as [|x l IH]; intros s H; simpl; [by eexists|].
  destruct (H x s) as [s' ->]; [left|]. simpl.
  apply IH. intros y t Hy. apply H. by right.
Qed.

Lemma map_res_ok {B} (f : A → Py.res B) (l : list A) :
  (∀ x, x ∈ l → ∃ y, f x = Py.Ok y) → ∃ ys, Py.map_res f l = Py.Ok ys.
Proof.
  induction l as [|x l IH]; intros H; simpl; [by eexists|].
  destruct (H x) as [y ->]; [left|]. simpl.
  destruct IH as [ys ->]; [intros; apply H; by right|]. by eexists.
Qed.

Lemma for_each_raises (l : list A) (body : A → S → Py.res S) (s : S) e :
  Py.for_each l body s = Py.Raise e → ∃ x s, x ∈ l ∧ body x s = Py.Raise e.
Proof.
  revert s. induction l as [|x l IH]; intros s; simpl; [done|].
  destruct (body x s) as [s'|e'] eqn:E; simpl; intros H.
  - destruct (IH _ H) as (y & t & Hy & Ht). exists y, t. split; [by right|done].
  - inversion H; subst. exists x, s. split; [left|done].
Qed.

Lemma map_res_raises {B} (f : A → Py.res B) (l : list A) e :
  Py.map_res f l = Py.Raise e → ∃ x, x ∈ l ∧ f x = Py.Raise e.
Proof.
  induction l as [|x l IH]; simpl; [done|].
  destruct (f x) as [y|e'] eqn:E; simpl; intros H.
  - destruct (Py.map_res f l) as [ys|e'']; simpl in H; [done|].
    inversion H; subst. destruct IH as (z & Hz & Hf); [done|].
    exists z. split; [by right|done].
  - inversion H; subst. exists x. split; [left|done].
Qed.
End ResFacts.

Section DictFacts.
Context {K V : Type} `{EqDecision K}.
Implicit Types (d : Py.dict K V) (k : K) (v : V).

Lemma get_Some_elem d k v : Py.get k d = Some v → (k, v) ∈ d.
Proof.
  induction d as [|[k' v'] d IH]; simpl; [done|].
  destruct (decide (k = k')) as [->|]; [intros [= ->]; left|right; auto].
Qed.

Lemma get_key d k : k ∈ Py.keys d → ∃ v, Py.get k d = Some v.
Proof.
  unfold Py.keys. induction d as [|[k' v'] d IH]; simpl; [by intros ?%elem_of_nil|].
  destruct (decide (k = k')) as [->|Hne]; [by eexists|].
  intros [?|?]%elem_of_cons; [done|auto].
Qed.

Lemma get_None d k : Py.get k d = None ↔ k ∉ Py.keys d.
Proof.
  unfold Py.keys. induction d as [|[k' v'] d IH]; simpl.
  - split; [intros _ ?%elem_of_nil; done|done].
  - rewrite not_elem_of_cons. destruct (decide (k = k')) as [->|Hne].
    + split; [done|]. by intros [? _].
    + rewrite IH. tauto.
Qed.

Lemma get_NoDup d k v : NoDup (Py.keys d) → (k, v) ∈ d → Py.get k d = Some v.
Proof.
  unfold Py.keys. induction d as [|[k' v'] d IH]; simpl; [by intros _ ?%elem_of_nil|].
  intros [Hk Hd]%NoDup_cons [[= -> ->]|Hin]%elem_of_cons.
  - by rewrite decide_True.
  - destruct (decide (k = k')) as [->|]; [|auto].
    destruct Hk. apply list_elem_of_fmap. by exists (k', v).
Qed.

Lemma keys_set d k v :
  Py.keys (Py.set k v d) = if Py.mem k d then Py.keys d else Py.keys d ++ [k].
Proof.
  unfold Py.mem, Py.keys. induction d as [|[k' v'] d IH]; [done|].
  cbn [Py.set Py.get]. destruct (decide (k = k')) as [->|Hne]; [done|].
  rewrite !fmap_cons, IH. by destruct (Py.get k d).
Qed.

Lemma elem_keys_set d k v k' :
  k' ∈ Py.keys (Py.set k v d) ↔ k' = k ∨ k' ∈ Py.keys d.
Proof.
  rewrite keys_set. unfold Py.mem. destruct (Py.get k d) eqn:E.
  - split; [auto|]. intros [->|]; [|done].
    apply get_Some_elem in E. apply list_elem_of_fmap. by exists (k, v0).
  - rewrite elem_of_app, list_elem_of_singleton. tauto.
Qed.

Lemma NoDup_keys_set d k v : NoDup (Py.keys d) → NoDup (Py.keys (Py.set k v d)).
Proof.
  intros Hd. rewrite keys_set. unfold Py.mem. destruct (Py.get k d) eqn:E; [done|].
  apply NoDup_app. split_and!; [done| |apply NoDup_singleton].
  intros x Hx ->%list_elem_of_singleton. by apply get_None in E.
Qed.

Lemma get_set d k v k' :
  Py.get k' (Py.set k v d) = if decide (k' = k) then Some v else Py.get k' d.
Proof.
  induction d as [|[k0 v0] d IH]; simpl.
  - by destruct (decide (k' = k)).
  - destruct (decide (k = k0)) as [->|Hne]; simpl.
    + destruct (decide (k' = k0)); done.
    + rewrite IH. destruct (decide (k' = k0)) as [->|]; [|done].
      by rewrite decide_False.
Qed.
End DictFacts.

(** ** Loading a database *)

Section LoadFacts.
Import CategoryLabelDatabase.

Lemma iter_raises v e : iter v = Py.Raise e → e = Py.TypeError.
Proof. destruct v; simpl; congruence. Qed.

Lemma index_list_raises {A} (l : list A) i e :
  index_list l i = Py.Raise e → e = Py.IndexError.
Proof.
  unfold index_list. repeat case_match; congruence.
Qed.

(** [x ← m; k] raises when [m] does or when [k] does. *)
Lemma bind_raises {A B} (m : Py.res A) (k : A → Py.res B) e :
  (x ← m; k x) = Py.Raise e → m = Py.Raise e ∨ ∃ a, m = Py.Ok a ∧ k a = Py.Raise e.
Proof.
  destruct m as [a|e']; simpl; intros H; [right; eauto|left; congruence].
Qed.

Lemma getitem_raises v k e : getitem v k = Py.Raise e → e ≠ Py.SLUException.
Proof.
  intros H. destruct v, k; simpl in H; try congruence;
    repeat match goal with
    | H : (_ ≫= _) = _ |- _ => apply bind_raises in H as [H|(? & _ & H)]
    | H : index_list _ _ = Py.Raise _ |- _ => apply index_list_raises in H; subst
    | H : match ?x with _ => _ end = _ |- _ => destruct x
    end; congruence.
Qed.

Lemma hashable_raises k e : hashable k = Py.Raise e → e = Py.TypeError.
Proof. destruct k; simpl; congruence. Qed.

Lemma split_phrase_raises p e : split_phrase p = Py.Raise e → e = Py.AttributeError.
Proof. destruct p; simpl; congruence. Qed.

Lemma normalise_name_raises db name new_db e :
  normalise_name db name new_db = Py.Raise e → e ≠ Py.SLUException.
Proof.
  unfold normalise_name.
  intros [H|(_ & _ & [H|(inner & _ & [H|(values & _ & [H|(? & _ & H)]%bind_raises)]%bind_raises)]%bind_raises)]%bind_raises.
  - apply hashable_raises in H. by subst.
  - by apply getitem_raises in H.
  - apply iter_raises in H. by subst.
  - apply for_each_raises in H as (value & entries & _ & H).
    apply bind_raises in H as [H|(forms_src & _ & [H|(phrases & _ & [H|(forms & _ & [H|(? & _ & H)]%bind_raises)]%bind_raises)]%bind_raises)].
    + by apply getitem_raises in H.
    + apply iter_raises in H. by subst.
    + apply map_res_raises in H as (p & _ & H). apply split_phrase_raises in H. by subst.
    + apply hashable_raises in H. by subst.
    + done.
  - done.
Qed.

Lemma normalise_value_raises v e :
  normalise_value v = Py.Raise e → e ≠ Py.SLUException.
Proof.
  unfold normalise_value. intros [H|(names & _ & H)]%bind_raises.
  - apply iter_raises in H. by subst.
  - apply for_each_raises in H as (name & new_db & _ & H).
    by apply normalise_name_raises in H.
Qed.

Lemma phrases_split l :
  forallb (λ p, match p with Py.VStr _ => true | _ => false end) l = true →
  ∃ forms, Py.map_res split_phrase l = Py.Ok forms.
Proof.
  intros H. apply map_res_ok. intros p Hp.
  rewrite forallb_forall in H. apply list_elem_of_In, H in Hp.
  destruct p; try done. by eexists.
Qed.

Lemma normalise_name_ok (d : list (string * Py.value)) name new_db :
  forallb (λ kv, value_mapping kv.2) d = true →
  name ∈ Py.keys d →
  ∃ new_db', normalise_name (Py.VDict d) (Py.VStr name) new_db = Py.Ok new_db'.
Proof.
  intros Hd Hname. unfold normalise_name. simpl.
  destruct (get_key _ _ Hname) as [inner Hinner]. rewrite Hinner. simpl.
  apply get_Some_elem in Hinner.
  rewrite forallb_forall in Hd. apply list_elem_of_In, Hd in Hinner. simpl in Hinner.
  destruct inner as [| | | |d']; try done. simpl in *.
  match goal with
  | |- context [Py.for_each ?l ?body ?s] =>
      destruct (for_each_ok l body s) as [entries ->]; [|by eexists]
  end.
  intros value entries (s & -> & Hs)%list_elem_of_fmap. simpl.
  destruct (get_key _ _ Hs) as [ps Hps]. rewrite Hps. simpl.
  apply get_Some_elem in Hps.
  rewrite forallb_forall in Hinner. apply list_elem_of_In, Hinner in Hps. simpl in Hps.
  destruct ps as [| | |l|]; try done. simpl in *.
  destruct (phrases_split _ Hps) as [forms ->]. by eexists.
Qed.

Lemma normalise_value_ok v :
  two_level_mapping v = true → ∃ new_db, normalise_value v = Py.Ok new_db.
Proof.
  destruct v as [| | | |d]; try done. simpl. intros Hd.
  unfold normalise_value. simpl.
  apply for_each_ok. intros name new_db (s & -> & Hs)%list_elem_of_fmap.
  by apply normalise_name_ok.
Qed.
End LoadFacts.

Section LoadClaims.
Import CategoryLabelDatabase.

(** C9, as stated, does not hold: the source [{"city": {"Prague": "Praha"}}]
    binds a value to a phrase, not to a list of phrases, and so lacks the
    two-level mapping shape; yet [load] raises nothing and records one
    one-letter surface form per character of the phrase. *)
Lemma load_accepts_malformed_source :
  ¬ (∀ db_mod self,
       (∀ v, getattr db_mod "database" = Some v → two_level_mapping v = false) →
       ∃ e, (load db_mod self).1 = Py.Raise e).
Proof.
  intros H. destruct (H Examples.src_flat Examples.fresh) as [e He].
  - intros v [= <-]. reflexivity.
  - vm_compute in He. discriminate.
Qed.

(** C9, amended: [load] fails with the configuration error
    ([SLUException]) exactly when the source module defines no [database]
    object, and then leaves the database object as it was; a source of the
    two-level shape [{slot: {value: [phrase, ...]}}] is loaded without an
    error. *)
Theorem load_configuration_error db_mod self :
  (getattr db_mod "database" = None →
     load db_mod self = (Py.Raise Py.SLUException, self)) ∧
  ((load db_mod self).1 = Py.Raise Py.SLUException →
     getattr db_mod "database" = None) ∧
  (∀ v, getattr db_mod "database" = Some v → two_level_mapping v = true →
     (load db_mod self).1 = Py.Ok ()).
Proof.
  unfold load. split_and!.
  - by intros ->.
  - destruct (getattr db_mod "database") as [v|]; [|done].
    unfold and_then, normalise_database, gen_synonym_value_category. simpl.
    destruct (normalise_value v) as [new_db|e] eqn:E; simpl; [done|].
    intros [= ->]. by apply normalise_value_raises in E.
  - intros v -> Hv.
    unfold and_then, normalise_database, gen_synonym_value_category. simpl.
    by destruct (normalise_value_ok v Hv) as [new_db ->].
Qed.

(** C3, evaluated on the code: after the database built from the source
    with city Prague/"Praha" is reloaded from a source that only knows
    Brno, [load] succeeds and [self.database] holds the new source alone,
    but the synonym records of the first source are still in
    [synonym_value_category] and in both derived indices:
    [gen_synonym_value_category] appends to the list, which [load] never
    empties. *)
Theorem reload_keeps_old_records :
  ∃ self,
    __init__ (Some Examples.src_praha) = Py.Ok self ∧
    let reloaded := load Examples.src_brno self in
    reloaded.1 = Py.Ok () ∧
    database reloaded.2 = Normalised [("city", [("Brno", [["Brno"]])])] ∧
    synonym_value_category reloaded.2 =
      [(["Prague"], "Prague", "city"); (["Praha"], "Prague", "city");
       (["Brno"], "Brno", "city")] ∧
    (form_val_upname reloaded.2).1 =
      [(["Prague"], "Prague", "CITY"); (["Praha"], "Prague", "CITY");
       (["Brno"], "Brno", "CITY")] ∧
    (form_upnames_vals reloaded.2).1 =
      [(["Prague"], [("CITY", ["Prague"])]); (["Praha"], [("CITY", ["Prague"])]);
       (["Brno"], [("CITY", ["Brno"])])].
Proof. eexists. split; [reflexivity|]. vm_compute. by repeat split. Qed.
End LoadClaims.

(** ** Loops *)

Section LoopFacts.
Context {A S : Type}.

Lemma for_break_inv (P : S → Prop) (l : list A) (body : A → S → Py.res (Py.flow S)) s s' :
  P s →
  (∀ x s fl, x ∈ l → P s → body x s = Py.Ok fl → P (Py.flow_state fl)) →
  Py.for_break l body s = Py.Ok s' → P s'.
Proof.
  revert s. induction l as [|x l IH]; intros s Hs Hstep; simpl.
  - by intros [= <-].
  - destruct (body x s) as [[s1|s1]|e] eqn:E; [| |done].
    + apply IH.
      * apply (Hstep x s (Py.Continue s1)); [left|done..].
      * intros y t fl Hy. apply Hstep. by right.
    + intros [= <-]. apply (Hstep x s (Py.Break s1)); [left|done..].
Qed.

Lemma for_each_inv (P : S → Prop) (l : list A) (body : A → S → Py.res S) s s' :
  P s →
  (∀ x s s', x ∈ l → P s → body x s = Py.Ok s' → P s') →
  Py.for_each l body s = Py.Ok s' → P s'.
Proof.
  revert s. induction l as [|x l IH]; intros s Hs Hstep; simpl.
  - by intros [= <-].
  - destruct (body x s) as [s1|e] eqn:E; simpl; [|done].
    apply IH.
    + apply (Hstep x s s1); [left|done..].
    + intros y t t' Hy. apply Hstep. by right.
Qed.
End LoopFacts.

Lemma elem_set {K V} `{EqDecision K} (d : Py.dict K V) k v k' v' :
  (k', v') ∈ Py.set k v d → (k', v') = (k, v) ∨ (k', v') ∈ d.
Proof.
  induction d as [|[k0 v0] d IH]; simpl.
  - intros ?%list_elem_of_singleton. by left.
  - destruct (decide (k = k0)) as [->|Hne].
    + intros [?|?]%elem_of_cons; [by left|right; by right].
    + intros [->|[?|?]%IH]%elem_of_cons; [right; by left|by left|right; by right].
Qed.

Lemma get_update {K} `{EqDecision K} (c : Py.dict K nat) k k' :
  default 0 (Py.get k' (Py.update k S 0 c)) =
    if decide (k' = k) then S (default 0 (Py.get k c)) else default 0 (Py.get k' c).
Proof.
  unfold Py.update. rewrite get_set. by destruct (decide (k' = k)).
Qed.

(** ** Category labels *)

Section LabelFacts.
Import SLUPreprocessing.
Implicit Types (index : CategoryLabelDatabase.index) (rec : record).

(** Every entry of the record of a scan over an utterance binds the bare
    slot name chosen for an item of the index to the chosen value and the
    surface form of that item. *)
Lemma scan_utterance_labels index utterance st :
  scan_utterance false index utterance = Py.Ok st →
  ∀ cl vf, (cl, vf) ∈ valform_for_cl st →
    ∃ item, item ∈ index ∧ choose item.2 = Py.Ok (cl, vf.1) ∧ vf.2 = item.1.
Proof.
  unfold scan_utterance. intros H. pattern st.
  eapply for_break_inv; [| |exact H]; simpl.
  - intros cl vf ?%elem_of_nil. done.
  - intros [surface upnames_vals] st0 fl Hin IH. unfold utterance_step.
    destruct (Utterance.contains surface (utterance_cp st0)); [|by intros [= <-]].
    destruct (choose upnames_vals) as [[slot_upper value]|e] eqn:Hch; simpl; [|done].
    intros Hfl cl vf Hcl.
    assert (Hst : (cl, vf) ∈ Py.set slot_upper (value, surface) (valform_for_cl st0)).
    { repeat case_match; simplify_eq; done. }
    apply elem_set in Hst as [[= -> ->]|Hold]; [|by apply IH].
    exists (surface, upnames_vals). by split_and!.
Qed.

Lemma confnet_labels {CN} (cn_contains : Utterance.phrase → CN → bool)
    (cn_replace cn_p2cl : Utterance.phrase → Utterance.phrase → CN → Py.res CN)
    index confnet cn rec :
  Py.for_each index (confnet_step cn_contains cn_replace cn_p2cl) (confnet, []) = Py.Ok (cn, rec) →
  ∀ cl vf, (cl, vf) ∈ rec →
    ∃ item, item ∈ index ∧ choose item.2 = Py.Ok (cl, vf.1) ∧ vf.2 = item.1.
Proof.
  intros H.
  cut ((λ st : CN * record, ∀ cl vf, (cl, vf) ∈ st.2 →
          ∃ item, item ∈ index ∧ choose item.2 = Py.Ok (cl, vf.1) ∧ vf.2 = item.1)
         (cn, rec)); [done|].
  eapply for_each_inv; [| |exact H]; simpl; [by intros cl vf ?%elem_of_nil|].
  intros [surface upnames_vals] [cn0 rec0] [cn1 rec1] Hin IH. unfold confnet_step.
  destruct (cn_contains surface cn0); [|by intros [= <- <-]].
  destruct (choose upnames_vals) as [[slot_upper value]|e] eqn:Hch; simpl; [|done].
  intros Hst cl vf Hcl.
  assert (Hrec : rec1 = Py.set slot_upper (value, surface) rec0).
  { repeat case_match; simplify_eq; done. }
  subst rec1. apply elem_set in Hcl as [[= -> ->]|Hold]; [|by apply (IH cl vf)].
  exists (surface, upnames_vals). by split_and!.
Qed.

(** The record of a scan over an n-best list: every label is a chosen slot
    name followed by an index below the counter of the slot, and all the
    indices below the counter are in use. *)
Lemma scan_uttnblist_labels {P} index (utt_nblist : nblist P) st :
  scan_uttnblist index utt_nblist = Py.Ok st →
  (∀ cl vf, (cl, vf) ∈ nb_valform_for_cl st →
     ∃ item slot k, item ∈ index ∧ choose item.2 = Py.Ok (slot, vf.1) ∧
       vf.2 = item.1 ∧ cl = indexed_label slot k ∧
       k < default 0 (Py.get slot (nb_category_label_counter st))) ∧
  (∀ slot k, k < default 0 (Py.get slot (nb_category_label_counter st)) →
     indexed_label slot k ∈ Py.keys (nb_valform_for_cl st)).
Proof.
  unfold scan_uttnblist. intros H. pattern st.
  eapply for_break_inv; [| |exact H]; simpl.
  - split; [by intros cl vf ?%elem_of_nil|]. intros; lia.
  - intros [surface upnames_vals] st0 fl Hin [IH1 IH2]. unfold uttnblist_step.
    destruct (hyps_with_surface surface (nblist_cp st0)) as [|i hyps] eqn:Hh;
      [by intros [= <-]|].
    destruct (choose upnames_vals) as [[slot_upper value]|e] eqn:Hch; simpl; [|done].
    set (c := default 0 (Py.get slot_upper (nb_category_label_counter st0))).
    intros Hfl.
    assert (Hst : nb_valform_for_cl (Py.flow_state fl) =
                    Py.set (indexed_label slot_upper c) (value, surface) (nb_valform_for_cl st0)
                  ∧ nb_category_label_counter (Py.flow_state fl) =
                    Py.update slot_upper S 0 (nb_category_label_counter st0)).
    { repeat case_match; simplify_eq; done. }
    destruct Hst as [-> ->]. split.
    + intros cl vf [[= -> ->]|Hold]%elem_set.
      * exists (surface, upnames_vals), slot_upper, c. split_and!; try done.
        rewrite get_update, decide_True by done. fold c. lia.
      * destruct (IH1 cl vf Hold) as (item & slot & k & ? & ? & ? & ? & Hk).
        exists item, slot, k. split_and!; try done.
        rewrite get_update. destruct (decide (slot = slot_upper)) as [->|]; [|done].
        fold c in Hk |- *. lia.
    + intros slot k. rewrite get_update, elem_keys_set.
      destruct (decide (slot = slot_upper)) as [->|]; [|by right; apply IH2].
      fold c. intros Hk. destruct (decide (k = c)) as [->|]; [by left|].
      right. apply IH2. fold c. lia.
Qed.
End LabelFacts.

Section LabelClaims.
Import SLUPreprocessing.

End LabelClaims.

(** ** The confusion network variant *)

Section ConfnetClaims.
Import SLUPreprocessing.
Context {CN : Type}.
Variable cn_contains : Utterance.phrase → CN → bool.
Variable cn_replace cn_p2cl : Utterance.phrase → Utterance.phrase → CN → Py.res CN.

Lemma confnet_skip pre (st : CN * record) :
  forallb (λ item : Utterance.phrase * CategoryLabelDatabase.upnames_vals_t,
             negb (cn_contains item.1 st.1)) pre = true →
  Py.for_each pre (confnet_step cn_contains cn_replace cn_p2cl) st = Py.Ok st.
Proof.
  induction pre as [|[surface uv] pre IH]; simpl; [done|].
  intros [Hs Hpre]%andb_prop. destruct st as [cn rec]. simpl in *.
  apply negb_true_iff in Hs. rewrite Hs. simpl. by apply IH.
Qed.

Lemma for_each_app {A S} (l1 l2 : list A) (body : A → S → Py.res S) s :
  Py.for_each (l1 ++ l2) body s = (s1 ← Py.for_each l1 body s; Py.for_each l2 body s1).
Proof.
  revert s. induction l1 as [|x l1 IH]; intros s; simpl; [done|].
  destruct (body x s); simpl; [apply IH|done].
Qed.

(** C10, evaluated on the code: when the rewriting of a matched surface
    raises an exception in [replace] or in [phrase2category_label], the
    handler evaluates ["(EE) " + ex], which is itself a [TypeError]: the
    call does not return a (confnet, record) pair, the [TypeError] leaves
    [values2category_labels_in_confnet] and the remaining surface forms are
    not scanned. *)
Theorem confnet_handler_raises self (confnet : CN) pre surface upnames_vals post
    slot_upper value ex :
  form_upnames_vals self = pre ++ (surface, upnames_vals) :: post →
  forallb (λ item : Utterance.phrase * CategoryLabelDatabase.upnames_vals_t,
             negb (cn_contains item.1 confnet)) pre = true →
  cn_contains surface confnet = true →
  choose upnames_vals = Py.Ok (slot_upper, value) →
  (cn_replace surface [value] confnet = Py.Raise ex ∨
   ∃ confnet', cn_replace surface [value] confnet = Py.Ok confnet' ∧
               cn_p2cl [value] [slot_upper] confnet' = Py.Raise ex) →
  values2category_labels_in_confnet cn_contains cn_replace cn_p2cl self confnet
    = Py.Raise Py.TypeError.
Proof.
  intros Hidx Hpre Hs Hch Hex. unfold values2category_labels_in_confnet.
  rewrite Hidx, for_each_app, (confnet_skip pre (confnet, [])) by done.
  simpl. rewrite Hs, Hch. simpl.
  destruct Hex as [->|(confnet' & -> & ->)]; done.
Qed.
End ConfnetClaims.

Lemma confnet_handler_raises_witness :
  SLUPreprocessing.values2category_labels_in_confnet
    Examples.one_best_contains Examples.one_best_replace Examples.one_best_replace
    (Examples.slu_of Examples.src_vary) ["do"; "Karlovy"; "Vary"]
  = Py.Raise Py.TypeError.
Proof.
  apply (confnet_handler_raises _ _ _ _ _ [] ["Karlovy"; "Vary"]
           [("CITY", ["Karlovy Vary"])] [(["Vary"], [("CITY", ["Vary"])])]
           "CITY" "Karlovy Vary" Py.NotImplementedError).
  - reflexivity.
  - reflexivity.
  - reflexivity.
  - reflexivity.
  - left. reflexivity.
Defined.

(** ** Alignment of the dialogue act *)

Section AlignFacts.
Import SLUPreprocessing.

Lemma get_invert_acc (rec : record) (acc : Py.dict string string) v :
  match Py.get v (fold_left (λ cl_for_value item, Py.set item.2.1 item.1 cl_for_value) rec acc) with
  | Some cl => (∃ surface, (cl, (v, surface)) ∈ rec) ∨ Py.get v acc = Some cl
  | None => ¬ in_record rec v ∧ Py.get v acc = None
  end.
Proof.
  revert acc. induction rec as [|[cl0 [v0 s0]] rec IH]; intros acc; simpl.
  - destruct (Py.get v acc); [by right|]. split; [|done].
    by intros (? & ? & ?%elem_of_nil).
  - specialize (IH (Py.set v0 cl0 acc)). rewrite get_set in IH.
    destruct (Py.get v (fold_left _ rec _)) as [cl|].
    + destruct IH as [[surface Hs]|Hacc]; [left; exists surface; by right|].
      destruct (decide (v = v0)) as [->|]; [|by right].
      injection Hacc as ->. left. exists s0. left.
    + destruct IH as [Hrec Hacc].
      destruct (decide (v = v0)) as [->|Hne]; [done|]. split; [|done].
      intros (cl & surface & [[= -> -> ->]|Hin]%elem_of_cons); [done|].
      apply Hrec. by exists cl, surface.
Qed.

Lemma get_invert (rec : record) v :
  match Py.get v (invert rec) with
  | Some cl => ∃ surface, (cl, (v, surface)) ∈ rec
  | None => ¬ in_record rec v
  end.
Proof.
  pose proof (get_invert_acc rec [] v) as H. unfold invert.
  case_match; [by destruct H|by destruct H].
Qed.

Lemma da_step_aligned self rec dai :
  aligned_item self rec dai (da_step (form_val_upname self) (invert rec) dai).
Proof.
  unfold da_step, aligned_item. pose proof (get_invert rec (value dai)) as Hget.
  destruct (Py.get (value dai) (invert rec)) as [cl|]; simpl.
  - destruct Hget as [s Hs].
    assert (Hin : in_record rec (value dai)) by (by exists cl, s).
    split_and!; try done; [by exists s|by intros []..].
  - destruct (filter _ (form_val_upname self)) as [|tup l] eqn:Hf; simpl.
    + split_and!; try done.
      intros _ [form Hform]. exfalso.
      assert (Hin : (form, value dai, Py.upper (name dai)) ∈
                      filter (λ tup : CategoryLabelDatabase.triple,
                                tup.1.2 = value dai ∧ tup.2 = Py.upper (name dai))
                        (form_val_upname self)).
      { apply list_elem_of_filter. by split. }
      rewrite Hf in Hin. by apply elem_of_nil in Hin.
    + assert (Hin : tup ∈ filter (λ tup : CategoryLabelDatabase.triple,
                                tup.1.2 = value dai ∧ tup.2 = Py.upper (name dai))
                        (form_val_upname self)) by (rewrite Hf; left).
      apply list_elem_of_filter in Hin as [[Hv Hn] Hin].
      split_and!; try done.
      intros _ Hno. destruct Hno. destruct tup as [[form v] n]. simpl in *. subst.
      by exists form.
Qed.
End AlignFacts.

Section AlignClaims.
Import SLUPreprocessing.

(** C7: when the forward pass over the utterance hypothesis returns the
    substitution record [rec], [values2category_labels_in_da] returns it
    with a dialogue act that has, item for item, the value replaced by a
    category label that the record associates with it if the record knows
    the value; otherwise the upper-cased slot name as label if the database
    has a triple with that value whose slot is the slot of the item;
    otherwise the literal value unchanged. *)
Theorem dialogue_act_alignment {P} self (utt_hyp utt_hyp' : utt_hyp_t P) da rec :
  substitute_utt_hyp self utt_hyp = Py.Ok (utt_hyp', rec) →
  ∃ da',
    values2category_labels_in_da self utt_hyp da = Py.Ok (utt_hyp', da', rec) ∧
    Forall2 (aligned_item self rec) da da'.
Proof.
  intros H. unfold values2category_labels_in_da. rewrite H. simpl.
  eexists. split; [reflexivity|].
  apply Forall2_fmap_r, Forall_Forall2_diag, Forall_forall.
  intros dai _. apply da_step_aligned.
Qed.
End AlignClaims.

Lemma dialogue_act_alignment_witness :
  ∃ da',
    SLUPreprocessing.values2category_labels_in_da (P := unit)
      (Examples.slu_of Examples.src_praha)
      (SLUPreprocessing.AnUtterance ["i"; "want"; "to"; "go"])
      [SLUPreprocessing.DAI "inform" "CITY" "Prague"]
    = Py.Ok (SLUPreprocessing.AnUtterance ["i"; "want"; "to"; "go"], da', []) ∧
    Forall2 (SLUPreprocessing.aligned_item (Examples.slu_of Examples.src_praha) [])
      [SLUPreprocessing.DAI "inform" "CITY" "Prague"] da'.
Proof.
  apply (dialogue_act_alignment (Examples.slu_of Examples.src_praha)
           (SLUPreprocessing.AnUtterance ["i"; "want"; "to"; "go"])).
  reflexivity.
Defined.

(** The example of the specification: the annotation carries slot [CITY]
    with value [Prague], the utterance mentions no city, and the item is
    labelled [CITY] through the database. *)
Example dialogue_act_fallback :
  SLUPreprocessing.values2category_labels_in_da (P := unit)
    (Examples.slu_of Examples.src_praha)
    (SLUPreprocessing.AnUtterance ["i"; "want"; "to"; "go"])
    [SLUPreprocessing.DAI "inform" "CITY" "Prague"]
  = Py.Ok (SLUPreprocessing.AnUtterance ["i"; "want"; "to"; "go"],
           [SLUPreprocessing.DAI "inform" "CITY" "CITY"], []).
Proof. reflexivity. Qed.

(** ** The backward pass *)

Section BackwardFacts.
Import SLUPreprocessing Utterance.
Implicit Types (rec : record) (u : Utterance.t) (K : list string).

Lemma replace_token_nil k s : replace [k] s [] = [].
Proof. done. Qed.

Lemma replace_token_cons k s tok u :
  replace [k] s (tok :: u) = if decide (k = tok) then s ++ u else tok :: replace [k] s u.
Proof.
  simpl. destruct (decide (k = tok)) as [->|Hne].
  - by rewrite bool_decide_eq_true_2.
  - by rewrite bool_decide_eq_false_2.
Qed.

Lemma restore_first_app rec K s u :
  (∀ k, k ∈ K → k ∉ s) →
  restore_first rec K (s ++ u) = s ++ restore_first rec K u.
Proof.
  induction s as [|tok s IH]; intros Hs; simpl; [done|].
  rewrite bool_decide_eq_false_2.
  - f_equal. apply IH. intros k Hk Hin. apply (Hs k Hk). by right.
  - intros Hk. apply (Hs tok Hk). left.
Qed.

Lemma filter_ne_notin K (k : string) : k ∉ K → filter (λ cl, cl ≠ k) K = K.
Proof.
  induction K as [|x K IH]; [done|].
  intros [Hx HK]%not_elem_of_cons. rewrite filter_cons_True by done.
  by rewrite IH.
Qed.

(** Rewriting the first occurrence of a label and then restoring the
    others is the one pass in which the label is pending too. *)
Lemma restore_first_step rec K k vf u :
  k ∉ K → Py.get k rec = Some vf → (∀ k', k' ∈ k :: K → k' ∉ vf.2) →
  restore_first rec K (replace [k] vf.2 u) = restore_first rec (k :: K) u.
Proof.
  intros Hk Hget. revert K Hk. induction u as [|tok u IH]; intros K Hk Hs; [done|].
  rewrite replace_token_cons. case_decide as Hne; [subst tok|].
  - rewrite restore_first_app by (intros k' Hk'; apply Hs; by right).
    cbn [restore_first]. rewrite bool_decide_eq_true_2 by left. rewrite Hget.
    rewrite filter_cons_False by (intros Hkk; by apply Hkk).
    by rewrite filter_ne_notin.
  - cbn [restore_first]. destruct (decide (tok ∈ K)) as [Hin|Hnin].
    + rewrite !bool_decide_eq_true_2 by (done || by right).
      destruct (Py.get tok rec) as [vf'|].
      * f_equal. rewrite filter_cons_True by done. apply IH.
        -- intros [_ ?]%list_elem_of_filter. done.
        -- intros k' [->|[_ ?]%list_elem_of_filter]%elem_of_cons; apply Hs; [left|by right].
      * f_equal. by apply IH.
    + rewrite !bool_decide_eq_false_2; [f_equal; by apply IH|..|done].
      by intros [?|?]%elem_of_cons.
Qed.

Lemma backward_fold rec K u :
  NoDup K → (∀ k, k ∈ K → k ∈ Py.keys rec) →
  (∀ k vf, k ∈ K → Py.get k rec = Some vf → ∀ k', k' ∈ K → k' ∉ vf.2) →
  fold_left
    (λ utterance cl,
       match Py.get cl rec with
       | Some valform => phrase2category_label [cl] valform.2 utterance
       | None => utterance
       end) K u
  = restore_first rec K u.
Proof.
  revert u. induction K as [|k K IH]; intros u Hnd Hkeys Hs; simpl.
  - induction u as [|tok u IHu]; [done|]. cbn [restore_first].
    rewrite bool_decide_eq_false_2 by apply not_elem_of_nil. by rewrite <- IHu at 1.
  - apply NoDup_cons in Hnd as [Hk Hnd].
    destruct (get_key rec k) as [vf Hget]; [apply Hkeys; left|]. rewrite Hget.
    rewrite IH; [| done | by intros; apply Hkeys; right |].
    + unfold phrase2category_label. apply restore_first_step; [done..|].
      intros k' Hk'. by apply (Hs k vf); [left|..].
    + intros k1 vf1 Hk1 Hget1 k' Hk'. apply (Hs k1 vf1); [by right|done|by right].
Qed.
End BackwardFacts.

Section BackwardClaims.
Import SLUPreprocessing.

(** C8, as stated, does not hold: of the two occurrences of the label
    [CITY] only the first is restored. *)
Lemma backward_restores_first_occurrence_only :
  ¬ (∀ self utterance category_labels,
       category_labels2values_in_utterance self utterance category_labels
       = restore_all category_labels utterance).
Proof.
  intros H.
  specialize (H (Examples.slu_of Examples.src_praha) ["from"; "CITY"; "to"; "CITY"]
                [("CITY", ("Brno", ["Brno"]))]).
  vm_compute in H. discriminate.
Qed.

(** C8, amended: backward substitution over an utterance replaces the first
    occurrence of each category label of the supplied record with the
    original surface-form tokens recorded for that label (not the canonical
    value) and leaves every other token, in particular any label without an
    entry in the record, as it is, whenever no recorded surface form
    contains a label of the record. *)
Theorem backward_restores_first_occurrences self utterance category_labels :
  NoDup (Py.keys category_labels) →
  (∀ cl vf, (cl, vf) ∈ category_labels →
     ∀ cl', cl' ∈ Py.keys category_labels → cl' ∉ vf.2) →
  category_labels2values_in_utterance self utterance category_labels
  = restore_first category_labels (Py.keys category_labels) utterance.
Proof.
  intros Hnd Hs. unfold category_labels2values_in_utterance.
  apply backward_fold; [done..|].
  intros k vf Hk Hget. apply (Hs k vf). by apply get_Some_elem.
Qed.
End BackwardClaims.

Lemma backward_restores_first_occurrences_witness :
  SLUPreprocessing.category_labels2values_in_utterance
    (Examples.slu_of Examples.src_praha)
    ["i"; "go"; "to"; "CITY"; "not"; "TIME"] [("CITY", ("Prague", ["Praha"]))]
  = ["i"; "go"; "to"; "Praha"; "not"; "TIME"].
Proof.
  rewrite backward_restores_first_occurrences.
  - reflexivity.
  - apply NoDup_singleton.
  - intros cl vf [= -> ->]%list_elem_of_singleton cl' ->%list_elem_of_singleton.
    by intros ?%list_elem_of_singleton.
Defined.

(** The variant for n-best lists calls [phrase2category_label] on a
    hypothesis and raises; nothing is restored. *)
Example backward_uttnblist_raises :
  SLUPreprocessing.category_labels2values_in_uttnblist
    (Examples.slu_of Examples.src_praha)
    [((), ["i"; "go"; "to"; "CITY-0"])] [("CITY-0", ("Prague", ["Praha"]))]
  = Py.Raise Py.AttributeError.
Proof. reflexivity. Qed.

(** ** The derived indices *)

Section IndexFacts.
Import CategoryLabelDatabase.

(** What the property [form_val_upname] computes from the records. *)
Local Abbreviation upnames l :=
  ((λ '(form, val, name), (form, val, Py.upper name)) <$> l).

(** What the property [form_upnames_vals] computes from the records. *)
Local Abbreviation grouped l :=
  (Py.sort_desc (λ item : Utterance.phrase * upnames_vals_t, length item.1)
     (group (upnames l))).

(** The caches of a database object are empty or hold what the properties
    compute from the current records. *)
Lemma reachable_caches self :
  reachable self →
  (∀ c, _form_val_upname self = Some c → c = upnames (synonym_value_category self)) ∧
  (∀ c, _form_upnames_vals self = Some c → c = grouped (synonym_value_category self)).
Proof.
  induction 1 as [file_name self Hinit|db_mod self _ [IH1 IH2]
                 |self _ [IH1 IH2]|self _ [IH1 IH2]].
  - unfold __init__ in Hinit. destruct file_name as [db_mod|].
    + destruct (load db_mod _) as [[[]|e] self']; [|done].
      injection Hinit as <-. done.
    + injection Hinit as <-. done.
  - unfold load. destruct (getattr db_mod "database") as [v|]; [|by split].
    unfold and_then, normalise_database, gen_synonym_value_category. simpl.
    destruct (normalise_value v) as [new_db|e]; simpl; by split.
  - unfold form_val_upname. destruct (_form_val_upname self) as [c|] eqn:E; simpl.
    + split; [|done]. intros c0 Hc0. apply IH1. congruence.
    + split; [by intros c [= <-]|done].
  - unfold form_upnames_vals. destruct (_form_upnames_vals self) as [c|] eqn:E; simpl.
    + split; [done|]. intros c0 Hc0. apply IH2. congruence.
    + unfold form_val_upname.
      destruct (_form_val_upname self) as [c|] eqn:E1; simpl.
      * split; [intros c0 Hc0; apply IH1; congruence|].
        intros c' [= <-]. by rewrite (IH1 c).
      * split; [by intros c [= <-]|by intros c [= <-]].
Qed.

Lemma reachable_form_val_upname_eq self :
  reachable self → (form_val_upname self).1 = upnames (synonym_value_category self).
Proof.
  intros [H1 _]%reachable_caches. unfold form_val_upname.
  destruct (_form_val_upname self) as [c|]; simpl; [by apply H1|done].
Qed.

Lemma reachable_form_upnames_vals_eq self :
  reachable self → (form_upnames_vals self).1 = grouped (synonym_value_category self).
Proof.
  intros Hr. pose proof (reachable_form_val_upname_eq self Hr) as Hf.
  apply reachable_caches in Hr as [_ H2]. unfold form_upnames_vals.
  destruct (_form_upnames_vals self) as [c|]; simpl; [by apply H2|].
  destruct (form_val_upname self) as [fvu self'] eqn:E. simpl in *. by subst.
Qed.

(** The surface forms of the grouped records are the surface forms of the
    records, each listed once. *)
Lemma group_keys_acc (l : list triple) (acc : Py.dict Utterance.phrase upnames_vals_t) :
  let d := fold_left
      (λ upnames_vals4form '(form, val, upname),
         Py.update form (Py.update upname (λ vals, vals ++ [val]) []) []
           upnames_vals4form) l acc in
  (∀ form, form ∈ Py.keys d ↔ form ∈ Py.keys acc ∨ form ∈ l.*1.*1) ∧
  (NoDup (Py.keys acc) → NoDup (Py.keys d)).
Proof.
  revert acc. induction l as [|[[form val] upname] l IH]; intros acc; simpl.
  - split; [|done]. intros form. rewrite elem_of_nil. tauto.
  - destruct (IH (Py.update form (Py.update upname (λ vals, vals ++ [val]) []) [] acc))
      as [IH1 IH2].
    split.
    + intros form'. rewrite IH1. unfold Py.update at 1. rewrite elem_keys_set, elem_of_cons.
      tauto.
    + intros Hnd. apply IH2. by apply NoDup_keys_set.
Qed.


End IndexFacts.

(** ** Token sequences *)

Section UtteranceFacts.
Import Utterance.
Local Open Scope nat_scope.
Implicit Types (s r a b u w : list string).

Lemma starts_with_app s b : starts_with s (s ++ b) = true.
Proof.
  induction s as [|x s IH]; simpl; [done|].
  by rewrite bool_decide_eq_true_2, IH.
Qed.

Lemma starts_with_inv s u : starts_with s u = true → u = s ++ drop (length s) u.
Proof.
  revert u. induction s as [|x s IH]; intros [|y u]; simpl; try done.
  intros [Hxy Hs]%andb_prop. apply bool_decide_eq_true in Hxy as ->.
  f_equal. by apply IH.
Qed.

Lemma starts_with_take s w : starts_with s w = starts_with s (take (length s) w).
Proof.
  revert w. induction s as [|x s IH]; intros [|y w]; simpl; try done.
  by rewrite <- IH.
Qed.

Lemma contains_cons s x u :
  contains s (x :: u) = starts_with s (x :: u) || contains s u.
Proof. done. Qed.

Lemma contains_starts_with s u : starts_with s u = true → contains s u = true.
Proof. intros H. destruct u; simpl; by rewrite H. Qed.

Lemma contains_app s a b : contains s (a ++ s ++ b) = true.
Proof.
  induction a as [|x a IH].
  - simpl. apply contains_starts_with, starts_with_app.
  - rewrite <- app_comm_cons, contains_cons, IH. apply orb_true_r.
Qed.


Lemma take_window s l b :
  l ≠ [] →
  take (length s) (l ++ s ++ b) = take (length s) (l ++ take (length s - 1) s).
Proof.
  intros Hl. assert (1 ≤ length l) by (destruct l; [done|simpl; lia]).
  rewrite !(take_app l _ (length s)). f_equal.
  rewrite take_take, take_app_le by lia. f_equal. lia.
Qed.

(** Where [replace] rewrites: at the first occurrence. *)
Lemma replace_first_occurrence s r a b :
  contains s (a ++ take (length s - 1) s) = false →
  replace s r (a ++ s ++ b) = a ++ r ++ b.
Proof.
  induction a as [|x a IH]; intros Hno.
  - simpl. destruct (s ++ b) as [|y w] eqn:E.
    + destruct s; [|done]. simpl in *. by rewrite app_nil_r.
    + simpl. rewrite <- E, starts_with_app, drop_app_length. done.
  - rewrite <- !app_comm_cons in *. rewrite contains_cons in Hno.
    apply orb_false_elim in Hno as [Hst Hno]. simpl.
    assert (Hst' : starts_with s (x :: a ++ s ++ b) = false).
    { rewrite starts_with_take. rewrite starts_with_take in Hst.
      rewrite <- Hst, !app_comm_cons. by rewrite take_window. }
    rewrite Hst'. f_equal. by apply IH.
Qed.

Lemma contains_singleton_notin v a : v ∉ a → contains [v] a = false.
Proof.
  induction a as [|x a IH]; [done|].
  intros [Hx Ha]%not_elem_of_cons. rewrite contains_cons. simpl.
  rewrite bool_decide_eq_false_2 by done. by apply IH.
Qed.

(** Relabelling the first occurrence of a token. *)
Lemma replace_token_first v r a b :
  v ∉ a → replace [v] r (a ++ v :: b) = a ++ r ++ b.
Proof.
  intros Hv. apply (replace_first_occurrence [v] r a b). simpl.
  rewrite app_nil_r. by apply contains_singleton_notin.
Qed.
End UtteranceFacts.

(** ** The scan over an utterance *)

Section ScanFacts.
Import SLUPreprocessing Utterance.
Local Open Scope nat_scope.

Lemma utterance_step_absent all_options n surface upnames_vals st :
  contains surface (utterance_cp st) = false →
  utterance_step all_options n (surface, upnames_vals) st = Py.Ok (Py.Continue st).
Proof. intros H. unfold utterance_step. by rewrite H. Qed.

Lemma for_break_skip {A S} (pre l : list A) (body : A → S → Py.res (Py.flow S)) s :
  (∀ x, x ∈ pre → body x s = Py.Ok (Py.Continue s)) →
  Py.for_break (pre ++ l) body s = Py.for_break l body s.
Proof.
  induction pre as [|x pre IH]; intros H; simpl; [done|].
  rewrite (H x) by left. apply IH. intros y Hy. apply H. by right.
Qed.

Lemma for_break_cons {A S} (x : A) l (body : A → S → Py.res (Py.flow S)) s :
  Py.for_break (x :: l) body s =
    match body x s with
    | Py.Ok (Py.Continue s') => Py.for_break l body s'
    | Py.Ok (Py.Break s') => Py.Ok s'
    | Py.Raise e => Py.Raise e
    end.
Proof. done. Qed.

Lemma scan_skip all_options n pre l st :
  forallb (λ item : phrase * CategoryLabelDatabase.upnames_vals_t,
             negb (contains item.1 (utterance_cp st))) pre = true →
  Py.for_break (pre ++ l) (utterance_step all_options n) st
  = Py.for_break l (utterance_step all_options n) st.
Proof.
  intros H. apply for_break_skip. intros [surface uv] Hin.
  apply utterance_step_absent. rewrite forallb_forall in H.
  apply list_elem_of_In, H in Hin. by apply negb_true_iff in Hin.
Qed.

(** A step at the first occurrence of a surface form rewrites it as a
    whole to the label of the chosen slot. *)
Lemma utterance_step_first n surface upnames_vals st a b slot_upper value :
  utterance_cp st = a ++ surface ++ b →
  contains surface (a ++ take (length surface - 1) surface) = false →
  choose upnames_vals = Py.Ok (slot_upper, value) →
  value ∉ a →
  utterance_step false n (surface, upnames_vals) st =
    let st' := Locals (a ++ [slot_upper] ++ b)
                 (Py.update slot_upper S 0 (category_label_counter st))
                 (Py.set slot_upper (value, surface) (valform_for_cl st))
                 (substituted_len st + length surface) in
    if n <=? substituted_len st + length surface then
      if substituted_len st + length surface =? n then Py.Ok (Py.Break st')
      else Py.Raise Py.AssertionError
    else Py.Ok (Py.Continue st').
Proof.
  intros Hu Hfirst Hch Hv. unfold utterance_step.
  rewrite Hu, contains_app, Hch. simpl.
  unfold phrase2category_label.
  rewrite replace_first_occurrence by done.
  change (a ++ [value] ++ b) with (a ++ value :: b).
  by rewrite replace_token_first.
Qed.
End ScanFacts.

Section LongestMatchClaims.
Import SLUPreprocessing Utterance.
Local Open Scope nat_scope.

End LongestMatchClaims.

(** ** The count of substituted words *)

Section CountClaims.
Import SLUPreprocessing.

(** C6, evaluated on the code: the database has the three-word surface
    "mesto brno stred" for slot [city] and the surface "CITY centrum" for
    slot [stop]; in "mesto brno stred centrum" the first is rewritten to the
    label [CITY] (3 of 4 words substituted), the second then matches the
    label and the next word, the count becomes 5 > 4 and the assertion
    [substituted_len == utt_len] fails. *)
Theorem substituted_count_exceeds_total :
  let self := Examples.slu_of Examples.src_cascade in
  form_upnames_vals self =
    [(["mesto"; "brno"; "stred"], [("CITY", ["Brno"])]);
     (["CITY"; "centrum"], [("STOP", ["Centrum"])])] ∧
  scan_utterance false [(["mesto"; "brno"; "stred"], [("CITY", ["Brno"])])]
    ["mesto"; "brno"; "stred"; "centrum"]
  = Py.Ok (Locals ["CITY"; "centrum"] [("CITY", 1)]
             [("CITY", ("Brno", ["mesto"; "brno"; "stred"]))] 3) ∧
  values2category_labels_in_utterance self ["mesto"; "brno"; "stred"; "centrum"] false
  = Py.Raise Py.AssertionError.
Proof. by vm_compute. Qed.
End CountClaims.

(** ** Undoing a forward pass *)

Section RestoreFacts.
Import SLUPreprocessing Utterance.
Local Open Scope nat_scope.
Implicit Types (rec : record) (s r a b u : list string) (K : list string).

(** A phrase that occurs is rewritten where it occurs first. *)
Lemma replace_decompose s u :
  contains s u = true →
  ∃ a b, u = a ++ s ++ b ∧ (∀ r, replace s r u = a ++ r ++ b) ∧
         (∀ v, s = [v] → v ∉ a).
Proof.
  induction u as [|x u IH]; intros Hc.
  - destruct s; [|done]. exists [], []. split_and!; [done|done|by intros].
  - destruct (starts_with s (x :: u)) eqn:Hst.
    + exists [], (drop (length s) (x :: u)). split_and!.
      * by apply starts_with_inv.
      * intros r. simpl replace. by rewrite Hst.
      * intros v _. apply not_elem_of_nil.
    + rewrite contains_cons, Hst in Hc. simpl in Hc.
      destruct (IH Hc) as (a & b & Hu & Hr & Hv). exists (x :: a), b. split_and!.
      * by rewrite Hu.
      * intros r. simpl replace. rewrite Hst. by rewrite Hr.
      * intros v ->. apply not_elem_of_cons. split; [|by apply Hv].
        intros ->. simpl in Hst. by rewrite bool_decide_eq_true_2 in Hst.
Qed.

Lemma restore_all_app rec a b :
  restore_all rec (a ++ b) = restore_all rec a ++ restore_all rec b.
Proof. unfold restore_all. apply bind_app. Qed.

Lemma restore_all_cons rec tok u :
  restore_all rec (tok :: u) =
    match Py.get tok rec with Some valform => valform.2 | None => [tok] end
    ++ restore_all rec u.
Proof. done. Qed.

Lemma restore_all_no_key rec u :
  (∀ t, t ∈ u → t ∉ Py.keys rec) → restore_all rec u = u.
Proof.
  induction u as [|tok u IH]; intros H; [done|].
  rewrite restore_all_cons, IH by (intros t Ht; apply H; by right).
  assert (Hn : Py.get tok rec = None) by (apply get_None, H; left).
  by rewrite Hn.
Qed.

Lemma restore_all_set rec label vf u :
  label ∉ u → restore_all (Py.set label vf rec) u = restore_all rec u.
Proof.
  induction u as [|tok u IH]; [done|]. intros [Hne Hu]%not_elem_of_cons.
  rewrite !restore_all_cons, IH, get_set by done. by rewrite decide_False by done.
Qed.

(** When no label stands twice in the utterance, the restoration of the
    first occurrences is the restoration of all occurrences. *)
Lemma restore_first_all rec K u :
  (∀ k, k ∈ u → k ∈ Py.keys rec → k ∈ K) →
  (∀ k, k ∈ Py.keys rec → length (filter (λ t, t = k) u) ≤ 1) →
  restore_first rec K u = restore_all rec u.
Proof.
  revert K. induction u as [|tok u IH]; intros K HK Honce; [done|].
  cbn [restore_first]. rewrite restore_all_cons.
  assert (Hu : ∀ k, k ∈ Py.keys rec → length (filter (λ t, t = k) u) ≤ 1).
  { intros k Hk. specialize (Honce k Hk). rewrite filter_cons in Honce.
    destruct (decide (tok = k)); simpl in Honce; lia. }
  destruct (decide (tok ∈ K)) as [Hin|Hnin].
  - rewrite bool_decide_eq_true_2 by done.
    destruct (Py.get tok rec) as [vf|] eqn:Hget.
    + f_equal. apply IH; [|done]. intros k Hku Hk. apply list_elem_of_filter.
      split; [|apply HK; [by right|done]].
      intros ->. specialize (Honce tok Hk). rewrite filter_cons_True in Honce by done.
      simpl in Honce. assert (Hz : length (filter (λ t, t = tok) u) = 0) by lia.
      apply length_zero_iff_nil in Hz.
      assert (Hf : tok ∈ filter (λ t, t = tok) u) by (by apply list_elem_of_filter).
      rewrite Hz in Hf. by apply elem_of_nil in Hf.
    + f_equal. apply IH; [|done]. intros k Hk. apply HK. by right.
  - rewrite bool_decide_eq_false_2 by done.
    assert (Hn : Py.get tok rec = None).
    { apply get_None. intros Hk. apply Hnin, HK; [left|done]. }
    rewrite Hn. f_equal. apply IH; [|done]. intros k Hk. apply HK. by right.
Qed.

Lemma labels_elem index item slot value :
  item ∈ index → chosen item = Some (slot, value) → slot ∈ labels index.
Proof.
  intros Hin Hch. unfold labels. apply list_elem_of_omap. exists item.
  split; [done|]. by rewrite Hch.
Qed.

Lemma labels_app index1 index2 : labels (index1 ++ index2) = labels index1 ++ labels index2.
Proof. unfold labels. apply omap_app. Qed.

Lemma occurring_app index1 index2 u :
  occurring (index1 ++ index2) u = occurring index1 u ++ occurring index2 u.
Proof. unfold occurring. apply filter_app. Qed.

Lemma occurring_sub index u item : item ∈ occurring index u → item ∈ index.
Proof. unfold occurring. by intros [_ ?]%list_elem_of_filter. Qed.

Lemma labels_sub index index' :
  (∀ item, item ∈ index → item ∈ index') → ∀ l, l ∈ labels index → l ∈ labels index'.
Proof.
  intros Hsub l (item & Hin & Hl)%list_elem_of_omap.
  apply list_elem_of_omap. exists item. split; [by apply Hsub|done].
Qed.
End RestoreFacts.

Section RoundTripFacts.
Import SLUPreprocessing Utterance.
Local Open Scope nat_scope.

(** The state of a scan of the utterance [u0] after the entries [pre] of
    the index: restoring every label gives [u0] back; each label of the
    record stands exactly once in the utterance; a token is a label of the
    record or a token of [u0]; the labels are those of entries of [pre]
    that occur in [u0]; and the lengths add up. *)
Local Abbreviation inv u0 pre st :=
  (restore_all (valform_for_cl st) (utterance_cp st) = u0 ∧
   NoDup (Py.keys (valform_for_cl st)) ∧
   (∀ k, k ∈ Py.keys (valform_for_cl st) →
         length (filter (λ t, t = k) (utterance_cp st)) = 1) ∧
   (∀ t, t ∈ utterance_cp st → t ∈ Py.keys (valform_for_cl st) ∨ t ∈ u0) ∧
   (∀ k, k ∈ Py.keys (valform_for_cl st) → k ∈ labels (occurring pre u0)) ∧
   length (utterance_cp st) + substituted_len st
   = length u0 + length (valform_for_cl st)).

Lemma inv_mono (u0 : list string) pre pre' st :
  (∀ item, item ∈ pre → item ∈ pre') → inv u0 pre st → inv u0 pre' st.
Proof.
  intros Hsub (Ha & Hb & Hc & Hh & He & Hf). split_and!; try done.
  intros k Hk. apply (labels_sub (occurring pre u0)); [|by apply He].
  unfold occurring. intros item [? ?]%list_elem_of_filter.
  apply list_elem_of_filter. split; [done|by apply Hsub].
Qed.

Lemma length_keys_le (rec : record) (u : list string) :
  NoDup (Py.keys rec) →
  (∀ k, k ∈ Py.keys rec → length (filter (λ t, t = k) u) = 1) →
  length rec ≤ length u.
Proof.
  intros Hnd Hin. rewrite <- (length_fmap fst rec).
  apply submseteq_length, NoDup_submseteq; [done|].
  intros k Hk. specialize (Hin k Hk).
  destruct (filter (λ t, t = k) u) as [|t l] eqn:E; [done|].
  assert (Ht : t ∈ filter (λ t, t = k) u) by (rewrite E; left).
  apply list_elem_of_filter in Ht as [-> Ht]. done.
Qed.

Lemma filter_eq_notin (k : string) (u : list string) :
  k ∉ u → filter (λ t, t = k) u = [].
Proof.
  induction u as [|x u IH]; [done|]. intros [Hx Hu]%not_elem_of_cons.
  rewrite filter_cons_False by (by intros ->). by apply IH.
Qed.

Lemma length_set_new {V} (d : Py.dict string V) k v :
  k ∉ Py.keys d → length (Py.set k v d) = S (length d).
Proof.
  intros Hk. rewrite <- !(length_fmap fst). fold (Py.keys (Py.set k v d)). fold (Py.keys d).
  rewrite keys_set. unfold Py.mem. apply get_None in Hk. rewrite Hk.
  rewrite length_app. simpl. lia.
Qed.

(** One iteration of the scan keeps the invariant and does not fail. *)
Lemma utterance_step_inv u0 index pre item rest st :
  reversible index u0 → index = pre ++ item :: rest → inv u0 pre st →
  ∃ fl, utterance_step false (length u0) item st = Py.Ok fl ∧
        inv u0 (pre ++ [item]) (Py.flow_state fl).
Proof.
  intros (H0 & H1 & H2 & H3) Hidx Hinv.
  destruct item as [s uv]. unfold utterance_step.
  destruct (contains s (utterance_cp st)) eqn:Hc; cycle 1.
  { eexists. split; [done|]. simpl. eapply inv_mono; [|exact Hinv].
    intros item Hin. apply elem_of_app. by left. }
  destruct Hinv as (Ha & Hb & Hc1 & Hh & He & Hf).
  destruct st as [cur counter rec sl]. simpl in *.
  assert (Hitem : (s, uv) ∈ index).
  { rewrite Hidx. apply elem_of_app. right. left. }
  rewrite Forall_forall in H0. rewrite Forall_forall in H1.
  rewrite Forall_forall in H3.
  destruct (H0 _ Hitem) as [[L v] Hch].
  assert (Hchoose : choose uv = Py.Ok (L, v)).
  { unfold chosen in Hch. simpl in Hch. by destruct (choose uv); simplify_eq. }
  rewrite Hchoose. simpl.
  assert (HL : L ∈ labels index) by (by eapply labels_elem).
  destruct (H1 _ HL) as [HLu HLs]. rewrite Forall_forall in HLs.
  assert (Hkeys : ∀ k, k ∈ Py.keys rec → k ∈ labels index).
  { intros k Hk. apply (labels_sub (occurring pre u0)); [|by apply He].
    intros it Hit%occurring_sub. rewrite Hidx. apply elem_of_app. by left. }
  assert (Hs : ∀ t, t ∈ s → t ∉ Py.keys rec).
  { intros t Ht Hk. apply Hkeys in Hk. destruct (H1 _ Hk) as [_ Hk'].
    rewrite Forall_forall in Hk'. by apply (Hk' _ Hitem). }
  destruct (replace_decompose s cur Hc) as (a & b & Hcur & Hrep & Hsingle).
  assert (Hu0 : u0 = restore_all rec a ++ s ++ restore_all rec b).
  { rewrite <- Ha, Hcur, !restore_all_app. by rewrite (restore_all_no_key rec s). }
  assert (Hocc : (s, uv) ∈ occurring index u0).
  { unfold occurring. apply list_elem_of_filter. split; [|done].
    simpl. rewrite Hu0, contains_app. done. }
  assert (HLpre : L ∉ labels (occurring pre u0)).
  { rewrite Hidx, occurring_app, labels_app in H2.
    apply NoDup_app in H2 as (_ & Hdisj & _). intros HLin. apply (Hdisj L HLin).
    apply (labels_elem _ (s, uv) L v); [|done].
    unfold occurring. apply list_elem_of_filter. split; [|left].
    apply list_elem_of_filter in Hocc as [? _]. done. }
  assert (HLrec : L ∉ Py.keys rec) by (intros Hk; by apply HLpre, He).
  assert (HLcur : L ∉ cur).
  { intros [Hk|Hu]%Hh; done. }
  assert (HLa : (L ∉ a) ∧ L ∉ b).
  { rewrite Hcur in HLcur. rewrite !not_elem_of_app in HLcur. tauto. }
  destruct HLa as [HLa HLb].
  assert (Hva : v ∉ a).
  { destruct (H3 _ Hocc L v Hch) as [Hsv|[Hvu Hvl]]; [by apply Hsingle|].
    intros Hin. assert (Hvcur : v ∈ cur).
    { rewrite Hcur. apply elem_of_app. by left. }
    apply Hh in Hvcur as [Hk|Hu]; [by apply Hvl, Hkeys|done]. }
  unfold phrase2category_label. rewrite Hrep.
  change (a ++ [v] ++ b) with (a ++ v :: b). rewrite replace_token_first by done.
  set (st' := Locals (a ++ [L] ++ b) (Py.update L S 0 counter)
                (Py.set L (v, s) rec) (sl + length s)).
  assert (Hinv' : inv u0 (pre ++ [(s, uv)]) st').
  { subst st'. simpl. split_and!.
    - rewrite !restore_all_app, !restore_all_set by done.
      rewrite restore_all_cons, get_set, decide_True by done. simpl.
      by rewrite restore_all_set.
    - by apply NoDup_keys_set.
    - intros k [->|Hk]%elem_keys_set.
      + rewrite filter_app, filter_cons_True by done.
        rewrite (filter_eq_notin L a), (filter_eq_notin L b) by done. done.
      + assert (k ≠ L) by (by intros ->).
        specialize (Hc1 k Hk). rewrite Hcur, !filter_app in Hc1.
        rewrite (filter_eq_notin k s) in Hc1 by (intros Hks; by apply (Hs k)).
        rewrite filter_app, filter_cons_False by done. simpl in *. done.
    - intros t. rewrite elem_of_app, elem_of_cons, elem_keys_set.
      intros [Ht|[->|Ht]]; [|by left; left|].
      + destruct (Hh t) as [?|?]; [rewrite Hcur, !elem_of_app; tauto|tauto|tauto].
      + destruct (Hh t) as [?|?]; [rewrite Hcur, !elem_of_app; tauto|tauto|tauto].
    - intros k [->|Hk]%elem_keys_set.
      + apply (labels_elem _ (s, uv) L v); [|done].
        unfold occurring. apply list_elem_of_filter. split.
        * apply list_elem_of_filter in Hocc as [? _]. done.
        * apply elem_of_app. right. left.
      + apply (labels_sub (occurring pre u0)); [|by apply He].
        unfold occurring. intros it [? ?]%list_elem_of_filter.
        apply list_elem_of_filter. split; [done|]. apply elem_of_app. by left.
    - rewrite length_set_new by done. rewrite Hcur in Hf.
      rewrite !length_app in *. simpl in *. lia. }
  assert (Hle : sl + length s ≤ length u0).
  { destruct Hinv' as (_ & Hb' & Hc' & _ & _ & Hf'). subst st'. simpl in *.
    pose proof (length_keys_le _ _ Hb' Hc'). lia. }
  destruct (length u0 <=? sl + length s) eqn:Hcmp.
  - apply Nat.leb_le in Hcmp.
    replace (sl + length s =? length u0) with true by (symmetry; apply Nat.eqb_eq; lia).
    by exists (Py.Break st').
  - by exists (Py.Continue st').
Qed.

(** The scan of a reversible utterance returns, in a state that satisfies
    the invariant. *)
Lemma scan_reversible u0 index pre rest st :
  reversible index u0 → index = pre ++ rest → inv u0 pre st →
  ∃ st', Py.for_break rest (utterance_step false (length u0)) st = Py.Ok st' ∧
         inv u0 index st'.
Proof.
  intros Hrev. revert pre st. induction rest as [|item rest IH]; intros pre st Hidx Hinv.
  - exists st. split; [done|]. by rewrite Hidx, app_nil_r.
  - destruct (utterance_step_inv u0 index pre item rest st Hrev Hidx Hinv)
      as (fl & Hstep & Hinv').
    rewrite for_break_cons, Hstep. destruct fl as [st1|st1]; simpl in *.
    + apply (IH (pre ++ [item])); [|done]. by rewrite <- app_assoc.
    + exists st1. split; [done|]. eapply inv_mono; [|exact Hinv'].
      intros it Hit. rewrite Hidx. rewrite elem_of_app in Hit |- *.
      destruct Hit as [?|Hit]; [by left|].
      apply list_elem_of_singleton in Hit as ->. right. left.
Qed.
End RoundTripFacts.

Section RoundTripClaims.
Import SLUPreprocessing Utterance.
Local Open Scope nat_scope.

(** C2, evaluated on the code: in "from Praha to Brno" the surface forms
    "Praha" and "Brno" do not overlap; the pass over an utterance labels
    both with the bare slot name [CITY], without the instance index that
    its docstring promises and its counter still counts, so the record
    keeps the second only, and the backward pass yields "from Brno to
    CITY", not the original utterance. *)
Lemma same_slot_twice_is_not_restored :
  ¬ (∀ self utterance utterance' rec,
       CategoryLabelDatabase.reachable (cldb self) →
       no_overlap (form_upnames_vals self) utterance = true →
       values2category_labels_in_utterance self utterance false
         = Py.Ok (utterance', rec) →
       category_labels2values_in_utterance self utterance' rec = utterance).
Proof.
  intros H.
  specialize (H (Examples.slu_of Examples.src_cities) ["from"; "Praha"; "to"; "Brno"]
                ["from"; "CITY"; "to"; "CITY"] [("CITY", ("Brno", ["Brno"]))]).
  assert (Hr : CategoryLabelDatabase.reachable
                 (cldb (Examples.slu_of Examples.src_cities))).
  { apply (CategoryLabelDatabase.reachable_init (Some Examples.src_cities)). reflexivity. }
  specialize (H Hr eq_refl eq_refl). vm_compute in H. discriminate.
Qed.

(** X21: for every utterance and index that are [reversible] — no
    category label of the index occurs in the utterance or in a surface
    form, the surface forms that occur in the utterance get pairwise
    different category labels, and the value chosen for a surface form
    that occurs in the utterance is that form itself or occurs neither in
    the utterance nor among the labels —
    [values2category_labels_in_utterance] returns, and backward-substituting
    its result with the returned record reproduces the original token
    sequence exactly, whether or not surface forms overlap. *)
Theorem round_trip self utterance :
  reversible (form_upnames_vals self) utterance →
  ∃ utterance' rec,
    values2category_labels_in_utterance self utterance false
      = Py.Ok (utterance', rec) ∧
    category_labels2values_in_utterance self utterance' rec = utterance.
Proof.
  intros Hrev.
  destruct (scan_reversible utterance (form_upnames_vals self) []
              (form_upnames_vals self) (Locals (from_utterance utterance) [] [] 0))
    as (st & Hscan & Ha & Hb & Hc & Hh & He & Hf); [done..| |].
  { simpl. split_and!; try done;
      first [ by apply restore_all_no_key; intros t _; apply not_elem_of_nil
            | by constructor
            | by intros k Hk; apply elem_of_nil in Hk
            | by intros t Ht; right ]. }
  exists (utterance_cp st), (valform_for_cl st). split.
  { unfold values2category_labels_in_utterance, scan_utterance, len.
    by rewrite Hscan. }
  unfold category_labels2values_in_utterance.
  rewrite backward_fold; [|done..|].
  - rewrite restore_first_all; [done|done|]. intros k Hk. by rewrite Hc.
  - intros k vf Hk Hget%get_Some_elem k' Hk'.
    assert (Hs : scan_utterance false (form_upnames_vals self) utterance = Py.Ok st)
      by exact Hscan.
    destruct (scan_utterance_labels _ _ _ Hs k vf Hget) as (item & Hitem & _ & ->).
    destruct Hrev as (_ & H1 & _ & _). rewrite Forall_forall in H1.
    assert (Hl : k' ∈ labels (form_upnames_vals self)).
    { apply (labels_sub (occurring (form_upnames_vals self) utterance));
        [apply occurring_sub|by apply He]. }
    destruct (H1 _ Hl) as [_ Hk'']. rewrite Forall_forall in Hk''. by apply Hk''.
Qed.
End RoundTripClaims.

Lemma round_trip_witness :
  (∃ utterance' rec,
     SLUPreprocessing.values2category_labels_in_utterance
       (Examples.slu_of Examples.src_praha) ["i"; "go"; "to"; "Praha"] false
       = Py.Ok (utterance', rec) ∧
     SLUPreprocessing.category_labels2values_in_utterance
       (Examples.slu_of Examples.src_praha) utterance' rec
       = ["i"; "go"; "to"; "Praha"]) ∧
  (∃ utterance' rec,
     SLUPreprocessing.values2category_labels_in_utterance
       (Examples.slu_of Examples.src_praha) ["i"; "go"; "to"; "Prague"] false
       = Py.Ok (utterance', rec) ∧
     SLUPreprocessing.category_labels2values_in_utterance
       (Examples.slu_of Examples.src_praha) utterance' rec
       = ["i"; "go"; "to"; "Prague"]).
Proof.
  split.
  - apply round_trip. unfold SLUPreprocessing.reversible.
    change (SLUPreprocessing.form_upnames_vals (Examples.slu_of Examples.src_praha))
      with [(["Prague"], [("CITY", ["Prague"])]); (["Praha"], [("CITY", ["Prague"])])].
    change (SLUPreprocessing.occurring _ ["i"; "go"; "to"; "Praha"])
      with [(["Praha"], [("CITY", ["Prague"])])].
    split_and!.
    + repeat constructor; by eexists.
    + compute_done.
    + compute_done.
    + constructor; [|constructor].
      intros slot value [= <- <-]. right. split; compute_done.
  - apply round_trip. unfold SLUPreprocessing.reversible.
    change (SLUPreprocessing.form_upnames_vals (Examples.slu_of Examples.src_praha))
      with [(["Prague"], [("CITY", ["Prague"])]); (["Praha"], [("CITY", ["Prague"])])].
    change (SLUPreprocessing.occurring _ ["i"; "go"; "to"; "Prague"])
      with [(["Prague"], [("CITY", ["Prague"])])].
    split_and!.
    + repeat constructor; by eexists.
    + compute_done.
    + compute_done.
    + constructor; [|constructor].
      intros slot value [= <- <-]. left. reflexivity.
Defined.

(** The example of the specification: "I go to Praha" becomes "I go to
    CITY" with the record [{CITY: (Prague, Praha)}], and the backward pass
    gives the original tokens back. *)
Example round_trip_praha :
  let self := Examples.slu_of Examples.src_praha in
  SLUPreprocessing.values2category_labels_in_utterance self ["I"; "go"; "to"; "Praha"] false
    = Py.Ok (["I"; "go"; "to"; "CITY"], [("CITY", ("Prague", ["Praha"]))]) ∧
  SLUPreprocessing.category_labels2values_in_utterance self ["I"; "go"; "to"; "CITY"]
    [("CITY", ("Prague", ["Praha"]))] = ["I"; "go"; "to"; "Praha"].
Proof. by vm_compute. Qed.

(** ** Objects that a call keeps *)

Section FrameFacts.
Context {P : Type}.
Implicit Types (h : Obj.store P) (r : nat).
Local Open Scope nat_scope.

Lemma keeps_ret h {A} (a : A) (Q : A → Prop) : Q a → Obj.keeps h (Obj.ret a) Q.
Proof. intros Hq ext. exists ext. split; [done|]. by intros a' [= <-]. Qed.

Lemma keeps_raise h {A} e (Q : A → Prop) : Obj.keeps h (Obj.raise e) Q.
Proof. intros ext. exists ext. split; [done|]. by intros a' [=]. Qed.

Lemma keeps_bind h {A B} (m : Obj.M P A) (k : A → Obj.M P B) Q R :
  Obj.keeps h m Q → (∀ a, Q a → Obj.keeps h (k a) R) → Obj.keeps h (m ≫= k) R.
Proof.
  intros Hm Hk ext. destruct (Hm ext) as (ext1 & Hs & Hq).
  unfold mbind, Obj.M_bind, Obj.bind.
  destruct (m (h ++ ext)) as [[a|e] h1] eqn:E; simpl in *; subst h1.
  - apply (Hk a (Hq a eq_refl) ext1).
  - exists ext1. split; [done|]. by intros a [=].
Qed.

Lemma keeps_weaken h {A} (m : Obj.M P A) (Q R : A → Prop) :
  Obj.keeps h m Q → (∀ a, Q a → R a) → Obj.keeps h m R.
Proof.
  intros Hm HQR ext. destruct (Hm ext) as (ext1 & Hs & Hq).
  exists ext1. split; [done|]. intros a Ha. by apply HQR, Hq.
Qed.

Lemma keeps_alloc h o : Obj.keeps h (Obj.alloc o) (Obj.created h).
Proof.
  intros ext. exists (ext ++ [o]). unfold Obj.alloc. simpl. split.
  - by rewrite app_assoc.
  - intros a [= <-]. unfold Obj.created. rewrite length_app. lia.
Qed.

Lemma keeps_get h r : Obj.keeps h (Obj.get r) (λ _, True).
Proof.
  intros ext. exists ext. unfold Obj.get.
  case_match; simpl; by split.
Qed.

Lemma keeps_put h r o : Obj.created h r → Obj.keeps h (Obj.put r o) (λ _, True).
Proof.
  intros Hr ext. exists (<[r - length h := o]> ext). unfold Obj.put. simpl.
  split; [|done]. by apply insert_app_r_alt.
Qed.

Lemma keeps_for_each h {A S} (l : list A) (body : A → S → Obj.M P S) (I : S → Prop) s :
  I s → (∀ x s, I s → Obj.keeps h (body x s) I) →
  Obj.keeps h (Obj.for_each l body s) I.
Proof.
  intros Hs Hbody. revert s Hs. induction l as [|x l IH]; intros s Hs; simpl.
  - by apply keeps_ret.
  - eapply keeps_bind; [by apply Hbody|]. intros s' Hs'. by apply IH.
Qed.

Lemma keeps_for_break h {A S} (l : list A) (body : A → S → Obj.M P (Py.flow S))
    (I : S → Prop) s :
  I s → (∀ x s, I s → Obj.keeps h (body x s) (λ f, I (Py.flow_state f))) →
  Obj.keeps h (Obj.for_break l body s) I.
Proof.
  intros Hs Hbody. revert s Hs. induction l as [|x l IH]; intros s Hs; simpl.
  - by apply keeps_ret.
  - eapply keeps_bind; [by apply Hbody|]. intros [s'|s'] Hs'; simpl in *.
    + by apply IH.
    + by apply keeps_ret.
Qed.

Lemma keeps_words_of h r : Obj.keeps h (Obj.words_of r) (λ _, True).
Proof.
  unfold Obj.words_of. eapply keeps_bind; [apply keeps_get|].
  intros [words|hyps] _; [by apply keeps_ret|apply keeps_raise].
Qed.

Lemma keeps_hyps_of h r : Obj.keeps h (Obj.hyps_of r) (λ _, True).
Proof.
  unfold Obj.hyps_of. eapply keeps_bind; [apply keeps_get|].
  intros [words|hyps] _; [apply keeps_raise|by apply keeps_ret].
Qed.

Lemma keeps_replace h r orig replacement :
  Obj.keeps h (Obj.replace r orig replacement) (Obj.created h).
Proof.
  unfold Obj.replace. eapply keeps_bind; [apply keeps_words_of|].
  intros words _. apply keeps_alloc.
Qed.

Lemma keeps_phrase2category_label h r p catlab :
  Obj.keeps h (Obj.phrase2category_label r p catlab) (Obj.created h).
Proof.
  unfold Obj.phrase2category_label. eapply keeps_bind; [apply keeps_words_of|].
  intros words _. apply keeps_alloc.
Qed.

Lemma keeps_contains h p r : Obj.keeps h (Obj.contains p r) (λ _, True).
Proof.
  unfold Obj.contains. eapply keeps_bind; [apply keeps_words_of|].
  intros words _. by apply keeps_ret.
Qed.

Lemma keeps_len h r : Obj.keeps h (Obj.len r) (λ _, True).
Proof.
  unfold Obj.len. eapply keeps_bind; [apply keeps_words_of|].
  intros words _. by apply keeps_ret.
Qed.

Lemma keeps_from_utterance h r : Obj.keeps h (Obj.from_utterance r) (Obj.created h).
Proof.
  unfold Obj.from_utterance. eapply keeps_bind; [apply keeps_words_of|].
  intros words _. apply keeps_alloc.
Qed.

Lemma keeps_deepcopy h r : Obj.keeps h (Obj.deepcopy r) (Obj.created h).
Proof.
  unfold Obj.deepcopy. eapply keeps_bind; [apply keeps_get|].
  intros [words|hyps] _; [apply keeps_alloc|].
  eapply keeps_bind; [|intros hyps' _; apply keeps_alloc].
  apply (keeps_for_each h hyps _ (λ _, True)); [done|].
  intros hyp hyps' _. eapply keeps_bind; [apply keeps_words_of|].
  intros words _. eapply keeps_bind; [apply keeps_alloc|].
  intros utt _. by apply keeps_ret.
Qed.
End FrameFacts.

Section EngineFrameFacts.
Context {P : Type}.
Implicit Types (h : Obj.store P) (r : nat).
Local Open Scope nat_scope.

Lemma keeps_utterance_step h all_options n item st :
  Obj.keeps h (Obj.utterance_step (P := P) all_options n item st) (λ _, True).
Proof.
  destruct item as [surface upnames_vals]. unfold Obj.utterance_step.
  eapply keeps_bind; [apply keeps_contains|]. intros [|] _; [|by apply keeps_ret].
  apply (keeps_bind h _ _ (λ _, True)).
  - destruct all_options; [apply keeps_raise|].
    destruct (SLUPreprocessing.choose upnames_vals) as [[slot_upper value]|e];
      [|apply keeps_raise].
    eapply keeps_bind; [apply keeps_replace|]. intros r1 _.
    eapply keeps_bind; [apply keeps_phrase2category_label|]. intros r2 _.
    by apply keeps_ret.
  - intros st' _. repeat case_match; (by apply keeps_ret) || apply keeps_raise.
Qed.

Lemma keeps_values2category_labels_in_utterance h self utterance all_options :
  Obj.keeps h (Obj.values2category_labels_in_utterance (P := P) self utterance all_options)
    (λ _, True).
Proof.
  unfold Obj.values2category_labels_in_utterance.
  eapply keeps_bind; [apply keeps_from_utterance|]. intros copy _.
  eapply keeps_bind; [apply keeps_len|]. intros utt_len _.
  apply (keeps_bind h _ _ (λ _, True)).
  - apply keeps_for_break; [done|]. intros item st _. apply keeps_utterance_step.
  - intros st _. destruct all_options; [apply keeps_raise|by apply keeps_ret].
Qed.

Lemma keeps_category_labels2values_in_utterance h self utterance category_labels :
  Obj.keeps h (Obj.category_labels2values_in_utterance (P := P) self utterance category_labels)
    (λ _, True).
Proof.
  unfold Obj.category_labels2values_in_utterance.
  eapply keeps_bind; [apply keeps_deepcopy|]. intros copy _.
  apply keeps_for_each; [done|]. intros cl r _.
  destruct (Py.get cl category_labels) as [valform|]; [|by apply keeps_ret].
  eapply keeps_weaken; [apply keeps_phrase2category_label|done].
Qed.

Lemma keeps_hyps_with_surface h surface nblist_cp :
  Obj.keeps h (Obj.hyps_with_surface (P := P) surface nblist_cp) (λ _, True).
Proof.
  unfold Obj.hyps_with_surface. eapply keeps_bind; [apply keeps_hyps_of|].
  intros hyps _. apply keeps_for_each; [done|]. intros ih idxs _.
  eapply keeps_bind; [apply keeps_contains|]. intros present _. by apply keeps_ret.
Qed.

Lemma keeps_relabel_hyp h nblist_cp surface value category_label hyp_idx :
  Obj.created h nblist_cp →
  Obj.keeps h (Obj.relabel_hyp (P := P) nblist_cp surface value category_label hyp_idx)
    (λ _, True).
Proof.
  intros Hcp. unfold Obj.relabel_hyp. eapply keeps_bind; [apply keeps_hyps_of|].
  intros hyps _. destruct (hyps !! hyp_idx) as [[prob utt]|]; [|apply keeps_raise].
  eapply keeps_bind; [apply keeps_replace|]. intros r1 _.
  eapply keeps_bind; [apply keeps_phrase2category_label|]. intros r2 _.
  by apply keeps_put.
Qed.

Lemma keeps_uttnblist_step h nblist_cp tot_len item st :
  Obj.created h nblist_cp →
  Obj.keeps h (Obj.uttnblist_step (P := P) nblist_cp tot_len item st) (λ _, True).
Proof.
  intros Hcp. destruct item as [surface upnames_vals]. unfold Obj.uttnblist_step.
  eapply keeps_bind; [apply keeps_hyps_with_surface|].
  intros [|i hyps] _; [by apply keeps_ret|].
  destruct (SLUPreprocessing.choose upnames_vals) as [[slot_upper value]|e];
    [|apply keeps_raise].
  apply (keeps_bind h _ _ (λ _, True)).
  - apply keeps_for_each; [done|]. intros hyp_idx [] _. by apply keeps_relabel_hyp.
  - intros _ _. repeat case_match; (by apply keeps_ret) || apply keeps_raise.
Qed.

Lemma keeps_values2category_labels_in_uttnblist h self utt_nblist :
  Obj.keeps h (Obj.values2category_labels_in_uttnblist (P := P) self utt_nblist) (λ _, True).
Proof.
  unfold Obj.values2category_labels_in_uttnblist.
  eapply keeps_bind; [apply keeps_deepcopy|]. intros nblist_cp Hcp.
  eapply keeps_bind; [apply keeps_hyps_of|]. intros hyps _.
  apply (keeps_bind h _ _ (λ _, True)).
  { apply keeps_for_each; [done|]. intros hyp n _.
    eapply keeps_bind; [apply keeps_len|]. intros l _. by apply keeps_ret. }
  intros tot_len _. apply (keeps_bind h _ _ (λ _, True)).
  - apply keeps_for_break; [done|]. intros item st _. by apply keeps_uttnblist_step.
  - intros st _. by apply keeps_ret.
Qed.

Lemma keeps_category_labels2values_in_uttnblist h self utt_nblist category_labels :
  Obj.keeps h
    (Obj.category_labels2values_in_uttnblist (P := P) self utt_nblist category_labels)
    (λ _, True).
Proof.
  unfold Obj.category_labels2values_in_uttnblist.
  eapply keeps_bind; [apply keeps_deepcopy|]. intros nblist_cp Hcp.
  eapply keeps_bind; [apply keeps_hyps_of|]. intros hyps _.
  apply (keeps_bind h _ _ (λ _, True)); [|intros _ _; by apply keeps_ret].
  apply keeps_for_each; [done|]. intros utterance [] _.
  apply keeps_for_each; [done|]. intros cl [] _. apply keeps_raise.
Qed.

(** What is kept is found where it was. *)
Lemma keeps_lookup h {A} (m : Obj.M P A) Q r o :
  Obj.keeps h m Q → h !! r = Some o → (m h).2 !! r = Some o.
Proof.
  intros Hm Hr. destruct (Hm []) as (ext & Hs & _). rewrite app_nil_r in Hs.
  rewrite Hs. by apply lookup_app_l_Some.
Qed.
End EngineFrameFacts.

(** ** Normalisation and substitution on objects *)

Section NormalisationFacts.
Context {P : Type}.
Implicit Types (h : Obj.store P) (r : nat) (words : list string).

Lemma words_of_run h r words :
  h !! r = Some (Obj.UtteranceObj words) → Obj.words_of r h = (Py.Ok words, h).
Proof.
  intros Hr. unfold Obj.words_of, mbind, Obj.M_bind, Obj.bind, Obj.get.
  by rewrite Hr.
Qed.

Lemma lower_run h r words :
  h !! r = Some (Obj.UtteranceObj words) →
  Obj.lower r h = (Py.Ok r, <[r := Obj.UtteranceObj (Utterance.lower words)]> h).
Proof.
  intros Hr. unfold Obj.lower, mbind, Obj.M_bind, Obj.bind.
  by rewrite (words_of_run h r words).
Qed.

Lemma replace_run h r words orig replacement :
  h !! r = Some (Obj.UtteranceObj words) →
  Obj.replace r orig replacement h =
    (Py.Ok (length h),
     h ++ [Obj.UtteranceObj (Utterance.replace orig replacement words)]).
Proof.
  intros Hr. unfold Obj.replace, mbind, Obj.M_bind, Obj.bind.
  by rewrite (words_of_run h r words).
Qed.

(** The rules run on new utterances, one for each rule. *)
Lemma rules_run (rules : list (list string * list string)) h r words :
  h !! r = Some (Obj.UtteranceObj words) →
  ∃ result ext,
    Obj.for_each rules (λ mapping utterance, Obj.replace utterance mapping.1 mapping.2) r h
      = (Py.Ok result, h ++ ext) ∧
    (h ++ ext) !! result =
      Some (Obj.UtteranceObj
              (fold_left (λ utterance mapping,
                            Utterance.replace mapping.1 mapping.2 utterance)
                 rules words)).
Proof.
  revert h r words. induction rules as [|mapping rules IH]; intros h r words Hr; simpl.
  - exists r, []. rewrite app_nil_r. done.
  - unfold mbind, Obj.M_bind, Obj.bind.
    rewrite (replace_run h r words) by done.
    destruct (IH (h ++ [Obj.UtteranceObj (Utterance.replace mapping.1 mapping.2 words)])
                (length h) (Utterance.replace mapping.1 mapping.2 words))
      as (result & ext & Hrun & Hres).
    { by apply list_lookup_middle. }
    exists result, ([Obj.UtteranceObj (Utterance.replace mapping.1 mapping.2 words)] ++ ext).
    rewrite app_assoc. done.
Qed.
End NormalisationFacts.

Section ObjectClaims.
Context {P : Type}.

(** C4, as stated, does not hold: [text_normalisation] lower-cases the
    object it is given; after the call the caller's utterance "I'M Here"
    reads "i'm here". *)
Lemma text_normalisation_changes_its_input :
  ¬ (∀ self (h : Obj.store unit) utterance,
       (Obj.text_normalisation self utterance h).2 !! utterance = h !! utterance).
Proof.
  intros H.
  specialize (H (Examples.slu_of Examples.src_praha)
                [Obj.UtteranceObj ["I'M"; "Here"]] 0).
  vm_compute in H. discriminate.
Qed.

(** C4, amended: every forward and backward substitution over an utterance
    or an n-best list leaves every object that exists before the call, its
    input among them, as it is, all rewriting being performed on objects
    created during the call; the normalisation [text_normalisation]
    lower-cases the caller's utterance in place, leaves the other objects
    as they are, and returns a new utterance with the rules applied to the
    lower-cased words. *)
Theorem substitution_keeps_its_input self (h : Obj.store P) :
  (∀ utterance all_options r o, h !! r = Some o →
     (Obj.values2category_labels_in_utterance self utterance all_options h).2 !! r
     = Some o) ∧
  (∀ utt_nblist r o, h !! r = Some o →
     (Obj.values2category_labels_in_uttnblist self utt_nblist h).2 !! r = Some o) ∧
  (∀ utterance category_labels r o, h !! r = Some o →
     (Obj.category_labels2values_in_utterance self utterance category_labels h).2 !! r
     = Some o) ∧
  (∀ utt_nblist category_labels r o, h !! r = Some o →
     (Obj.category_labels2values_in_uttnblist self utt_nblist category_labels h).2 !! r
     = Some o) ∧
  (∀ utterance words, h !! utterance = Some (Obj.UtteranceObj words) →
     ∃ result ext,
       Obj.text_normalisation self utterance h =
         (Py.Ok result,
          <[utterance := Obj.UtteranceObj (Utterance.lower words)]> h ++ ext) ∧
       (<[utterance := Obj.UtteranceObj (Utterance.lower words)]> h ++ ext) !! result
       = Some (Obj.UtteranceObj (SLUPreprocessing.text_normalisation self words))).
Proof.
  split_and!.
  - intros utterance all_options r o Hr.
    eapply keeps_lookup; [apply keeps_values2category_labels_in_utterance|done].
  - intros utt_nblist r o Hr.
    eapply keeps_lookup; [apply keeps_values2category_labels_in_uttnblist|done].
  - intros utterance category_labels r o Hr.
    eapply keeps_lookup; [apply keeps_category_labels2values_in_utterance|done].
  - intros utt_nblist category_labels r o Hr.
    eapply keeps_lookup; [apply keeps_category_labels2values_in_uttnblist|done].
  - intros utterance words Hu. unfold Obj.text_normalisation, mbind, Obj.M_bind, Obj.bind.
    rewrite (lower_run h utterance words) by done.
    apply rules_run, list_lookup_insert_eq. by eapply lookup_lt_Some.
Qed.
End ObjectClaims.

(** The normalisation of "I'M Here": the caller's object is lower-cased,
    the result is a new object that reads "i am here". *)
Example text_normalisation_run :
  Obj.text_normalisation (P := unit) (Examples.slu_of Examples.src_praha) 0
    [Obj.UtteranceObj ["I'M"; "Here"]]
  = (Py.Ok 7,
     [Obj.UtteranceObj ["i'm"; "here"]; Obj.UtteranceObj ["i'm"; "here"];
      Obj.UtteranceObj ["i'm"; "here"]; Obj.UtteranceObj ["i'm"; "here"];
      Obj.UtteranceObj ["i"; "am"; "here"]; Obj.UtteranceObj ["i"; "am"; "here"];
      Obj.UtteranceObj ["i"; "am"; "here"]; Obj.UtteranceObj ["i"; "am"; "here"]]).
Proof. reflexivity. Qed.

(** ** More on the database and its indices *)

Section GroupFacts.
Import CategoryLabelDatabase.

(** The values grouped under a form and an upper-cased slot name. *)
Local Abbreviation lookup2 d form up :=
  (default ([] : list string) (Py.get up (default ([] : upnames_vals_t) (Py.get form d)))).

Local Abbreviation values_in form up l :=
  ((filter (λ t : triple, t.1.1 = form ∧ t.2 = up) l).*1.*2).

Local Abbreviation group_step :=
  (λ (upnames_vals4form : Py.dict Utterance.phrase upnames_vals_t) '(form, val, upname),
     Py.update form (Py.update upname (λ vals, vals ++ [val]) []) [] upnames_vals4form).

Lemma group_step_lookup d (form : list string) val (upname : string) form' up :
  lookup2 (Py.update form (Py.update upname (λ vals, vals ++ [val]) []) [] d) form' up
  = lookup2 d form' up ++ (if decide (form = form' ∧ upname = up) then [val] else []).
Proof.
  unfold Py.update at 1. rewrite get_set.
  destruct (decide (form' = form)) as [->|Hf]; simpl.
  - unfold Py.update. rewrite get_set.
    destruct (decide (up = upname)) as [->|Hu]; simpl.
    + by rewrite decide_True.
    + rewrite decide_False by (intros [_ ?]; done). by rewrite app_nil_r.
  - rewrite decide_False by (intros [? _]; done). by rewrite app_nil_r.
Qed.

Lemma group_lookup_acc (l : list triple) acc form up :
  lookup2 (fold_left group_step l acc) form up = lookup2 acc form up ++ values_in form up l.
Proof.
  revert acc. induction l as [|[[f v] u] l IH]; intros acc; simpl.
  - by rewrite app_nil_r.
  - rewrite IH, group_step_lookup, <- app_assoc. f_equal.
    rewrite filter_cons. simpl. by destruct (decide (f = form ∧ u = up)).
Qed.
(** A group that holds a slot, each of its slots holding a value. *)
Local Abbreviation inhabited uv :=
  (NoDup (Py.keys uv) ∧ uv ≠ [] ∧
   ∀ (up : string) (vals : list string), Py.get up uv = Some vals → vals ≠ []).

Lemma set_nonempty {K V} `{EqDecision K} (d : Py.dict K V) k v : Py.set k v d ≠ [].
Proof. destruct d as [|[k' v'] d]; simpl; [done|]. by destruct (decide (k = k')). Qed.

Lemma group_step_inhabited (d : Py.dict Utterance.phrase upnames_vals_t) form val upname :
  (∀ f uv, Py.get f d = Some uv → inhabited uv) →
  ∀ f uv,
    Py.get f (Py.update form (Py.update upname (λ vals, vals ++ [val]) []) [] d) = Some uv →
    inhabited uv.
Proof.
  intros Hd f uv. unfold Py.update at 1. rewrite get_set.
  destruct (decide (f = form)) as [->|Hf]; [|by apply Hd].
  intros [= <-].
  assert (Huv0 : ∃ uv0 : upnames_vals_t,
            Py.update upname (λ vals, vals ++ [val]) [] (default [] (Py.get form d))
            = Py.update upname (λ vals, vals ++ [val]) [] uv0 ∧ (uv0 = [] ∨ inhabited uv0)).
  { match goal with |- context [default _ ?x] => destruct x as [uv0|] eqn:E end; simpl;
      eexists; (split; [done|]); [right; by eapply Hd|by left]. }
  destruct Huv0 as (uv0 & Heq & Huv0).
  match goal with |- context [Py.update upname ?f ?x ?y] =>
    change (Py.update upname f x y)
      with (Py.update upname (λ vals, vals ++ [val]) [] (default [] (Py.get form d))) end.
  rewrite Heq. clear Heq.
  split_and!.
  - apply NoDup_keys_set. destruct Huv0 as [->|[? _]]; [constructor|done].
  - apply set_nonempty.
  - intros up vals. unfold Py.update. rewrite get_set.
    destruct (decide (up = upname)) as [->|Hu].
    + intros [= <-]. by intros [_ ?]%app_eq_nil.
    + destruct Huv0 as [->|(_ & _ & H)]; [done|]. apply H.
Qed.

Lemma group_inhabited (l : list triple) acc :
  (∀ f uv, Py.get f acc = Some uv → inhabited uv) →
  ∀ f uv, Py.get f (fold_left group_step l acc) = Some uv → inhabited uv.
Proof.
  revert acc. induction l as [|[[form val] upname] l IH]; intros acc Hacc; simpl; [done|].
  apply IH. by apply group_step_inhabited.
Qed.

Lemma values_in_upper form up (l : list triple) :
  values_in form up ((λ '(form, val, name), (form, val, Py.upper name)) <$> l)
  = Derived.values_of form up l.
Proof.
  unfold Derived.values_of. induction l as [|[[f v] n] l IH]; [done|].
  rewrite fmap_cons, !filter_cons.
  repeat case_decide; simpl in *; first [tauto|exact IH|f_equal; exact IH].
Qed.

Lemma lookup2_Some (d : Py.dict Utterance.phrase upnames_vals_t) form uv up vals :
  Py.get form d = Some uv → Py.get up uv = Some vals → lookup2 d form up = vals.
Proof. intros H1 H2. rewrite H1. simpl. by rewrite H2. Qed.

Lemma lookup2_elem (d : Py.dict Utterance.phrase upnames_vals_t) form up val :
  val ∈ lookup2 d form up →
  ∃ uv vals, Py.get form d = Some uv ∧ Py.get up uv = Some vals ∧ val ∈ vals.
Proof.
  destruct (Py.get form d) as [uv|]; simpl; [|by intros ?%elem_of_nil].
  destruct (Py.get up uv) as [vals|] eqn:E; simpl; [|by intros ?%elem_of_nil].
  intros Hval. by exists uv, vals.
Qed.

(** The grouped index of a database object is the sorted dict of the
    groups, which holds the values of the records under their form and slot
    and has no empty group. *)
Lemma index_groups self :
  reachable self →
  ∃ d : Py.dict Utterance.phrase upnames_vals_t,
    (∀ item, item ∈ (form_upnames_vals self).1 ↔ item ∈ d) ∧
    NoDup (Py.keys d) ∧
    (∀ form up,
       lookup2 d form up = Derived.values_of form up (synonym_value_category self)) ∧
    (∀ f uv, Py.get f d = Some uv → inhabited uv).
Proof.
  intros Hr. rewrite (reachable_form_upnames_vals_eq self Hr).
  set (l := (λ '(form, val, name), (form, val, Py.upper name)) <$> synonym_value_category self).
  exists (group l). split_and!.
  - intros item. apply sort_desc_elem.
  - apply (group_keys_acc l []). constructor.
  - intros form up. etrans; [apply (group_lookup_acc l [] form up)|].
    simpl. apply values_in_upper.
  - apply group_inhabited. done.
Qed.

(** The slot and the value that a scan takes for an entry of the index of
    a database object: there always are some, and the value is that of the
    first record with the surface form of the entry and that slot. *)
Lemma index_choose self form uv :
  reachable self → (form, uv) ∈ (form_upnames_vals self).1 →
  ∃ slot value values,
    SLUPreprocessing.choose uv = Py.Ok (slot, value) ∧
    Derived.values_of form slot (synonym_value_category self) = value :: values.
Proof.
  intros (d & Hd & Hnd & Hlook & Hinh)%index_groups Hin.
  apply Hd, get_NoDup in Hin; [|done].
  destruct (Hinh _ _ Hin) as (_ & Hne & Hvals).
  destruct uv as [|[slot vals] uv]; [done|].
  assert (Hslot : Py.get slot ((slot, vals) :: uv) = Some vals).
  { simpl. by rewrite decide_True. }
  specialize (Hvals _ _ Hslot).
  destruct vals as [|value values]; [done|].
  exists slot, value, values. split; [done|].
  rewrite <- Hlook. by apply lookup2_Some with ((slot, value :: values) :: uv).
Qed.

Section IndexExtras.

(** X1: in the grouped index of a database object that has only been
    constructed, loaded and read, every entry holds at least one slot and
    no slot twice, and every slot of the entry of a surface form holds the
    values of exactly the synonym records with that surface form and that
    upper-cased slot name, in the order of the records, so at least one;
    conversely every synonym record is found in the entry of its form
    under its upper-cased slot name. *)
Theorem grouped_index_content self :
  reachable self →
  (∀ form uv, (form, uv) ∈ (form_upnames_vals self).1 →
     uv ≠ [] ∧ NoDup (Py.keys uv) ∧
     ∀ up vals, (up, vals) ∈ uv →
       vals ≠ [] ∧ vals = Derived.values_of form up (synonym_value_category self)) ∧
  (∀ form val name, (form, val, name) ∈ synonym_value_category self →
     ∃ uv vals, (form, uv) ∈ (form_upnames_vals self).1 ∧
                (Py.upper name, vals) ∈ uv ∧ val ∈ vals).
Proof.
  intros (d & Hd & Hnd & Hlook & Hinh)%index_groups.
  split.
  - intros form uv Hin. apply Hd, get_NoDup in Hin; [|done].
    destruct (Hinh _ _ Hin) as (Hnduv & Hne & Hvals).
    split_and!; try done.
    intros up vals Hup. apply get_NoDup in Hup; [|done].
    split; [by eapply Hvals|].
    rewrite <- Hlook. symmetry. by apply lookup2_Some with uv.
  - intros form val name Hin.
    assert (Hval : val ∈ Derived.values_of form (Py.upper name) (synonym_value_category self)).
    { unfold Derived.values_of. apply list_elem_of_fmap. exists (form, val). split; [done|].
      apply list_elem_of_fmap. exists (form, val, name). split; [done|].
      by apply list_elem_of_filter. }
    rewrite <- Hlook in Hval.
    apply lookup2_elem in Hval as (uv & vals & Huv & Hvals & Hval).
    exists uv, vals. split_and!; [|by apply get_Some_elem|done].
    apply Hd. by apply get_Some_elem.
Qed.

(** X2: a database object that has only been constructed, loaded and read
    never serves a stale index: each of the two cached properties returns
    what it computes from the current synonym records when its cache is
    empty. *)
Theorem caches_are_never_stale self :
  reachable self →
  (form_val_upname self).1 = (form_val_upname (Derived.invalidate self)).1 ∧
  (form_upnames_vals self).1 = (form_upnames_vals (Derived.invalidate self)).1.
Proof.
  intros Hr. split.
  - by rewrite reachable_form_val_upname_eq.
  - by rewrite reachable_form_upnames_vals_eq.
Qed.

(** X3: a [load] that succeeds leaves a normalised database, both caches
    empty, and a synonym list that holds the records it held before
    together with the records of the new database, none dropped, sorted
    from the surface forms with most words to those with fewer. *)
Theorem load_appends_and_sorts db_mod self :
  (load db_mod self).1 = Py.Ok () →
  ∃ d, database (load db_mod self).2 = Normalised d ∧
       synonym_value_category (load db_mod self).2
         ≡ₚ synonym_value_category self ++ triples_of d ∧
       StronglySorted (Py.desc (λ svc : triple, length svc.1.1))
         (synonym_value_category (load db_mod self).2) ∧
       _form_val_upname (load db_mod self).2 = None ∧
       _form_upnames_vals (load db_mod self).2 = None.
Proof.
  unfold load. destruct (getattr db_mod "database") as [v|]; [|done].
  unfold and_then, normalise_database, gen_synonym_value_category. simpl.
  destruct (normalise_value v) as [new_db|e]; simpl; [|done].
  intros _. exists new_db. split_and!; try done.
  - apply sort_desc_perm.
  - apply sort_desc_sorted.
Qed.
End IndexExtras.
End GroupFacts.


Lemma grouped_index_content_witness :
  let self := Examples.cldb_of Examples.src_cities in
  (∀ form uv, (form, uv) ∈ (CategoryLabelDatabase.form_upnames_vals self).1 →
     uv ≠ [] ∧ NoDup (Py.keys uv) ∧
     ∀ up vals, (up, vals) ∈ uv →
       vals ≠ [] ∧
       vals = Derived.values_of form up (CategoryLabelDatabase.synonym_value_category self)) ∧
  (∀ form val name,
     (form, val, name) ∈ CategoryLabelDatabase.synonym_value_category self →
     ∃ uv vals, (form, uv) ∈ (CategoryLabelDatabase.form_upnames_vals self).1 ∧
                (Py.upper name, vals) ∈ uv ∧ val ∈ vals).
Proof.
  apply grouped_index_content.
  apply (CategoryLabelDatabase.reachable_init (Some Examples.src_cities)). reflexivity.
Defined.

Lemma caches_are_never_stale_witness :
  let self := (CategoryLabelDatabase.form_upnames_vals
                 (Examples.cldb_of Examples.src_cities)).2 in
  (CategoryLabelDatabase.form_val_upname self).1
    = (CategoryLabelDatabase.form_val_upname (Derived.invalidate self)).1 ∧
  (CategoryLabelDatabase.form_upnames_vals self).1
    = (CategoryLabelDatabase.form_upnames_vals (Derived.invalidate self)).1.
Proof.
  apply caches_are_never_stale.
  apply CategoryLabelDatabase.reachable_form_upnames_vals.
  apply (CategoryLabelDatabase.reachable_init (Some Examples.src_cities)). reflexivity.
Defined.

Lemma load_appends_and_sorts_witness :
  let self := Examples.cldb_of Examples.src_praha in
  let reloaded := (CategoryLabelDatabase.load Examples.src_brno self).2 in
  ∃ d, CategoryLabelDatabase.database reloaded = CategoryLabelDatabase.Normalised d ∧
       CategoryLabelDatabase.synonym_value_category reloaded
         ≡ₚ CategoryLabelDatabase.synonym_value_category self
            ++ CategoryLabelDatabase.triples_of d ∧
       StronglySorted (Py.desc (λ svc : CategoryLabelDatabase.triple, length svc.1.1))
         (CategoryLabelDatabase.synonym_value_category reloaded) ∧
       CategoryLabelDatabase._form_val_upname reloaded = None ∧
       CategoryLabelDatabase._form_upnames_vals reloaded = None.
Proof.
  apply (load_appends_and_sorts Examples.src_brno (Examples.cldb_of Examples.src_praha)).
  reflexivity.
Defined.

(** ** Loading a well-formed source *)

Section SourceFacts.
Import CategoryLabelDatabase.

Lemma set_fresh {K V} `{EqDecision K} (d : Py.dict K V) k v :
  k ∉ Py.keys d → Py.set k v d = d ++ [(k, v)].
Proof.
  unfold Py.keys. induction d as [|[k' v'] d IH]; simpl; [done|].
  intros [Hk Hd]%not_elem_of_cons. rewrite decide_False by done. by rewrite IH.
Qed.

Lemma split_phrases (ps : list string) :
  Py.map_res split_phrase (Py.VStr <$> ps) = Py.Ok (Py.split <$> ps).
Proof.
  induction ps as [|p ps IH]; [done|].
  rewrite !fmap_cons. cbn [Py.map_res]. rewrite IH. done.
Qed.

(** Building a dict entry by entry from the keys of a dict gives the dict
    of the entries, in order. *)
Lemma for_each_keys {V W} (d l : Py.dict string V) (body : Py.value → Py.dict string W → Py.res (Py.dict string W))
    (entry : string * V → W) acc :
  (∀ kv acc, kv ∈ l → body (Py.VStr kv.1) acc = Py.Ok (Py.set kv.1 (entry kv) acc)) →
  NoDup (Py.keys l) →
  (∀ k, k ∈ Py.keys l → k ∉ Py.keys acc) →
  Py.for_each (Py.VStr <$> Py.keys l) body acc
  = Py.Ok (acc ++ ((λ kv, (kv.1, entry kv)) <$> l)).
Proof.
  unfold Py.keys. revert acc. induction l as [|[k v] l IH]; intros acc Hbody Hnd Hacc; simpl.
  - by rewrite app_nil_r.
  - rewrite (Hbody (k, v)) by left. simpl.
    apply NoDup_cons in Hnd as [Hk Hnd].
    assert (Hfresh : k ∉ Py.keys acc) by (apply Hacc; left).
    rewrite set_fresh by done.
    rewrite IH; [by rewrite <- app_assoc| |done|].
    + intros kv acc' Hkv. apply Hbody. by right.
    + intros k' Hk'. unfold Py.keys. rewrite fmap_app, elem_of_app. simpl.
      rewrite list_elem_of_singleton. intros [Hin| ->]; [|done].
      revert Hin. apply Hacc. by right.
Qed.

Lemma keys_fmap {V W} (f : string * V → W) (d : Py.dict string V) :
  Py.keys ((λ kv, (kv.1, f kv)) <$> d) = Py.keys d.
Proof. unfold Py.keys. rewrite <- list_fmap_compose. done. Qed.

Lemma get_fmap {V W} (f : string * V → W) (d : Py.dict string V) k v :
  NoDup (Py.keys d) → (k, v) ∈ d →
  Py.get k ((λ kv, (kv.1, f kv)) <$> d) = Some (f (k, v)).
Proof.
  intros Hnd Hin. apply get_NoDup; [by rewrite keys_fmap|].
  apply list_elem_of_fmap. by exists (k, v).
Qed.

(** [normalise_database] on a source of the documented shape. *)
Lemma normalise_value_source (src : Derived.source) :
  Derived.well_keyed src →
  normalise_value (Derived.to_value src) = Py.Ok (Derived.tokenised src).
Proof.
  intros [Hnd Hinner]. unfold normalise_value, Derived.to_value. simpl.
  rewrite keys_fmap.
  rewrite (for_each_keys src src _
             (λ name_vals, (λ val_forms : string * list string,
                              (val_forms.1, Py.split <$> val_forms.2)) <$> name_vals.2));
    [done| |done|by intros k _ ?%elem_of_nil].
  intros [name vals] new_db Hin. unfold normalise_name. simpl.
  rewrite (get_fmap _ src name vals) by done. simpl.
  rewrite keys_fmap.
  rewrite Forall_forall in Hinner. specialize (Hinner _ Hin). simpl in Hinner.
  rewrite (for_each_keys vals vals _ (λ val_forms, Py.split <$> val_forms.2));
    [done| |done|by intros k _ ?%elem_of_nil].
  intros [value forms] entries Hvin. simpl.
  rewrite (get_fmap _ vals value forms) by done. simpl.
  by rewrite split_phrases.
Qed.

Lemma triples_of_tokenised (src : Derived.source) :
  triples_of (Derived.tokenised src)
  = (name_vals ← src; val_forms ← name_vals.2; phrase ← val_forms.2;
     [(Py.split phrase, val_forms.1, name_vals.1)]).
Proof.
  unfold triples_of, Derived.tokenised. rewrite list_fmap_bind.
  apply list_bind_ext; [|done]. intros [name vals]. simpl.
  rewrite list_fmap_bind. apply list_bind_ext; [|done]. intros [value forms]. simpl.
  by rewrite list_fmap_bind.
Qed.

Lemma get_fmap_value {V W} (f : V → W) (d : Py.dict string V) k :
  Py.get k ((λ kv : string * V, (kv.1, f kv.2)) <$> d) = f <$> Py.get k d.
Proof.
  induction d as [|[k' v] d IH]; [done|].
  rewrite fmap_cons. simpl. by destruct (decide (k = k')).
Qed.

Lemma bound_tokenised (src : Derived.source) name value :
  Derived.bound (Derived.tokenised src) name value
  = (λ phrases : list string, Py.split <$> phrases) <$> Derived.bound src name value.
Proof.
  unfold Derived.bound, Derived.tokenised.
  rewrite (get_fmap_value
             (λ vals : Py.dict string (list string),
                (λ val_forms : string * list string, (val_forms.1, Py.split <$> val_forms.2))
                <$> vals) src name).
  destruct (Py.get name src) as [vals|]; simpl; [|done].
  apply (get_fmap_value (λ phrases : list string, Py.split <$> phrases) vals value).
Qed.

(** X4: from a source of the documented shape
    [{slot name: {value: [phrase, ...]}}] in which no slot and, within a
    slot, no value is bound twice, [load] succeeds whatever the database
    object held.  It leaves a normalised database with the slots of the
    source that binds, to every value of a slot, the phrases that the
    source binds to it, in their order, each split on white space; a
    synonym list that holds, sorted from the forms with most words to
    those with fewer, the records it held before and one record (words of
    the phrase, value, slot name) per phrase of the source; and both caches
    empty.  Nothing is said of the order of the slots and values in the
    database or of records with equally many words in the list, which
    follow the iteration order of the dicts. *)
Theorem load_tokenises_source db_mod self (src : Derived.source) :
  getattr db_mod "database" = Some (Derived.to_value src) →
  Derived.well_keyed src →
  ∃ d records,
    load db_mod self = (Py.Ok (), mk (Normalised d) records None None) ∧
    (∀ name, name ∈ Py.keys d ↔ name ∈ Py.keys src) ∧
    (∀ name value,
       Derived.bound d name value
       = (λ phrases : list string, Py.split <$> phrases) <$> Derived.bound src name value) ∧
    records ≡ₚ synonym_value_category self ++
               (name_vals ← src; val_forms ← name_vals.2; phrase ← val_forms.2;
                [(Py.split phrase, val_forms.1, name_vals.1)]) ∧
    StronglySorted (Py.desc (λ svc : triple, length svc.1.1)) records.
Proof.
  intros Hdb Hsrc.
  exists (Derived.tokenised src),
         (Py.sort_desc (λ svc : triple, length svc.1.1)
            (synonym_value_category self ++ triples_of (Derived.tokenised src))).
  split_and!.
  - unfold load. rewrite Hdb.
    unfold and_then, normalise_database, gen_synonym_value_category. simpl.
    by rewrite normalise_value_source.
  - intros name. unfold Derived.tokenised. by rewrite keys_fmap.
  - apply bound_tokenised.
  - by rewrite sort_desc_perm, triples_of_tokenised.
  - apply sort_desc_sorted.
Qed.
End SourceFacts.

Lemma load_tokenises_source_witness :
  let src := [("city", [("Prague", ["Prague"; "Praha"]); ("Brno", ["Brno"])]);
              ("stop", [("Hlavni nadrazi", ["hlavni  nadrazi"; "hlavak"])])] in
  ∃ d records,
    CategoryLabelDatabase.load [("database", Derived.to_value src)] Examples.fresh
      = (Py.Ok (),
         CategoryLabelDatabase.mk (CategoryLabelDatabase.Normalised d) records None None) ∧
    (∀ name, name ∈ Py.keys d ↔ name ∈ Py.keys src) ∧
    (∀ name value,
       Derived.bound d name value
       = (λ phrases : list string, Py.split <$> phrases) <$> Derived.bound src name value) ∧
    records ≡ₚ CategoryLabelDatabase.synonym_value_category Examples.fresh ++
               (name_vals ← src; val_forms ← name_vals.2; phrase ← val_forms.2;
                [(Py.split phrase, val_forms.1, name_vals.1)]) ∧
    StronglySorted (Py.desc (λ svc : CategoryLabelDatabase.triple, length svc.1.1)) records.
Proof.
  intros src.
  apply (load_tokenises_source [("database", Derived.to_value src)] Examples.fresh src).
  - reflexivity.
  - split; [compute_done|]. repeat constructor; compute_done.
Defined.

(** ** More on the forward pass *)

Section ForwardFacts.
Import SLUPreprocessing Utterance.
Local Open Scope nat_scope.

Lemma for_break_raises {A S} (l : list A) (body : A → S → Py.res (Py.flow S)) s e :
  Py.for_break l body s = Py.Raise e → ∃ x s', x ∈ l ∧ body x s' = Py.Raise e.
Proof.
  revert s. induction l as [|x l IH]; intros s; simpl; [done|].
  destruct (body x s) as [[s1|s1]|e'] eqn:E.
  - intros (y & s' & Hy & Hs')%IH. exists y, s'. split; [by right|done].
  - done.
  - intros [= ->]. exists x, s. split; [left|done].
Qed.

(** With [all_options] the scan stops at the first surface form that
    occurs in the utterance. *)
Lemma scan_all_options index n st :
  Py.for_break index (utterance_step true n) st =
    if existsb (λ item : phrase * CategoryLabelDatabase.upnames_vals_t,
                  contains item.1 (utterance_cp st)) index
    then Py.Raise Py.AttributeError else Py.Ok st.
Proof.
  induction index as [|[surface uv] index IH]; [done|].
  rewrite for_break_cons. unfold utterance_step at 1. simpl.
  destruct (contains surface (utterance_cp st)); simpl; [done|]. apply IH.
Qed.

Lemma replace_absent s r u : contains s u = false → replace s r u = u.
Proof.
  induction u as [|x u IH].
  - destruct s; [done|]. done.
  - rewrite contains_cons. intros [Hst Hc]%orb_false_elim.
    simpl replace. rewrite Hst. by rewrite IH.
Qed.

Lemma length_replace s r u :
  contains s u = true → length (replace s r u) + length s = length u + length r.
Proof.
  intros (a & b & -> & Hr & _)%replace_decompose. rewrite Hr, !length_app. lia.
Qed.

Lemma length_replace_token (v l : string) u : length (replace [v] [l] u) = length u.
Proof.
  destruct (contains [v] u) eqn:E.
  - apply (length_replace [v] [l]) in E. simpl in E. lia.
  - by rewrite replace_absent.
Qed.

Lemma length_set_le {V} (d : Py.dict string V) k v : length (Py.set k v d) ≤ S (length d).
Proof.
  induction d as [|[k' v'] d IH]; simpl; [lia|].
  destruct (decide (k = k')); simpl; lia.
Qed.

Lemma filter_none {A} (Q : A → Prop) `{∀ x, Decision (Q x)} (l : list A) :
  (∀ x, x ∈ l → ¬ Q x) → filter Q l = [].
Proof.
  induction l as [|x l IH]; intros Hl; [done|].
  rewrite filter_cons, decide_False by (apply Hl; left).
  apply IH. intros y Hy. apply Hl. by right.
Qed.

(** No hypothesis with the surface form, no index. *)
Lemma hyps_with_surface_nil {P} surface (nb : nblist P) :
  forallb (λ hyp, negb (contains surface hyp.2)) nb = true →
  hyps_with_surface surface nb = [].
Proof.
  intros H. unfold hyps_with_surface.
  assert (Hf : filter (λ ih : nat * (P * Utterance.t), contains surface ih.2.2) (imap pair nb) = []);
    [|by rewrite Hf].
  apply filter_none. intros [i hyp] Hin.
  apply elem_of_lookup_imap in Hin as (j & y & [= -> ->] & Hy). simpl.
  rewrite forallb_forall in H. apply list_elem_of_lookup_2, list_elem_of_In, H in Hy.
  apply negb_true_iff in Hy. rewrite Hy. by intros [].
Qed.

Lemma values_of_elem form up (l : list CategoryLabelDatabase.triple) v :
  v ∈ Derived.values_of form up l → ∃ name, (form, v, name) ∈ l ∧ Py.upper name = up.
Proof.
  unfold Derived.values_of.
  intros ([f v'] & -> & ([[f' v''] name] & [= -> ->] & Hin)%list_elem_of_fmap)%list_elem_of_fmap.
  apply list_elem_of_filter in Hin as [[Hf Hup] Hin]. simpl in *. subst.
  by exists name.
Qed.

(** X5: with [all_options] set, [values2category_labels_in_utterance]
    never returns a result: it raises [AttributeError] ([append] on the
    dict [matched_phrases]) as soon as a surface form of the index occurs
    in the utterance, and [NotImplementedError] when none does. *)
Theorem all_options_never_returns self utterance :
  values2category_labels_in_utterance self utterance true =
    if existsb (λ item : phrase * CategoryLabelDatabase.upnames_vals_t,
                  contains item.1 utterance) (form_upnames_vals self)
    then Py.Raise Py.AttributeError else Py.Raise Py.NotImplementedError.
Proof.
  unfold values2category_labels_in_utterance, scan_utterance.
  rewrite scan_all_options. simpl. unfold from_utterance.
  by destruct (existsb _ _).
Qed.

(** X6: a forward pass in which no surface form of the index occurs, over
    an utterance or over an n-best list (an empty one in particular),
    returns its input as it is, with an empty substitution record. *)
Theorem no_match_returns_input self :
  (∀ utterance,
     forallb (λ item : phrase * CategoryLabelDatabase.upnames_vals_t,
                negb (contains item.1 utterance)) (form_upnames_vals self) = true →
     values2category_labels_in_utterance self utterance false = Py.Ok (utterance, [])) ∧
  (∀ P (utt_nblist : nblist P),
     forallb (λ item : phrase * CategoryLabelDatabase.upnames_vals_t,
                forallb (λ hyp, negb (contains item.1 hyp.2)) utt_nblist)
       (form_upnames_vals self) = true →
     values2category_labels_in_uttnblist self utt_nblist = Py.Ok (utt_nblist, [])).
Proof.
  split.
  - intros utterance H. unfold values2category_labels_in_utterance, scan_utterance.
    rewrite <- (app_nil_r (form_upnames_vals self)), scan_skip by done. done.
  - intros P utt_nblist H. unfold values2category_labels_in_uttnblist, scan_uttnblist.
    rewrite <- (app_nil_r (form_upnames_vals self)), for_break_skip; [done|].
    intros [surface uv] Hin. unfold uttnblist_step. simpl.
    rewrite hyps_with_surface_nil; [done|].
    rewrite forallb_forall in H. by apply list_elem_of_In, H in Hin.
Qed.

(** X7: over the index of a database object that has only been
    constructed, loaded and read, the forward pass over an utterance
    (without [all_options]) and the forward pass over an n-best list raise
    nothing but the [AssertionError] of the consistency check on the count
    of substituted words: a slot and a value can always be chosen. *)
Theorem forward_raises_assertion_only self :
  CategoryLabelDatabase.reachable (cldb self) →
  (∀ utterance e,
     values2category_labels_in_utterance self utterance false = Py.Raise e →
     e = Py.AssertionError) ∧
  (∀ P (utt_nblist : nblist P) e,
     values2category_labels_in_uttnblist self utt_nblist = Py.Raise e →
     e = Py.AssertionError).
Proof.
  intros Hr. split.
  - intros utterance e. unfold values2category_labels_in_utterance.
    destruct (scan_utterance false _ utterance) as [st|e'] eqn:E; simpl; [done|].
    intros [= ->]. apply for_break_raises in E as ([surface uv] & st & Hin & Hstep).
    destruct (index_choose _ _ _ Hr Hin) as (slot & value & values & Hch & _).
    unfold utterance_step in Hstep. rewrite Hch in Hstep. simpl in Hstep.
    repeat case_match; congruence.
  - intros P utt_nblist e. unfold values2category_labels_in_uttnblist.
    destruct (scan_uttnblist _ utt_nblist) as [st|e'] eqn:E; simpl; [done|].
    intros [= ->]. apply for_break_raises in E as ([surface uv] & st & Hin & Hstep).
    destruct (index_choose _ _ _ Hr Hin) as (slot & value & values & Hch & _).
    unfold uttnblist_step in Hstep. rewrite Hch in Hstep. simpl in Hstep.
    repeat case_match; congruence.
Qed.

(** X8: when no surface form of the index is empty, the utterance that the
    forward pass returns has at most as many tokens as the utterance it was
    given, and the substitution record at most as many labels as the given
    utterance has tokens. *)
Theorem forward_never_lengthens self utterance utterance' rec :
  values2category_labels_in_utterance self utterance false = Py.Ok (utterance', rec) →
  Forall (λ item : phrase * CategoryLabelDatabase.upnames_vals_t, item.1 ≠ [])
    (form_upnames_vals self) →
  length utterance' ≤ length utterance ∧ length rec ≤ length utterance.
Proof.
  unfold values2category_labels_in_utterance.
  destruct (scan_utterance false _ utterance) as [st|e] eqn:E; simpl; [|done].
  intros [= <- <-] Hne. rewrite Forall_forall in Hne.
  cut (length (utterance_cp st) ≤ length utterance ∧
       length (valform_for_cl st) ≤ substituted_len st ∧
       substituted_len st ≤ length utterance); [lia|].
  revert E. unfold scan_utterance. intros E. pattern st.
  eapply for_break_inv; [| |exact E]; simpl; [unfold from_utterance; lia|].
  intros [surface uv] st0 fl Hin (Hcp & Hrec & Hsub). unfold utterance_step.
  destruct (contains surface (utterance_cp st0)) eqn:Hc; [|intros [= <-]; simpl; lia].
  destruct (choose uv) as [[slot_upper value]|e] eqn:Hch; simpl; [|done].
  pose proof (length_replace surface [value] _ Hc) as Hlen. simpl in Hlen.
  pose proof (length_replace_token value slot_upper (replace surface [value] (utterance_cp st0)))
    as Hlab.
  pose proof (length_set_le (valform_for_cl st0) slot_upper (value, surface)) as Hset.
  assert (Hs : 1 ≤ length surface).
  { specialize (Hne _ Hin). simpl in Hne. destruct surface; [done|simpl; lia]. }
  unfold len, phrase2category_label.
  destruct (length utterance <=? substituted_len st0 + length surface) eqn:Hle.
  - destruct (substituted_len st0 + length surface =? length utterance) eqn:Heq; [|done].
    apply Nat.eqb_eq in Heq. intros [= <-]. simpl. lia.
  - apply Nat.leb_gt in Hle. intros [= <-]. simpl. lia.
Qed.

(** X9: over the index of a database object that has only been
    constructed, loaded and read, every entry [label: (value, surface)] of
    the record of a forward pass comes from a synonym record of the
    database with that surface form and that value; the label is the
    upper-cased slot name of the record (followed by an instance index in
    the n-best variant), and the value is the value of the first synonym
    record with that surface form and that upper-cased slot name. *)
Theorem record_comes_from_database self :
  CategoryLabelDatabase.reachable (cldb self) →
  let records := CategoryLabelDatabase.synonym_value_category (cldb self) in
  (∀ utterance utterance' rec,
     values2category_labels_in_utterance self utterance false = Py.Ok (utterance', rec) →
     ∀ cl value surface, (cl, (value, surface)) ∈ rec →
       ∃ name values,
         (surface, value, name) ∈ records ∧ cl = Py.upper name ∧
         Derived.values_of surface (Py.upper name) records = value :: values) ∧
  (∀ P (utt_nblist utt_nblist' : nblist P) rec,
     values2category_labels_in_uttnblist self utt_nblist = Py.Ok (utt_nblist', rec) →
     ∀ cl value surface, (cl, (value, surface)) ∈ rec →
       ∃ name values k,
         (surface, value, name) ∈ records ∧ cl = indexed_label (Py.upper name) k ∧
         Derived.values_of surface (Py.upper name) records = value :: values).
Proof.
  intros Hr records.
  assert (Hitem : ∀ item slot value,
            item ∈ form_upnames_vals self → choose item.2 = Py.Ok (slot, value) →
            ∃ name values, (item.1, value, name) ∈ records ∧ slot = Py.upper name ∧
              Derived.values_of item.1 (Py.upper name) records = value :: values).
  { intros [form uv] slot value Hin Hch. simpl in *.
    destruct (index_choose _ _ _ Hr Hin) as (slot' & value' & values & Hch' & Hvals).
    rewrite Hch in Hch'. injection Hch' as <- <-.
    assert (Hv : value ∈ Derived.values_of form slot records) by (fold records in Hvals; rewrite Hvals; left).
    apply values_of_elem in Hv as (name & Hin' & <-).
    by exists name, values. }
  split.
  - intros utterance utterance' rec. unfold values2category_labels_in_utterance.
    destruct (scan_utterance false _ utterance) as [st|e] eqn:E; simpl; [|done].
    intros [= <- <-] cl value surface Hcl.
    destruct (scan_utterance_labels _ _ _ E _ _ Hcl) as (item & Hin & Hch & Hs).
    simpl in *. subst surface. by apply Hitem.
  - intros P utt_nblist utt_nblist' rec. unfold values2category_labels_in_uttnblist.
    destruct (scan_uttnblist _ utt_nblist) as [st|e] eqn:E; simpl; [|done].
    intros [= <- <-] cl value surface Hcl.
    destruct (scan_uttnblist_labels _ _ _ E) as [H1 _].
    destruct (H1 _ _ Hcl) as (item & slot & k & Hin & Hch & Hs & -> & _).
    simpl in *. subst surface.
    destruct (Hitem _ _ _ Hin Hch) as (name & values & ? & -> & ?).
    by exists name, values, k.
Qed.

(** X10: when the first surface form of the index that occurs in an
    utterance occurs first between the tokens [a] and [b], the value chosen
    for it is no token of [a], and no later surface form of the index
    occurs in the utterance with that occurrence replaced by the label,
    then the forward pass returns exactly that utterance, and the record
    that binds the label to the chosen value and the surface form. *)
Theorem single_match_is_relabelled self pre surface upnames_vals post a b slot_upper value :
  form_upnames_vals self = pre ++ (surface, upnames_vals) :: post →
  forallb (λ item : phrase * CategoryLabelDatabase.upnames_vals_t,
             negb (contains item.1 (a ++ surface ++ b))) pre = true →
  contains surface (a ++ take (length surface - 1) surface) = false →
  choose upnames_vals = Py.Ok (slot_upper, value) →
  value ∉ a →
  forallb (λ item : phrase * CategoryLabelDatabase.upnames_vals_t,
             negb (contains item.1 (a ++ [slot_upper] ++ b))) post = true →
  values2category_labels_in_utterance self (a ++ surface ++ b) false
  = Py.Ok (a ++ [slot_upper] ++ b, [(slot_upper, (value, surface))]).
Proof.
  intros Hidx Hpre Hfirst Hch Hv Hpost.
  unfold values2category_labels_in_utterance, scan_utterance. rewrite Hidx.
  rewrite scan_skip by done. rewrite for_break_cons.
  rewrite (utterance_step_first _ _ _ _ a b slot_upper value) by done.
  cbv zeta. simpl substituted_len. simpl valform_for_cl. simpl category_label_counter.
  destruct (len (a ++ surface ++ b) <=? 0 + length surface) eqn:Hle.
  - destruct (0 + length surface =? len (a ++ surface ++ b)) eqn:Heq; [done|].
    apply Nat.leb_le in Hle. apply Nat.eqb_neq in Heq. unfold len in *.
    rewrite !length_app in *. lia.
  - rewrite <- (app_nil_r post), scan_skip by done. done.
Qed.
End ForwardFacts.

Lemma no_match_returns_input_witness :
  SLUPreprocessing.values2category_labels_in_utterance
    (Examples.slu_of Examples.src_cities) ["how"; "are"; "you"] false
  = Py.Ok (["how"; "are"; "you"], []) ∧
  SLUPreprocessing.values2category_labels_in_uttnblist
    (Examples.slu_of Examples.src_cities) [(1, ["hello"]); (2, [])]
  = Py.Ok ([(1, ["hello"]); (2, [])], []).
Proof.
  split.
  - apply (proj1 (no_match_returns_input (Examples.slu_of Examples.src_cities))).
    reflexivity.
  - apply (proj2 (no_match_returns_input (Examples.slu_of Examples.src_cities)) nat).
    reflexivity.
Defined.

Lemma forward_raises_assertion_only_witness :
  SLUPreprocessing.values2category_labels_in_utterance
    (Examples.slu_of Examples.src_cascade) ["mesto"; "brno"; "stred"; "centrum"] false
  = Py.Raise Py.AssertionError.
Proof.
  assert (Hr : CategoryLabelDatabase.reachable
                 (SLUPreprocessing.cldb (Examples.slu_of Examples.src_cascade))).
  { apply (CategoryLabelDatabase.reachable_init (Some Examples.src_cascade)). reflexivity. }
  destruct (SLUPreprocessing.values2category_labels_in_utterance
              (Examples.slu_of Examples.src_cascade)
              ["mesto"; "brno"; "stred"; "centrum"] false) as [r|e] eqn:E.
  - discriminate E.
  - f_equal. exact (proj1 (forward_raises_assertion_only _ Hr) _ _ E).
Defined.

Lemma forward_never_lengthens_witness :
  (length ["i"; "go"; "to"; "CITY"] ≤ length ["i"; "go"; "to"; "Praha"])%nat ∧
  (length [("CITY", ("Prague", ["Praha"]))] ≤ length ["i"; "go"; "to"; "Praha"])%nat.
Proof.
  apply (forward_never_lengthens (Examples.slu_of Examples.src_praha)
           ["i"; "go"; "to"; "Praha"] ["i"; "go"; "to"; "CITY"]
           [("CITY", ("Prague", ["Praha"]))]).
  - reflexivity.
  - repeat constructor; done.
Defined.

Lemma record_comes_from_database_witness :
  ∃ name values,
    (["Praha"], "Prague", name)
      ∈ CategoryLabelDatabase.synonym_value_category (Examples.cldb_of Examples.src_praha) ∧
    "CITY" = Py.upper name ∧
    Derived.values_of ["Praha"] (Py.upper name)
      (CategoryLabelDatabase.synonym_value_category (Examples.cldb_of Examples.src_praha))
    = "Prague" :: values.
Proof.
  assert (Hr : CategoryLabelDatabase.reachable
                 (SLUPreprocessing.cldb (Examples.slu_of Examples.src_praha))).
  { apply (CategoryLabelDatabase.reachable_init (Some Examples.src_praha)). reflexivity. }
  apply (proj1 (record_comes_from_database _ Hr)
           ["i"; "go"; "to"; "Praha"] ["i"; "go"; "to"; "CITY"]
           [("CITY", ("Prague", ["Praha"]))]).
  - reflexivity.
  - left.
Defined.

Lemma single_match_is_relabelled_witness :
  SLUPreprocessing.values2category_labels_in_utterance
    (Examples.slu_of Examples.src_praha) (["i"; "go"; "to"] ++ ["Praha"] ++ ["now"]) false
  = Py.Ok (["i"; "go"; "to"] ++ ["CITY"] ++ ["now"], [("CITY", ("Prague", ["Praha"]))]).
Proof.
  apply (single_match_is_relabelled (Examples.slu_of Examples.src_praha)
           [(["Prague"], [("CITY", ["Prague"])])] ["Praha"] [("CITY", ["Prague"])] []);
    [reflexivity|reflexivity|reflexivity|reflexivity|compute_done|reflexivity].
Defined.

(** ** More on n-best lists *)

Section NBListFacts.
Import SLUPreprocessing Utterance.
Local Open Scope nat_scope.
Context {P : Type}.
Implicit Types (nb : nblist P) (hyp : P * list string).

(** The loop over [hyps_with_surface] rewrites the hypotheses that contain
    the surface form and leaves the others. *)
Lemma relabel_hyps_from surface value category_label (pre l : nblist P) :
  fold_left
    (λ nb hyp_idx,
       match nb !! hyp_idx with
       | Some (prob, utt) =>
           let new_utt := replace surface [value] utt in
           <[hyp_idx := (prob, phrase2category_label [value] [category_label] new_utt)]> nb
       | None => nb
       end)
    (filter (λ ih : nat * (P * list string), contains surface ih.2.2)
       (imap (λ i hyp, (length pre + i, hyp)) l)).*1
    (pre ++ l)
  = pre ++ (Derived.rewritten surface value category_label <$> l).
Proof.
  revert pre. induction l as [|[prob utt] l IH]; intros pre; [done|].
  rewrite imap_cons.
  assert (Hext : imap ((λ i hyp, (length pre + i, hyp)) ∘ S) l
                 = imap (λ i (hyp : P * list string),
                           (length (pre ++ [Derived.rewritten surface value category_label (prob, utt)]) + i,
                            hyp)) l).
  { apply imap_ext. intros i x _. simpl. rewrite length_app. simpl. f_equal. lia. }
  rewrite Hext. clear Hext.
  specialize (IH (pre ++ [Derived.rewritten surface value category_label (prob, utt)])).
  rewrite <- !app_assoc in IH. simpl in IH.
  rewrite fmap_cons, <- IH. clear IH.
  unfold Derived.rewritten. simpl.
  destruct (contains surface utt) eqn:Hc.
  - rewrite filter_cons_True by (simpl; by rewrite Hc).
    rewrite fmap_cons. simpl. f_equal. unfold nblist in *.
    replace (length pre + 0) with (length pre) by lia.
    assert (Hl : (pre ++ (prob, utt) :: l) !! length pre = Some (prob, utt))
      by (by apply list_lookup_middle).
    rewrite Hl. rewrite (insert_app_r_alt pre _ (length pre)) by done.
    by rewrite Nat.sub_diag.
  - rewrite filter_cons_False by (simpl; rewrite Hc; by intros []). done.
Qed.

Lemma relabel_hyps_rewritten surface value category_label nb :
  relabel_hyps surface value category_label (hyps_with_surface surface nb) nb
  = Derived.rewritten surface value category_label <$> nb.
Proof.
  pose proof (relabel_hyps_from surface value category_label [] nb) as H.
  simpl in H. exact H.
Qed.

Lemma hyps_with_surface_cons surface nb hyp :
  hyp ∈ nb → contains surface hyp.2 = true → hyps_with_surface surface nb ≠ [].
Proof.
  intros Hin Hc. apply list_elem_of_lookup_1 in Hin as [i Hi].
  assert (Hf : (i, hyp) ∈ filter (λ ih : nat * (P * list string), contains surface ih.2.2)
                            (imap pair nb)).
  { apply list_elem_of_filter. split; [simpl; by rewrite Hc|].
    by apply (elem_of_lookup_imap_2 pair). }
  unfold hyps_with_surface. intros Hnil.
  destruct (filter _ (imap pair nb)); [by apply elem_of_nil in Hf|done].
Qed.

Lemma rewritten_fst surface value category_label nb :
  (Derived.rewritten surface value category_label <$> nb).*1 = nb.*1.
Proof.
  rewrite <- list_fmap_compose. apply list_fmap_ext. intros i hyp _. simpl.
  unfold Derived.rewritten. by destruct (contains surface hyp.2).
Qed.

Lemma rewritten_length surface value category_label hyp :
  surface ≠ [] →
  length (Derived.rewritten surface value category_label hyp).2 ≤ length hyp.2.
Proof.
  intros Hs. unfold Derived.rewritten. destruct (contains surface hyp.2) eqn:Hc; [|done].
  simpl. unfold phrase2category_label. rewrite length_replace_token.
  apply (length_replace surface [value]) in Hc. simpl in Hc.
  destruct surface; [done|]. simpl in Hc. lia.
Qed.

Local Arguments relabel_hyps : simpl never.

(** What a step of the scan makes of the n-best list. *)
Lemma uttnblist_step_nblist n surface uv (st : nb_locals P) fl :
  uttnblist_step n (surface, uv) st = Py.Ok fl →
  nblist_cp (Py.flow_state fl) = nblist_cp st ∨
  ∃ slot value,
    choose uv = Py.Ok (slot, value) ∧
    nblist_cp (Py.flow_state fl)
    = Derived.rewritten surface value
        (indexed_label slot (default 0 (Py.get slot (nb_category_label_counter st))))
      <$> nblist_cp st.
Proof.
  unfold uttnblist_step.
  destruct (hyps_with_surface surface (nblist_cp st)) as [|i hyps] eqn:Hh;
    [intros [= <-]; by left|].
  destruct (choose uv) as [[slot value]|e] eqn:Hch; simpl; [|done].
  assert (Hrel : ∀ v cl, relabel_hyps surface v cl (i :: hyps) (nblist_cp st)
                         = Derived.rewritten surface v cl <$> nblist_cp st).
  { intros v cl. rewrite <- Hh. apply relabel_hyps_rewritten. }
  rewrite !Hrel. intros Hfl. right. exists slot, value.
  split; [done|]. repeat case_match; simplify_eq; done.
Qed.

(** X11: the n-best list that the forward pass returns has the hypotheses
    of the list it was given, in the same order and with the same
    probabilities; when no surface form of the index is empty, no
    hypothesis has more tokens than before. *)
Theorem nblist_keeps_its_hypotheses self (utt_nblist utt_nblist' : nblist P) rec :
  values2category_labels_in_uttnblist self utt_nblist = Py.Ok (utt_nblist', rec) →
  utt_nblist'.*1 = utt_nblist.*1 ∧
  (Forall (λ item : phrase * CategoryLabelDatabase.upnames_vals_t, item.1 ≠ [])
     (form_upnames_vals self) →
   Forall2 (λ hyp hyp', length hyp'.2 ≤ length hyp.2) utt_nblist utt_nblist').
Proof.
  unfold values2category_labels_in_uttnblist.
  destruct (scan_uttnblist _ utt_nblist) as [st|e] eqn:E; simpl; [|done].
  intros [= <- <-]. revert E. unfold scan_uttnblist. intros E. pattern st.
  eapply for_break_inv; [| |exact E]; simpl.
  - split; [done|]. intros _. by apply Forall_Forall2_diag, Forall_forall.
  - intros [surface uv] st0 fl Hin [IH1 IH2] Hstep.
    apply uttnblist_step_nblist in Hstep as [->|(slot & value & _ & ->)]; [done|].
    split; [by rewrite rewritten_fst|].
    intros Hne. specialize (IH2 Hne). rewrite Forall_forall in Hne.
    specialize (Hne _ Hin). simpl in Hne.
    apply Forall2_fmap_r. eapply Forall2_impl; [exact IH2|].
    intros hyp hyp' Hle. simpl in Hle.
    pose proof (rewritten_length surface value
                  (indexed_label slot (default 0 (Py.get slot (nb_category_label_counter st0))))
                  hyp' Hne).
    simpl in *. lia.
Qed.

(** What the two replacements of a step make of a hypothesis: with the
    first occurrence of the surface form between [a] and [b], the label
    stands in its place when the value is no token of [a]; when it is, the
    first such token becomes the label and the value stays where the
    surface form stood. *)
Lemma rewritten_first_occurrence surface value category_label (prob : P) a b :
  contains surface (a ++ take (length surface - 1) surface) = false →
  (value ∉ a →
   Derived.rewritten surface value category_label (prob, a ++ surface ++ b)
   = (prob, a ++ [category_label] ++ b)) ∧
  (∀ a1 a2, a = a1 ++ value :: a2 → value ∉ a1 →
   Derived.rewritten surface value category_label (prob, a ++ surface ++ b)
   = (prob, a1 ++ [category_label] ++ a2 ++ [value] ++ b)).
Proof.
  intros Hfirst. unfold Derived.rewritten, phrase2category_label. simpl.
  rewrite contains_app, replace_first_occurrence by done. split.
  - intros Hv. change (a ++ [value] ++ b) with (a ++ value :: b).
    by rewrite replace_token_first.
  - intros a1 a2 -> Hv. rewrite <- app_assoc. simpl.
    by rewrite replace_token_first.
Qed.

(** X12: a step of the scan over an n-best list in which some hypothesis
    contains the surface form, and which does not raise, treats every
    hypothesis with one and the same category label, the chosen slot name
    with the instance index that the counter of the slot gives: in a
    hypothesis that contains the surface form, the first occurrence of the
    surface form becomes the chosen value and then the first occurrence of
    the value becomes the label, so that the label stands in place of the
    surface form when the value is no token before that occurrence, and
    otherwise the first such token becomes the label and the value stays
    where the surface form stood; a hypothesis without the surface form is
    left as it is.  The step records the label with the chosen value and
    the surface form and increments the counter of the slot. *)
Theorem nblist_step_uses_one_label n surface uv (st : nb_locals P) fl hyp :
  uttnblist_step n (surface, uv) st = Py.Ok fl →
  hyp ∈ nblist_cp st → contains surface hyp.2 = true →
  ∃ slot value,
    choose uv = Py.Ok (slot, value) ∧
    let category_label :=
      indexed_label slot (default 0 (Py.get slot (nb_category_label_counter st))) in
    Forall2
      (λ hyp hyp' : P * Utterance.t,
         hyp'.1 = hyp.1 ∧
         (contains surface hyp.2 = false → hyp'.2 = hyp.2) ∧
         (∀ a b,
            hyp.2 = a ++ surface ++ b →
            contains surface (a ++ take (length surface - 1) surface) = false →
            (value ∉ a → hyp'.2 = a ++ [category_label] ++ b) ∧
            (∀ a1 a2, a = a1 ++ value :: a2 → value ∉ a1 →
                      hyp'.2 = a1 ++ [category_label] ++ a2 ++ [value] ++ b)))
      (nblist_cp st) (nblist_cp (Py.flow_state fl)) ∧
    Py.get category_label (nb_valform_for_cl (Py.flow_state fl)) = Some (value, surface) ∧
    Py.get slot (nb_category_label_counter (Py.flow_state fl))
      = Some (S (default 0 (Py.get slot (nb_category_label_counter st)))).
Proof.
  intros Hstep Hin Hc. pose proof (hyps_with_surface_cons _ _ _ Hin Hc) as Hne.
  unfold uttnblist_step in Hstep.
  destruct (hyps_with_surface surface (nblist_cp st)) as [|i hyps] eqn:Hh; [done|].
  destruct (choose uv) as [[slot value]|e] eqn:Hch; simpl in Hstep; [|done].
  assert (Hrel : ∀ v cl, relabel_hyps surface v cl (i :: hyps) (nblist_cp st)
                         = Derived.rewritten surface v cl <$> nblist_cp st).
  { intros v cl. rewrite <- Hh. apply relabel_hyps_rewritten. }
  rewrite !Hrel in Hstep.
  exists slot, value. split; [done|]. cbv zeta.
  assert (Hfl : Py.flow_state fl =
                  NBLocals
                    (Derived.rewritten surface value
                       (indexed_label slot (default 0 (Py.get slot (nb_category_label_counter st))))
                     <$> nblist_cp st)
                    (Py.update slot S 0 (nb_category_label_counter st))
                    (Py.set (indexed_label slot (default 0 (Py.get slot (nb_category_label_counter st))))
                       (value, surface) (nb_valform_for_cl st))
                    (nb_substituted_len st + length surface * length (i :: hyps))).
  { repeat case_match; simplify_eq; done. }
  rewrite Hfl. simpl. split_and!.
  - apply Forall2_fmap_r, Forall_Forall2_diag, Forall_forall.
    intros [prob utt] _. simpl. split_and!.
    + unfold Derived.rewritten. simpl. by destruct (contains surface utt).
    + intros Hno. unfold Derived.rewritten. simpl. by rewrite Hno.
    + intros a b -> Hfirst.
      destruct (rewritten_first_occurrence surface value
                  (indexed_label slot (default 0 (Py.get slot (nb_category_label_counter st))))
                  prob a b Hfirst) as [H1 H2].
      split.
      * intros Hv. by rewrite H1.
      * intros a1 a2 Ha Hv. by rewrite (H2 a1 a2).
  - rewrite get_set. by rewrite decide_True.
  - unfold Py.update. rewrite get_set. by rewrite decide_True.
Qed.

(** X13: [category_labels2values_in_uttnblist] restores nothing: given a
    hypothesis and a label to restore it raises [AttributeError], and
    given an empty n-best list or an empty record it returns the list as
    it is. *)
Theorem backward_uttnblist_restores_nothing self (utt_nblist : nblist P) category_labels :
  category_labels2values_in_uttnblist self utt_nblist category_labels =
    match utt_nblist, category_labels with
    | _ :: _, _ :: _ => Py.Raise Py.AttributeError
    | _, _ => Py.Ok utt_nblist
    end.
Proof.
  unfold category_labels2values_in_uttnblist.
  destruct category_labels as [|[cl vf] category_labels].
  - assert (H : ∀ (l : nblist P),
              Py.for_each l (λ _ (_ : unit), Py.for_each (Py.keys ([] : record))
                                              (λ _ (_ : unit), Py.Raise Py.AttributeError) ()) ()
              = Py.Ok ()).
    { induction l as [|x l IH]; [done|]. simpl. exact IH. }
    rewrite H. simpl. by destruct utt_nblist.
  - by destruct utt_nblist.
Qed.
End NBListFacts.

Lemma nblist_keeps_its_hypotheses_witness :
  [(7, ["to"; "CITY-0"]); (3, ["CITY-0"; "please"])].*1
    = [(7, ["to"; "Praha"]); (3, ["Praha"; "please"])].*1 ∧
  (Forall (λ item : list string * CategoryLabelDatabase.upnames_vals_t, item.1 ≠ [])
     (SLUPreprocessing.form_upnames_vals (Examples.slu_of Examples.src_praha)) →
   Forall2 (λ hyp hyp' : nat * list string, (length hyp'.2 ≤ length hyp.2)%nat)
     [(7, ["to"; "Praha"]); (3, ["Praha"; "please"])]
     [(7, ["to"; "CITY-0"]); (3, ["CITY-0"; "please"])]).
Proof.
  apply (nblist_keeps_its_hypotheses (Examples.slu_of Examples.src_praha)
           [(7, ["to"; "Praha"]); (3, ["Praha"; "please"])]
           [(7, ["to"; "CITY-0"]); (3, ["CITY-0"; "please"])]
           [("CITY-0", ("Prague", ["Praha"]))]).
  by vm_compute.
Defined.

Lemma nblist_step_uses_one_label_witness :
  let st := SLUPreprocessing.NBLocals
              [(7, ["to"; "Praha"]); (3, ["Brno"]); (2, ["Prague"; "to"; "Praha"])]
              [] [] 0 in
  let st' := SLUPreprocessing.NBLocals
               [(7, ["to"; "CITY-0"]); (3, ["Brno"]); (2, ["CITY-0"; "to"; "Prague"])]
               [("CITY", 1)] [("CITY-0", ("Prague", ["Praha"]))] 2 in
  ∃ slot value,
    SLUPreprocessing.choose [("CITY", ["Prague"])] = Py.Ok (slot, value) ∧
    let category_label :=
      SLUPreprocessing.indexed_label slot
        (default 0 (Py.get slot (SLUPreprocessing.nb_category_label_counter st))) in
    Forall2
      (λ hyp hyp' : nat * list string,
         hyp'.1 = hyp.1 ∧
         (Utterance.contains ["Praha"] hyp.2 = false → hyp'.2 = hyp.2) ∧
         (∀ a b,
            hyp.2 = a ++ ["Praha"] ++ b →
            Utterance.contains ["Praha"] (a ++ take (length ["Praha"] - 1) ["Praha"]) = false →
            (value ∉ a → hyp'.2 = a ++ [category_label] ++ b) ∧
            (∀ a1 a2, a = a1 ++ value :: a2 → value ∉ a1 →
                      hyp'.2 = a1 ++ [category_label] ++ a2 ++ [value] ++ b)))
      (SLUPreprocessing.nblist_cp st)
      (SLUPreprocessing.nblist_cp (Py.flow_state (Py.Continue st'))) ∧
    Py.get category_label (SLUPreprocessing.nb_valform_for_cl (Py.flow_state (Py.Continue st')))
      = Some (value, ["Praha"]) ∧
    Py.get slot (SLUPreprocessing.nb_category_label_counter (Py.flow_state (Py.Continue st')))
      = Some (S (default 0 (Py.get slot (SLUPreprocessing.nb_category_label_counter st)))).
Proof.
  intros st st'.
  apply (nblist_step_uses_one_label 100 ["Praha"] [("CITY", ["Prague"])] st
           (Py.Continue st') (7, ["to"; "Praha"])).
  - by vm_compute.
  - left.
  - reflexivity.
Defined.

(** ** More on normalisation and restoration *)

Section NormaliserFacts.
Import SLUPreprocessing Utterance.
Local Open Scope nat_scope.

Lemma elem_replace s r u tok : tok ∈ replace s r u → tok ∈ u ∨ tok ∈ r.
Proof.
  destruct (contains s u) eqn:Hc.
  - destruct (replace_decompose s u Hc) as (a & b & -> & Hr & _). rewrite Hr.
    rewrite !elem_of_app. tauto.
  - rewrite replace_absent by done. tauto.
Qed.

Lemma length_replace_bounds s r u :
  length (replace s r u) ≤ length u + length r ∧
  length u ≤ length (replace s r u) + length s.
Proof.
  destruct (contains s u) eqn:Hc.
  - apply (length_replace s r) in Hc. lia.
  - rewrite replace_absent by done. lia.
Qed.

(** X14: [text_normalisation] returns the lower-cased words of an
    utterance in which, once lower-cased, the source of no rule occurs. *)
Theorem normalisation_of_clean_input self utterance :
  Forall (λ mapping : phrase * phrase, contains mapping.1 (lower utterance) = false)
    (text_normalization_mapping self) →
  text_normalisation self utterance = lower utterance.
Proof.
  unfold text_normalisation. generalize (lower utterance). intros u.
  induction 1 as [|mapping rules Hm _ IH]; simpl; [done|].
  by rewrite replace_absent.
Qed.

(** X15: every word of the utterance that [text_normalisation] returns is
    a lower-cased word of the given utterance or a word of the target of a
    rule; and as a rule rewrites one occurrence of its source at most, the
    result is longer than the given utterance by no more than the lengths
    of the targets of the rules, and shorter by no more than the lengths of
    their sources. *)
Theorem normalisation_bounds self utterance :
  (∀ tok, tok ∈ text_normalisation self utterance →
     tok ∈ lower utterance ∨
     ∃ mapping, mapping ∈ text_normalization_mapping self ∧ tok ∈ mapping.2) ∧
  length (text_normalisation self utterance)
    ≤ length utterance + sum_list ((λ mapping, length mapping.2) <$> text_normalization_mapping self) ∧
  length utterance
    ≤ length (text_normalisation self utterance)
      + sum_list ((λ mapping, length mapping.1) <$> text_normalization_mapping self).
Proof.
  unfold text_normalisation.
  replace (length utterance) with (length (lower utterance))
    by (unfold lower; apply length_fmap).
  generalize (lower utterance). generalize (text_normalization_mapping self).
  intros rules. induction rules as [|[s r] rules IH]; intros u.
  - simpl. split_and!; [by left|lia|lia].
  - rewrite !fmap_cons.
    change (sum_list (?x :: ?l)) with (x + sum_list l).
    cbn [fold_left fst snd].
    destruct (IH (replace s r u)) as (IH1 & IH2 & IH3).
    destruct (length_replace_bounds s r u) as [Hl1 Hl2].
    split_and!; [|lia|lia].
    intros tok [[Htok|Htok]%elem_replace|(mapping & Hin & Htok)]%IH1.
    + by left.
    + right. exists (s, r). split; [left|done].
    + right. exists mapping. split; [by right|done].
Qed.
End NormaliserFacts.

Lemma normalisation_of_clean_input_witness :
  SLUPreprocessing.text_normalisation (Examples.slu_of Examples.src_praha)
    ["I"; "Am"; "Here"]
  = Utterance.lower ["I"; "Am"; "Here"].
Proof.
  apply normalisation_of_clean_input. repeat constructor.
Defined.

Section DatabaseExtras.
Import CategoryLabelDatabase.

Lemma triples_of_nil (d : normalised) :
  forallb (λ by_value : string * Py.dict string (list Utterance.phrase),
             forallb (λ forms : string * list Utterance.phrase, bool_decide (forms.2 = []))
               by_value.2) d
  = match triples_of d with [] => true | _ => false end.
Proof.
  unfold triples_of. induction d as [|[name vals] d IH]; [done|].
  cbn [forallb]. rewrite IH. clear IH. rewrite bind_cons. simpl.
  assert (Hv : ∀ vals : Py.dict string (list Utterance.phrase),
            forallb (λ forms : string * list Utterance.phrase, bool_decide (forms.2 = [])) vals
            = match (val_forms ← vals; form ← val_forms.2; [(form, val_forms.1, name)])
              with [] => true | _ => false end).
  { clear. induction vals as [|[value forms] vals IH]; [done|].
    cbn [forallb]. rewrite IH, bind_cons. simpl.
    destruct forms as [|form forms]; simpl; done. }
  rewrite Hv.
  by destruct (val_forms ← vals; form ← val_forms.2; [(form, val_forms.1, name)]).
Qed.

(** X17: [normalise_database] cannot be applied twice: on a database that
    is normalised already and holds a surface form it raises
    [AttributeError] (a tuple of words has no [split]) and leaves the
    database object as it is; only a database without surface forms passes
    through, unchanged. *)
Theorem normalise_database_once self d :
  database self = Normalised d →
  normalise_database self =
    (match triples_of d with [] => Py.Ok () | _ => Py.Raise Py.AttributeError end, self).
Proof.
  intros Hd. unfold normalise_database. rewrite Hd, triples_of_nil.
  by destruct (triples_of d).
Qed.
End DatabaseExtras.

Lemma normalise_database_once_witness :
  CategoryLabelDatabase.normalise_database (Examples.cldb_of Examples.src_praha)
  = (Py.Raise Py.AttributeError, Examples.cldb_of Examples.src_praha).
Proof.
  apply (normalise_database_once (Examples.cldb_of Examples.src_praha)
           [("city", [("Prague", [["Prague"]; ["Praha"]])])]).
  reflexivity.
Defined.

Section ConfnetExtras.
Import SLUPreprocessing.
Context {CN : Type}.
Variable cn_contains : Utterance.phrase → CN → bool.
Variable cn_replace : Utterance.phrase → Utterance.phrase → CN → Py.res CN.
Variable cn_phrase2category_label : Utterance.phrase → Utterance.phrase → CN → Py.res CN.

(** X18: over the index of a database object that has only been
    constructed, loaded and read, the forward pass over a confusion
    network returns a network and a record whenever the rewriting
    operations of the network raise nothing. *)
Theorem confnet_pass_returns self (confnet : CN) :
  CategoryLabelDatabase.reachable (cldb self) →
  (∀ orig replacement cn, ∃ cn', cn_replace orig replacement cn = Py.Ok cn') →
  (∀ p catlab cn, ∃ cn', cn_phrase2category_label p catlab cn = Py.Ok cn') →
  ∃ confnet' rec,
    values2category_labels_in_confnet cn_contains cn_replace cn_phrase2category_label
      self confnet
    = Py.Ok (confnet', rec).
Proof.
  intros Hr Hrep Hlab. unfold values2category_labels_in_confnet.
  destruct (for_each_ok (form_upnames_vals self)
              (confnet_step cn_contains cn_replace cn_phrase2category_label)
              (confnet, [])) as [[confnet' rec] H]; [|by exists confnet', rec].
  intros [surface uv] [cn rec] Hin. unfold confnet_step.
  destruct (cn_contains surface cn); [|by eexists].
  destruct (index_choose _ _ _ Hr Hin) as (slot & value & values & -> & _). simpl.
  destruct (Hrep surface [value] cn) as [cn1 ->].
  destruct (Hlab [value] [slot] cn1) as [cn2 ->]. by eexists.
Qed.
End ConfnetExtras.

Lemma confnet_pass_returns_witness :
  ∃ confnet' rec,
    SLUPreprocessing.values2category_labels_in_confnet Utterance.contains
      (λ orig replacement cn, Py.Ok (Utterance.replace orig replacement cn))
      (λ p catlab cn, Py.Ok (Utterance.phrase2category_label p catlab cn))
      (Examples.slu_of Examples.src_praha) ["to"; "Praha"]
    = Py.Ok (confnet', rec).
Proof.
  apply confnet_pass_returns.
  - apply (CategoryLabelDatabase.reachable_init (Some Examples.src_praha)). reflexivity.
  - intros orig replacement cn. eexists. reflexivity.
  - intros p catlab cn. eexists. reflexivity.
Defined.

Section InterfaceExtras.
Import SLUInterface.
Context {Input SLUHypothesis : Type}.
Variable isinstance : Input → class → bool.

(** X19: [parse] hands an utterance and an utterance hypothesis to
    [parse_1_best], and raises [DAILRException] without calling a method
    for an input of none of the four classes; on [SLUInterface] itself,
    which implements no parser, every call of [parse] raises, and it
    raises [DAILRException] exactly for an input of none of the four
    classes. *)
Theorem parse_dispatch (self : t Input SLUHypothesis) utterance args kw :
  let supported :=
    isinstance utterance Utterance || isinstance utterance UtteranceHyp ||
    isinstance utterance UtteranceNBList || isinstance utterance UtteranceConfusionNetwork in
  (isinstance utterance Utterance || isinstance utterance UtteranceHyp = true →
     parse isinstance self utterance args kw = parse_1_best self utterance args kw) ∧
  (supported = false → parse isinstance self utterance args kw = Raise DAILRException) ∧
  ∃ e, parse isinstance (base : t Input SLUHypothesis) utterance args kw = Raise e ∧
       (e = DAILRException ↔ supported = false).
Proof.
  unfold parse.
  destruct (isinstance utterance Utterance), (isinstance utterance UtteranceHyp),
    (isinstance utterance UtteranceNBList), (isinstance utterance UtteranceConfusionNetwork);
    simpl; (split_and!; [done..|]);
    try (eexists; split; [reflexivity|done]);
    destruct args, kw; simpl; eexists; (split; [reflexivity|done]).
Qed.
End InterfaceExtras.

(** ** The passes over an utterance, on objects *)

Section ObjectRuns.
Context {P : Type}.
Implicit Types (h : Obj.store P) (r : nat) (words : list string).

Lemma phrase2category_label_run h r words p catlab :
  h !! r = Some (Obj.UtteranceObj words) →
  Obj.phrase2category_label r p catlab h =
    (Py.Ok (length h),
     h ++ [Obj.UtteranceObj (Utterance.phrase2category_label p catlab words)]).
Proof.
  intros Hr. unfold Obj.phrase2category_label, mbind, Obj.M_bind, Obj.bind.
  by rewrite (words_of_run h r words).
Qed.

Lemma contains_run h r words p :
  h !! r = Some (Obj.UtteranceObj words) →
  Obj.contains p r h = (Py.Ok (Utterance.contains p words), h).
Proof.
  intros Hr. unfold Obj.contains, mbind, Obj.M_bind, Obj.bind.
  by rewrite (words_of_run h r words).
Qed.

Lemma len_run h r words :
  h !! r = Some (Obj.UtteranceObj words) →
  Obj.len r h = (Py.Ok (Utterance.len words), h).
Proof.
  intros Hr. unfold Obj.len, mbind, Obj.M_bind, Obj.bind.
  by rewrite (words_of_run h r words).
Qed.

Lemma from_utterance_run h r words :
  h !! r = Some (Obj.UtteranceObj words) →
  Obj.from_utterance r h = (Py.Ok (length h), h ++ [Obj.UtteranceObj words]).
Proof.
  intros Hr. unfold Obj.from_utterance, mbind, Obj.M_bind, Obj.bind.
  by rewrite (words_of_run h r words).
Qed.

Lemma deepcopy_run h r words :
  h !! r = Some (Obj.UtteranceObj words) →
  Obj.deepcopy r h = (Py.Ok (length h), h ++ [Obj.UtteranceObj words]).
Proof.
  intros Hr. unfold Obj.deepcopy, mbind, Obj.M_bind, Obj.bind, Obj.get.
  by rewrite Hr.
Qed.

(** The variables of the scan over an object stand for the variables of
    the scan over its words. *)
Local Abbreviation stands_for h0 h st stv :=
  (h !! Obj.utterance_cp st
     = Some (Obj.UtteranceObj (SLUPreprocessing.utterance_cp stv)) ∧
   Obj.created h0 (Obj.utterance_cp st) ∧
   Obj.category_label_counter st = SLUPreprocessing.category_label_counter stv ∧
   Obj.valform_for_cl st = SLUPreprocessing.valform_for_cl stv ∧
   Obj.substituted_len st = SLUPreprocessing.substituted_len stv).

Lemma bind_run {A B} (m : Obj.M P A) (k : A → Obj.M P B) h a h' :
  m h = (Py.Ok a, h') → (m ≫= k) h = k a h'.
Proof. intros H. unfold mbind, Obj.M_bind, Obj.bind. by rewrite H. Qed.

Lemma bind_raise_run {A B} (m : Obj.M P A) (k : A → Obj.M P B) h e h' :
  m h = (Py.Raise e, h') → (m ≫= k) h = (Py.Raise e, h').
Proof. intros H. unfold mbind, Obj.M_bind, Obj.bind. by rewrite H. Qed.

Lemma utterance_step_run h0 all_options n item st stv h :
  (length h0 ≤ length h)%nat →
  stands_for h0 h st stv →
  match SLUPreprocessing.utterance_step all_options n item stv with
  | Py.Ok fl =>
      ∃ st' ext,
        Obj.utterance_step all_options n item st h
          = (Py.Ok (match fl with Py.Continue _ => Py.Continue st' | Py.Break _ => Py.Break st' end),
             h ++ ext) ∧
        stands_for h0 (h ++ ext) st' (Py.flow_state fl)
  | Py.Raise e =>
      ∃ ext, Obj.utterance_step all_options n item st h = (Py.Raise e, h ++ ext)
  end.
Proof.
  intros Hh (Hcp & Hcr & Hcnt & Hrec & Hsub). destruct item as [surface uv].
  unfold SLUPreprocessing.utterance_step, Obj.utterance_step.
  rewrite (bind_run _ _ h _ _ (contains_run h _ _ surface Hcp)).
  destruct (Utterance.contains surface (SLUPreprocessing.utterance_cp stv)).
  2: { exists st, []. rewrite app_nil_r. by split_and!. }
  destruct all_options.
  { exists []. by rewrite app_nil_r. }
  destruct (SLUPreprocessing.choose uv) as [[slot_upper value]|e]; simpl.
  2: { exists []. by rewrite app_nil_r. }
  set (w1 := Utterance.replace surface [value] (SLUPreprocessing.utterance_cp stv)).
  set (w2 := Utterance.phrase2category_label [value] [slot_upper] w1).
  set (h1 := h ++ [Obj.UtteranceObj w1]).
  set (h2 := h1 ++ [Obj.UtteranceObj w2]).
  assert (H1 : h1 !! length h = Some (Obj.UtteranceObj w1)) by (by apply list_lookup_middle).
  assert (H2 : h2 !! length h1 = Some (Obj.UtteranceObj w2)) by (by apply list_lookup_middle).
  assert (Hext : h2 = h ++ [Obj.UtteranceObj w1; Obj.UtteranceObj w2]).
  { unfold h2, h1. by rewrite <- app_assoc. }
  assert (Hcr' : Obj.created h0 (length h1)).
  { unfold Obj.created, h1. rewrite length_app. simpl. lia. }
  assert (Hinner :
    (Obj.replace (Obj.utterance_cp st) surface [value]
       ≫= λ utterance_cp,
            Obj.phrase2category_label utterance_cp [value] [slot_upper]
              ≫= λ utterance_cp0,
                   Obj.ret
                     (Obj.Locals utterance_cp0
                        (Py.update slot_upper S 0 (Obj.category_label_counter st))
                        (Py.set slot_upper (value, surface) (Obj.valform_for_cl st))
                        (Obj.substituted_len st + length surface))) h
    = (Py.Ok (Obj.Locals (length h1)
                (Py.update slot_upper S 0 (Obj.category_label_counter st))
                (Py.set slot_upper (value, surface) (Obj.valform_for_cl st))
                (Obj.substituted_len st + length surface)), h2)).
  { rewrite (bind_run _ _ h _ _ (replace_run h _ _ surface [value] Hcp)).
    by rewrite (bind_run _ _ h1 _ _ (phrase2category_label_run h1 _ w1 [value] [slot_upper] H1)). }
  rewrite (bind_run _ _ h _ _ Hinner). rewrite Hsub.
  destruct (n <=? SLUPreprocessing.substituted_len stv + length surface)%nat.
  - destruct (SLUPreprocessing.substituted_len stv + length surface =? n)%nat.
    + eexists _, _. rewrite <- Hext. split; [reflexivity|]. simpl.
      rewrite Hcnt, Hrec. by split_and!.
    + eexists. unfold Obj.raise. by rewrite <- Hext.
  - eexists _, _. rewrite <- Hext. split; [reflexivity|]. simpl.
    rewrite Hcnt, Hrec. by split_and!.
Qed.

Lemma scan_run h0 all_options n index st stv h :
  (length h0 ≤ length h)%nat →
  stands_for h0 h st stv →
  match Py.for_break index (SLUPreprocessing.utterance_step all_options n) stv with
  | Py.Ok stv' =>
      ∃ st' ext,
        Obj.for_break index (Obj.utterance_step all_options n) st h = (Py.Ok st', h ++ ext) ∧
        stands_for h0 (h ++ ext) st' stv'
  | Py.Raise e =>
      ∃ ext, Obj.for_break index (Obj.utterance_step all_options n) st h
             = (Py.Raise e, h ++ ext)
  end.
Proof.
  revert st stv h. induction index as [|item index IH]; intros st stv h Hh Hst; simpl.
  - exists st, []. rewrite app_nil_r. done.
  - pose proof (utterance_step_run h0 all_options n item st stv h Hh Hst) as Hstep.
    destruct (SLUPreprocessing.utterance_step all_options n item stv) as [[stv1|stv1]|e].
    + destruct Hstep as (st1 & ext & Heq & Hst1). simpl in Hst1.
      rewrite (bind_run _ _ h _ _ Heq).
      assert (Hh1 : (length h0 ≤ length (h ++ ext))%nat) by (rewrite length_app; lia).
      specialize (IH st1 stv1 (h ++ ext) Hh1 Hst1).
      destruct (Py.for_break index _ stv1) as [stv'|e].
      * destruct IH as (st' & ext' & -> & Hst'). exists st', (ext ++ ext').
        by rewrite app_assoc.
      * destruct IH as (ext' & ->). exists (ext ++ ext'). by rewrite app_assoc.
    + destruct Hstep as (st1 & ext & Heq & Hst1).
      rewrite (bind_run _ _ h _ _ Heq). by exists st1, ext.
    + destruct Hstep as (ext & Heq).
      rewrite (bind_raise_run _ _ h _ _ Heq). by exists ext.
Qed.

(** X20: the forward pass over an utterance object computes what the pass
    over its words computes.  When that returns words and a record, the
    pass returns, with the same record, an utterance object holding these
    words that was created during the call, so never the object it was
    given, not even when nothing was substituted; when that raises, the
    pass raises the same exception.  In both cases the store it leaves
    extends the store it found.  The backward pass over an utterance
    object likewise returns a newly created object, which holds the words
    that the backward pass over the words computes. *)
Theorem passes_on_objects self (h : Obj.store P) utterance words :
  h !! utterance = Some (Obj.UtteranceObj words) →
  (∀ all_options,
     match SLUPreprocessing.values2category_labels_in_utterance self words all_options with
     | Py.Ok (words', rec) =>
         ∃ result ext,
           Obj.values2category_labels_in_utterance self utterance all_options h
             = (Py.Ok (result, rec), h ++ ext) ∧
           (h ++ ext) !! result = Some (Obj.UtteranceObj words') ∧
           Obj.created h result
     | Py.Raise e =>
         ∃ ext, Obj.values2category_labels_in_utterance self utterance all_options h
                = (Py.Raise e, h ++ ext)
     end) ∧
  (∀ category_labels,
     ∃ result ext,
       Obj.category_labels2values_in_utterance self utterance category_labels h
         = (Py.Ok result, h ++ ext) ∧
       (h ++ ext) !! result
         = Some (Obj.UtteranceObj
                   (SLUPreprocessing.category_labels2values_in_utterance self words
                      category_labels)) ∧
       Obj.created h result).
Proof.
  intros Hr. split.
  - intros all_options.
    unfold SLUPreprocessing.values2category_labels_in_utterance,
      Obj.values2category_labels_in_utterance, SLUPreprocessing.scan_utterance.
    rewrite (bind_run _ _ h _ _ (from_utterance_run h utterance words Hr)).
    assert (Hr' : (h ++ [Obj.UtteranceObj words]) !! utterance = Some (Obj.UtteranceObj words)).
    { apply lookup_app_l_Some, Hr. }
    rewrite (bind_run _ _ _ _ _ (len_run _ utterance words Hr')).
    assert (Hlen : (length h ≤ length (h ++ [Obj.UtteranceObj words]))%nat).
    { rewrite length_app. lia. }
    assert (Hst0 : stands_for h (h ++ [Obj.UtteranceObj words])
                     (Obj.Locals (length h) [] [] 0)
                     (SLUPreprocessing.Locals (SLUPreprocessing.from_utterance words) [] [] 0)).
    { split_and!; [by apply list_lookup_middle|unfold Obj.created; simpl; lia|done..]. }
    pose proof (scan_run h all_options (Utterance.len words)
                  (SLUPreprocessing.form_upnames_vals self) _ _ _ Hlen Hst0) as Hscan.
    destruct (Py.for_break _ _ (SLUPreprocessing.Locals _ [] [] 0)) as [stv|e]; simpl.
    + destruct Hscan as (st & ext & Heq & Hcp & Hcr & _ & Hrec & _).
      rewrite (bind_run _ _ _ _ _ Heq).
      destruct all_options.
      * exists ([Obj.UtteranceObj words] ++ ext). by rewrite app_assoc.
      * exists (Obj.utterance_cp st), ([Obj.UtteranceObj words] ++ ext).
        rewrite app_assoc, Hrec. done.
    + destruct Hscan as (ext & Heq).
      rewrite (bind_raise_run _ _ _ _ _ Heq).
      exists ([Obj.UtteranceObj words] ++ ext). by rewrite app_assoc.
  - intros category_labels.
    unfold SLUPreprocessing.category_labels2values_in_utterance,
      Obj.category_labels2values_in_utterance.
    unfold mbind, Obj.M_bind, Obj.bind. rewrite (deepcopy_run h utterance words Hr).
    assert (Hgen : ∀ (keys : list string) h1 r1 words1,
              (length h ≤ r1)%nat → (length h ≤ length h1)%nat →
              h1 !! r1 = Some (Obj.UtteranceObj words1) →
              ∃ result ext,
                Obj.for_each keys
                  (λ cl utterance0,
                     match Py.get cl category_labels with
                     | Some valform => Obj.phrase2category_label utterance0 [cl] valform.2
                     | None => Obj.ret utterance0
                     end) r1 h1 = (Py.Ok result, h1 ++ ext) ∧
                (h1 ++ ext) !! result
                  = Some (Obj.UtteranceObj
                            (fold_left
                               (λ utterance0 cl,
                                  match Py.get cl category_labels with
                                  | Some valform =>
                                      Utterance.phrase2category_label [cl] valform.2 utterance0
                                  | None => utterance0
                                  end) keys words1)) ∧
                (length h ≤ result)%nat).
    { induction keys as [|cl keys IH]; intros h1 r1 words1 Hr1 Hh1 Hw1; simpl.
      - exists r1, []. rewrite app_nil_r. done.
      - unfold mbind, Obj.M_bind, Obj.bind.
        destruct (Py.get cl category_labels) as [valform|].
        + rewrite (phrase2category_label_run h1 r1 words1) by done.
          destruct (IH (h1 ++ [Obj.UtteranceObj
                                 (Utterance.phrase2category_label [cl] valform.2 words1)])
                      (length h1)
                      (Utterance.phrase2category_label [cl] valform.2 words1))
            as (result & ext & Hrun & Hres & Hcr).
          { done. } { rewrite length_app. lia. } { by apply list_lookup_middle. }
          exists result, ([Obj.UtteranceObj
                             (Utterance.phrase2category_label [cl] valform.2 words1)] ++ ext).
          rewrite app_assoc. done.
        + unfold Obj.ret. by apply IH. }
    destruct (Hgen (Py.keys category_labels) (h ++ [Obj.UtteranceObj words]) (length h) words)
      as (result & ext & Hrun & Hres & Hcr).
    { done. } { rewrite length_app. lia. } { by apply list_lookup_middle. }
    exists result, ([Obj.UtteranceObj words] ++ ext). rewrite app_assoc. done.
Qed.
End ObjectRuns.

Lemma passes_on_objects_witness :
  let h : Obj.store unit := [Obj.UtteranceObj ["i"; "go"; "to"; "Praha"]] in
  (∀ all_options,
     match SLUPreprocessing.values2category_labels_in_utterance
             (Examples.slu_of Examples.src_praha) ["i"; "go"; "to"; "Praha"] all_options with
     | Py.Ok (words', rec) =>
         ∃ result ext,
           Obj.values2category_labels_in_utterance (Examples.slu_of Examples.src_praha)
             0 all_options h
             = (Py.Ok (result, rec), h ++ ext) ∧
           (h ++ ext) !! result = Some (Obj.UtteranceObj words') ∧
           Obj.created h result
     | Py.Raise e =>
         ∃ ext, Obj.values2category_labels_in_utterance (Examples.slu_of Examples.src_praha)
                  0 all_options h
                = (Py.Raise e, h ++ ext)
     end) ∧
  (∀ category_labels,
     ∃ result ext,
       Obj.category_labels2values_in_utterance (Examples.slu_of Examples.src_praha)
         0 category_labels h
         = (Py.Ok result, h ++ ext) ∧
       (h ++ ext) !! result
         = Some (Obj.UtteranceObj
                   (SLUPreprocessing.category_labels2values_in_utterance
                      (Examples.slu_of Examples.src_praha) ["i"; "go"; "to"; "Praha"]
                      category_labels)) ∧
       Obj.created h result).
Proof.
  intros h. apply (passes_on_objects (Examples.slu_of Examples.src_praha) h 0).
  reflexivity.
Defined.

(** ** The labels of a scan over an n-best list *)

Section LabelTrace.
Import SLUPreprocessing Utterance.
Local Open Scope nat_scope.
Context {P : Type}.


Local Arguments relabel_hyps : simpl never.


End LabelTrace.


(** ** Longest match first *)

Section LongestMatchScan.
Import SLUPreprocessing Utterance.
Local Open Scope nat_scope.





End LongestMatchScan.

